(** * Bulut widget: streaming session core (src/api/client.ts, src/agent/tools.ts)

    A shallow embedding of the client's WebSocket helpers, the TTS and STT
    session handlers, the playback generation counter, the resume checkpoint
    and the agent stream controllers, with the properties the specification
    states about them.

    Conventions.
    - A JavaScript value is a [JsValue].  Objects are finite maps from property
      names to values; the prototype chain is flattened into that map.
    - Sequence numbers, timestamps and counters are integer-valued doubles far
      below 2^53, where double arithmetic is exact: they are carried by [Z].
      [NaN] is kept apart because comparisons with it are false.
    - A string is held as the bytes of its UTF-8 text; the binary strings of
      [atob] and [btoa], whose code units are bytes, are held byte by byte.
    - A function that may throw returns [Exn]; [try_catch] is the statement.
      Where the code asks whether a caught value is an [Error], the value
      comes with the answer ([Caught]).
    - Browser services (JSON.parse, atob, Date.now, the socket's events) are
      inputs of the model: section variables or scripted event lists. *)

From Stdlib Require Import ZArith List Bool Lia Sorted.
From Stdlib.Strings Require Import Byte String.
From stdpp Require Import base option gmap strings list.
Import ListNotations.

Set Warnings "-register-all".
Local Open Scope Z_scope.

(* ===================================================================== *)
(** ** JavaScript values *)
(* ===================================================================== *)

Module Js.

Inductive JsNum : Type :=
| Fin (z : Z)
| NaN.

Inductive JsValue : Type :=
| JUndefined
| JNull
| JBool (b : bool)
| JNumber (n : JsNum)
| JString (s : string)
| JArray (items : list JsValue)
| JObject (props : gmap string JsValue).

(** Outcome of an evaluation that may throw. *)
Inductive Exn (A : Type) : Type :=
| Ret (a : A)
| Throw (e : JsValue).
Arguments Ret {A} a.
Arguments Throw {A} e.

Definition bind {A B} (m : Exn A) (k : A -> Exn B) : Exn B :=
  match m with
  | Ret a => k a
  | Throw e => Throw e
  end.

(** [try { body } catch (e) { handler e }] *)
Definition try_catch {A} (body : Exn A) (handler : JsValue -> Exn A) : Exn A :=
  match body with
  | Ret a => Ret a
  | Throw e => handler e
  end.

Definition returns {A} (m : Exn A) : bool :=
  match m with Ret _ => true | Throw _ => false end.

(** [typeof v] *)
Definition typeof (v : JsValue) : string :=
  match v with
  | JUndefined => "undefined"
  | JNull => "object"
  | JBool _ => "boolean"
  | JNumber _ => "number"
  | JString _ => "string"
  | JArray _ => "object"
  | JObject _ => "object"
  end.

(** [Boolean(v)], the truthiness used by [if], [!], [||] and [&&]. *)
Definition truthy (v : JsValue) : bool :=
  match v with
  | JUndefined | JNull => false
  | JBool b => b
  | JNumber (Fin z) => negb (z =? 0)
  | JNumber NaN => false
  | JString s => negb (String.eqb s "")
  | JArray _ | JObject _ => true
  end.

(** [v === null] *)
Definition is_null (v : JsValue) : bool :=
  match v with JNull => true | _ => false end.

(** [v === false] *)
Definition is_false (v : JsValue) : bool :=
  match v with JBool false => true | _ => false end.

(** [v === undefined] *)
Definition is_undefined (v : JsValue) : bool :=
  match v with JUndefined => true | _ => false end.

(** [v === "lit"] for a string literal. *)
Definition is_str (v : JsValue) (lit : string) : bool :=
  match v with JString s => String.eqb s lit | _ => false end.

(** ["k" in v] for an object [v]: own or inherited property. *)
Definition has_prop (v : JsValue) (k : string) : bool :=
  match v with
  | JObject props => bool_decide (is_Some (props !! k))
  | _ => false
  end.

(** [v.k] where [v] is neither null nor undefined: a missing property, or any
    property of a primitive that the model does not carry, reads [undefined]. *)
Definition prop (v : JsValue) (k : string) : JsValue :=
  match v with
  | JObject props => default JUndefined (props !! k)
  | _ => JUndefined
  end.

(** [v.k] in general: reading a property of null or undefined throws. *)
Definition TypeError : JsValue :=
  JObject {[ "name" := JString "TypeError" ]}.

Definition member (v : JsValue) (k : string) : Exn JsValue :=
  match v with
  | JUndefined | JNull => Throw TypeError
  | _ => Ret (prop v k)
  end.

(** A value that was caught, with the answer of [err instanceof Error]: the
    property map of an object does not tell whether the object is an
    [Error]. *)
Record Caught : Type := mkCaught {
  thrown : JsValue;
  instanceofError : bool;
}.

(** [new Error(msg)] *)
Definition newError (msg : JsValue) : Caught :=
  mkCaught (JObject (<[ "message" := msg ]> ∅)) true.

(** [err instanceof Error ? err.message : String(err)]; a caught value that
    is no [Error] stands for its own text. *)
Definition errorText (err : Caught) : JsValue :=
  if instanceofError err then prop (thrown err) "message" else thrown err.

(** An error the runtime throws, such as the [TypeError] of [member], is
    an [Error]. *)
Definition runtimeError (e : JsValue) : Caught := mkCaught e true.

(** [a > b] and [a - b] on numbers: anything with NaN is false, resp. NaN. *)
Definition js_gt (a b : JsNum) : bool :=
  match a, b with
  | Fin x, Fin y => x >? y
  | _, _ => false
  end.

Definition js_sub (a b : JsNum) : JsNum :=
  match a, b with
  | Fin x, Fin y => Fin (x - y)
  | _, _ => NaN
  end.

(** The characters of a string value; used behind a [typeof] guard only. *)
Definition string_of (v : JsValue) : string :=
  match v with JString s => s | _ => "" end.

(** [a || b] on values. *)
Definition js_or (a b : JsValue) : JsValue :=
  if truthy a then a else b.

(** White space.  A string is held as the bytes of its UTF-8 text, so the
    set that [String.prototype.trim] and [\s] strip (WhiteSpace and
    LineTerminator of the language) is given by its encodings: in one byte
    TAB, LF, VT, FF, CR and SPACE; in two bytes U+00A0; in three bytes
    U+1680, U+2000 to U+200A, U+2028, U+2029, U+202F, U+205F, U+3000 and
    U+FEFF. *)
Definition is_space (c : Ascii.ascii) : bool :=
  let n := Ascii.nat_of_ascii c in
  ((9 <=? n)%nat && (n <=? 13)%nat) || (n =? 32)%nat.

Definition is_space2 (c1 c2 : Ascii.ascii) : bool :=
  (Ascii.nat_of_ascii c1 =? 194)%nat && (Ascii.nat_of_ascii c2 =? 160)%nat.

Definition is_space3 (c1 c2 c3 : Ascii.ascii) : bool :=
  let n1 := Ascii.nat_of_ascii c1 in
  let n2 := Ascii.nat_of_ascii c2 in
  let n3 := Ascii.nat_of_ascii c3 in
  ((n1 =? 225) && (n2 =? 154) && (n3 =? 128))%nat
  || ((n1 =? 226) && (n2 =? 128)
      && (((128 <=? n3) && (n3 <=? 138)) || (n3 =? 168) || (n3 =? 169)
          || (n3 =? 175)))%nat
  || ((n1 =? 226) && (n2 =? 129) && (n3 =? 159))%nat
  || ((n1 =? 227) && (n2 =? 128) && (n3 =? 128))%nat
  || ((n1 =? 239) && (n2 =? 187) && (n3 =? 191))%nat.

(** U+00A0, the no-break space. *)
Definition nbsp : string :=
  String (Ascii.ascii_of_nat 194) (String (Ascii.ascii_of_nat 160) EmptyString).

(** The bytes of the white-space character [s] starts with: 0 if it
    starts with none. *)
Definition space_width (s : string) : nat :=
  match s with
  | String c1 r1 =>
      if is_space c1 then 1
      else match r1 with
           | String c2 r2 =>
               if is_space2 c1 c2 then 2
               else match r2 with
                    | String c3 _ => if is_space3 c1 c2 c3 then 3 else 0
                    | EmptyString => 0
                    end
           | EmptyString => 0
           end
  | EmptyString => 0
  end.

(** [s.trimStart()] *)
Fixpoint trim_start (s : string) : string :=
  match s with
  | EmptyString => EmptyString
  | String c1 r1 =>
      if is_space c1 then trim_start r1
      else match r1 with
           | String c2 r2 =>
               if is_space2 c1 c2 then trim_start r2
               else match r2 with
                    | String c3 r3 =>
                        if is_space3 c1 c2 c3 then trim_start r3 else s
                    | EmptyString => s
                    end
           | EmptyString => s
           end
  end.

(** [s] is white space throughout. *)
Fixpoint all_space (s : string) : bool :=
  match s with
  | EmptyString => true
  | String c1 r1 =>
      if is_space c1 then all_space r1
      else match r1 with
           | String c2 r2 =>
               if is_space2 c1 c2 then all_space r2
               else match r2 with
                    | String c3 r3 => is_space3 c1 c2 c3 && all_space r3
                    | EmptyString => false
                    end
           | EmptyString => false
           end
  end.

(** [s.trimEnd()]: the text before the white space [s] ends with. *)
Fixpoint trim_end (s : string) : string :=
  match s with
  | EmptyString => EmptyString
  | String c r => if all_space s then EmptyString else String c (trim_end r)
  end.

(** [s.trim()] *)
Definition trim (s : string) : string := trim_end (trim_start s).

End Js.
Import Js.

(* ===================================================================== *)
(** ** WebSocket payload helpers (client.ts) *)
(* ===================================================================== *)

Module Helpers.

(** [export const TTS_WS_RETRY_DELAYS_MS = [250, 750, 1500];] *)
Definition TTS_WS_RETRY_DELAYS_MS : list Z := [250; 750; 1500].

(** [buildError(message, retryable = true)]: an Error carrying the flag.
    The message is whatever the caller passes ([payload.error || "..."]). *)
Definition buildError (message : JsValue) (retryable : bool) : JsValue :=
  JObject (<[ "retryable" := JBool retryable ]>
           (<[ "message" := message ]> ∅)).

(** [shouldAcceptAudioSeq(incomingSeq, highestSeqSeen)] *)
Definition shouldAcceptAudioSeq (incomingSeq highestSeqSeen : JsNum) : bool :=
  js_gt incomingSeq highestSeqSeen.

(** [shouldFallbackToSse(error)] *)
Definition shouldFallbackToSse (error : JsValue) : bool :=
  if String.eqb (typeof error) "object" && negb (is_null error)
     && has_prop error "retryable"
  then truthy (prop error "retryable")
  else true.

Section Parse.
(** [JSON.parse]: the parsed value, or the SyntaxError it throws. *)
Variable JSON_parse : string -> Exn JsValue.

(** [parseTtsWsEventPayload(value)] *)
Definition parseTtsWsEventPayload (value : JsValue) : Exn JsValue :=
  try_catch
    (if negb (String.eqb (typeof value) "string")
     then Ret JNull
     else JSON_parse (string_of value))
    (fun _ => Ret JNull).

(** [parseSttWsEventPayload(value)] *)
Definition parseSttWsEventPayload (value : JsValue) : Exn JsValue :=
  try_catch
    (if negb (String.eqb (typeof value) "string")
     then Ret JNull
     else JSON_parse (string_of value))
    (fun _ => Ret JNull).
End Parse.

End Helpers.
Import Helpers.

(* ===================================================================== *)
(** ** TTS WebSocket session (collectTtsViaWebSocket) *)
(* ===================================================================== *)

Module Tts.

Definition Bytes : Type := list Byte.byte.

(** [interface TtsCollectResult] together with [highestSeqSeen]: the locals
    of [collectTtsViaWebSocket] that every connection attempt shares. *)
Record Session : Type := mkSession {
  chunks : list Bytes;
  mimeType : JsValue;
  sampleRate : JsNum;
  highestSeqSeen : JsNum;
}.

Definition initialSession : Session :=
  {| chunks := []; mimeType := JString "audio/mpeg";
     sampleRate := Fin 16000; highestSeqSeen := Fin 0 |}.

Inductive ReadyState : Type := CONNECTING | OPEN | CLOSING | CLOSED.

Definition is_open (r : ReadyState) : bool :=
  match r with OPEN => true | _ => false end.

(** How the promise of one [connectOnce] call settled. *)
Inductive Settled : Type :=
| Resolved
| Rejected (e : JsValue).

(** One connection attempt: the shared locals, the locals of [connectOnce]
    ([done], [finalError]), the socket ([readyState], whether its handlers
    are still installed, what was sent on it) and the promise. *)
Record Conn : Type := mkConn {
  sess : Session;
  done : bool;
  finalError : option JsValue;
  readyState : ReadyState;
  handlers : bool;
  sent : list JsValue;
  settled : option Settled;
}.

Definition set_sess (c : Conn) (s : Session) : Conn :=
  mkConn s (done c) (finalError c) (readyState c) (handlers c) (sent c) (settled c).

(** What the browser delivers to a socket.  [EvClose stopped] carries the
    answer [isStopped()] gives when [onclose] runs. *)
Inductive WsEvent : Type :=
| EvOpen
| EvMessage (data : string)
| EvError
| EvClose (stopped : bool).

Section Handlers.
Variable JSON_parse : string -> Exn JsValue.
(** [atob]: the decoded binary string, or the exception on bad input. *)
Variable atob : string -> Exn string.
(** [base64.replace(/^data:audio\/\w+;base64,/, "")] *)
Variable strip_data_uri : string -> string.
Variable requestId : string.
Variables (assistantText voice : string) (accessibilityMode : bool).

(** [base64ToUint8Array(base64)] *)
Definition base64ToUint8Array (base64 : string) : Exn Bytes :=
  bind (atob (strip_data_uri base64))
       (fun binaryString => Ret (String.list_byte_of_string binaryString)).

(** [socket.send(JSON.stringify(msg))] *)
Definition send (c : Conn) (msg : JsValue) : Conn :=
  mkConn (sess c) (done c) (finalError c) (readyState c) (handlers c)
         (sent c ++ [msg]) (settled c).

(** [socket.close()] *)
Definition close (c : Conn) : Conn :=
  match readyState c with
  | CLOSED => c
  | _ => mkConn (sess c) (done c) (finalError c) CLOSING (handlers c)
                (sent c) (settled c)
  end.

(** [finalize(mode, error)]: drops the four handlers and settles. *)
Definition finalize (c : Conn) (mode : Settled) : Conn :=
  mkConn (sess c) (done c) (finalError c) (readyState c) false (sent c)
         (match settled c with Some r => Some r | None => Some mode end).

Definition startMessage (c : Conn) : JsValue :=
  JObject (<[ "type" := JString "start" ]>
           (<[ "request_id" := JString requestId ]>
            (<[ "text" := JString assistantText ]>
             (<[ "voice" := JString voice ]>
              (<[ "accessibility_mode" := JBool accessibilityMode ]>
               (<[ "last_seq" := JNumber (highestSeqSeen (sess c)) ]> ∅)))))).

Definition ackMessage (c : Conn) : JsValue :=
  JObject (<[ "type" := JString "ack" ]>
           (<[ "request_id" := JString requestId ]>
            (<[ "last_seq" := JNumber (highestSeqSeen (sess c)) ]> ∅))).

(** [socket.onopen] *)
Definition onopen (c : Conn) : Conn := send c (startMessage c).

(** [typeof v === "number" ? v : dflt] *)
Definition number_or (v : JsValue) (dflt : JsNum) : JsNum :=
  match v with JNumber n => n | _ => dflt end.

(** The [audio] branch of [socket.onmessage]. *)
Definition on_audio (c : Conn) (payload : JsValue) : Exn Conn :=
  let seq := number_or (prop payload "seq") (Fin 0) in
  bind
    (if shouldAcceptAudioSeq seq (highestSeqSeen (sess c)) then
       bind (base64ToUint8Array (string_of (prop payload "audio")))
            (fun bytes =>
               let s := sess c in
               Ret (set_sess c
                 {| chunks := chunks s ++ [bytes];
                    highestSeqSeen := seq;
                    mimeType := if truthy (prop payload "mime_type")
                                then prop payload "mime_type" else mimeType s;
                    sampleRate := number_or (prop payload "sample_rate")
                                            (sampleRate s) |}))
     else Ret c)
    (fun c1 => Ret (if is_open (readyState c1) then send c1 (ackMessage c1) else c1)).

(** The [done] branch. *)
Definition on_done (c : Conn) (payload : JsValue) : Conn :=
  let streamLastSeq :=
    number_or (prop payload "last_seq") (highestSeqSeen (sess c)) in
  if js_gt streamLastSeq (highestSeqSeen (sess c)) then
    close (mkConn (sess c) false
                  (Some (buildError (JString "tts_ws_sequence_gap") true))
                  (readyState c) (handlers c) (sent c) (settled c))
  else
    close (mkConn (sess c) true (finalError c)
                  (readyState c) (handlers c) (sent c) (settled c)).

(** The [error] branch. *)
Definition on_error_message (c : Conn) (payload : JsValue) : Conn :=
  close (mkConn (sess c) false
                (Some (buildError (js_or (prop payload "error")
                                         (JString "tts_ws_error"))
                                  (negb (is_false (prop payload "retryable")))))
                (readyState c) (handlers c) (sent c) (settled c)).

(** [socket.onmessage] *)
Definition onmessage (c : Conn) (data : string) : Exn Conn :=
  bind (parseTtsWsEventPayload JSON_parse (JString data)) (fun payload =>
  if negb (truthy payload) then Ret c
  else if is_str (prop payload "type") "audio"
          && String.eqb (typeof (prop payload "audio")) "string"
  then on_audio c payload
  else if is_str (prop payload "type") "done" then Ret (on_done c payload)
  else if is_str (prop payload "type") "error"
  then Ret (on_error_message c payload)
  else Ret c).

(** [socket.onerror] *)
Definition onerror (c : Conn) : Conn :=
  match finalError c with
  | Some _ => c
  | None =>
      mkConn (sess c) (done c)
             (Some (buildError (JString "tts_ws_transport_error") true))
             (readyState c) (handlers c) (sent c) (settled c)
  end.

(** [socket.onclose] *)
Definition onclose (c : Conn) (stopped : bool) : Conn :=
  if stopped then
    finalize c (Rejected (buildError (JString "stream_stopped") false))
  else if done c then finalize c Resolved
  else
    finalize c (Rejected
      (match finalError c with
       | Some e => e
       | None => buildError (JString "tts_ws_closed_before_done") true
       end)).

(** The browser's delivery of one event.  A message is delivered only to
    an open socket (after [close()] the state is CLOSING and frames are
    dropped); a handler that throws leaves the state as it stood; nothing
    runs once [finalize] has dropped the handlers. *)
Definition dispatch (c : Conn) (ev : WsEvent) : Conn :=
  match ev with
  | EvOpen =>
      match readyState c with
      | CONNECTING =>
          let c1 := mkConn (sess c) (done c) (finalError c) OPEN
                           (handlers c) (sent c) (settled c) in
          if handlers c then onopen c1 else c1
      | _ => c
      end
  | EvMessage data =>
      if is_open (readyState c) && handlers c then
        match onmessage c data with
        | Ret c1 => c1
        | Throw _ => c
        end
      else c
  | EvError =>
      match readyState c with
      | CLOSED => c
      | _ => if handlers c then onerror c else c
      end
  | EvClose stopped =>
      match readyState c with
      | CLOSED => c
      | _ =>
          let c1 := mkConn (sess c) (done c) (finalError c) CLOSED
                           (handlers c) (sent c) (settled c) in
          if handlers c then onclose c1 stopped else c1
      end
  end.

Definition run (c : Conn) (evs : list WsEvent) : Conn :=
  fold_left dispatch evs c.

(** What the environment does during one [connectOnce()] call. *)
Record Script : Type := mkScript {
  stoppedAtStart : bool;              (* isStopped() on entry *)
  socketCtor : Exn unit;              (* new WebSocket(wsUrl) *)
  events : list WsEvent;
}.

Definition freshConn (s : Session) : Conn :=
  mkConn s false None CONNECTING true [] None.

(** [connectOnce()]: the shared locals afterwards and how the promise
    settled ([None]: it never did). *)
Definition connectOnce (s : Session) (sc : Script) : Session * option Settled :=
  if stoppedAtStart sc then
    (s, Some (Rejected (buildError (JString "stream_stopped") false)))
  else
    match socketCtor sc with
    | Throw e => (s, Some (Rejected e))
    | Ret _ =>
        let c := run (freshConn s) (events sc) in
        (sess c, settled c)
    end.

(** Result of the whole [collectTtsViaWebSocket] call. *)
Inductive Collected : Type :=
| Returned (result : Session)
| Threw (e : JsValue)
| Hung.

(** What the retry loop does, in order. *)
Inductive LoopStep : Type :=
| Slept (delay : option Z)
| Connected (attempt : nat) (last_seq : JsNum) (r : option Settled).

(** The [for (let attempt = 0; attempt <= LADDER.length; attempt += 1)]
    loop; [fuel] counts the iterations the loop condition still allows. *)
Fixpoint attemptLoop (fuel attempt : nat) (s : Session) (scripts : list Script)
  : list LoopStep * Collected :=
  match fuel with
  | O => ([], Threw (buildError (JString "tts_ws_exhausted") true))
  | S fuel' =>
      let pre :=
        if (0 <? attempt)%nat
        then [Slept (TTS_WS_RETRY_DELAYS_MS !! (attempt - 1)%nat)] else [] in
      match scripts !! attempt with
      | None => (pre ++ [Connected attempt (highestSeqSeen s) None], Hung)
      | Some sc =>
          let '(s1, r) := connectOnce s sc in
          let here := pre ++ [Connected attempt (highestSeqSeen s) r] in
          match r with
          | None => (here, Hung)
          | Some Resolved => (here, Returned s1)
          | Some (Rejected error) =>
              let retryable := shouldFallbackToSse error in
              if negb retryable
                 || (attempt =? length TTS_WS_RETRY_DELAYS_MS)%nat
              then (here, Threw error)
              else
                let '(rest, res) := attemptLoop fuel' (S attempt) s1 scripts in
                (here ++ rest, res)
          end
      end
  end.

(** [collectTtsViaWebSocket(...)] *)
Definition collectTtsViaWebSocket (scripts : list Script)
  : list LoopStep * Collected :=
  attemptLoop (S (length TTS_WS_RETRY_DELAYS_MS)) 0 initialSession scripts.

(** *** Observations used by the properties *)

(** The sequence numbers of the chunks a run buffers, oldest first: the
    value of [highestSeqSeen] after each event that made [chunks] grow. *)
Fixpoint acceptedSeqs (c : Conn) (evs : list WsEvent) : list JsNum :=
  match evs with
  | [] => []
  | ev :: rest =>
      let c1 := dispatch c ev in
      (if (length (chunks (sess c)) <? length (chunks (sess c1)))%nat
       then [highestSeqSeen (sess c1)] else [])
      ++ acceptedSeqs c1 rest
  end.

(** A session over several sockets: every attempt starts a fresh socket
    on the locals its predecessor left behind. *)
Fixpoint sessionAfter (s : Session) (attempts : list (list WsEvent)) : Session :=
  match attempts with
  | [] => s
  | evs :: rest => sessionAfter (sess (run (freshConn s) evs)) rest
  end.

Fixpoint acceptedInSession (s : Session) (attempts : list (list WsEvent))
  : list JsNum :=
  match attempts with
  | [] => []
  | evs :: rest =>
      acceptedSeqs (freshConn s) evs
      ++ acceptedInSession (sess (run (freshConn s) evs)) rest
  end.

(** The waits and the calls of [connectOnce] in a log of the loop. *)
Definition sleeps (steps : list LoopStep) : list (option Z) :=
  flat_map (fun st => match st with Slept d => [d] | _ => [] end) steps.

Definition attemptsMade (steps : list LoopStep) : nat :=
  length (List.filter
            (fun st => match st with Connected _ _ _ => true | _ => false end)
            steps).

(** The wait before attempt [k]: none before the first, else the [k]-th
    entry of the ladder. *)
Definition delayBefore (k : nat) : list LoopStep :=
  match k with
  | O => []
  | S j => [Slept (TTS_WS_RETRY_DELAYS_MS !! j)]
  end.

(** The attempts of a [collectTtsViaWebSocket] call, read off [connectOnce]
    alone: [localsBefore k] are the shared locals when attempt [k] starts
    (those its predecessor left behind) and [attemptOutcome k] is how the
    promise of attempt [k] settles ([None]: it does not, or the environment
    has no script for it). *)
Fixpoint localsBefore (scripts : list Script) (k : nat) : Session :=
  match k with
  | O => initialSession
  | S j =>
      match scripts !! j with
      | Some sc => fst (connectOnce (localsBefore scripts j) sc)
      | None => localsBefore scripts j
      end
  end.

Definition attemptOutcome (scripts : list Script) (k : nat) : option Settled :=
  match scripts !! k with
  | Some sc => snd (connectOnce (localsBefore scripts k) sc)
  | None => None
  end.

(** What attempt [k] adds to the log: its wait, then the call of
    [connectOnce], with the [last_seq] it resumes from and its outcome. *)
Definition attemptSteps (scripts : list Script) (k : nat) : list LoopStep :=
  delayBefore k
  ++ [Connected k (highestSeqSeen (localsBefore scripts k))
                (attemptOutcome scripts k)].

(** An error after which the loop goes on to the next attempt. *)
Definition retried (r : option Settled) : Prop :=
  exists e, r = Some (Rejected e) /\ shouldFallbackToSse e = true.

(** An attempt whose socket is open, with its handlers, not yet settled. *)
Definition live (c : Conn) : bool :=
  is_open (readyState c) && handlers c
  && match settled c with None => true | Some _ => false end.

Definition is_close (ev : WsEvent) : bool :=
  match ev with EvClose _ => true | _ => false end.

End Handlers.

(** [a < b] on sequence numbers, as a relation. *)
Definition seq_lt (a b : JsNum) : Prop := js_gt b a = true.

(** What one handler run can do to the shared locals. *)
Definition Accepts (s s1 : Session) : Prop :=
  exists bytes,
    chunks s1 = chunks s ++ [bytes] /\
    seq_lt (highestSeqSeen s) (highestSeqSeen s1).

(** The two errors the completion check can end with. *)
Definition gapError : JsValue := buildError (JString "tts_ws_sequence_gap") true.
Definition stoppedError : JsValue := buildError (JString "stream_stopped") false.

(** A socket on which [close()] was called and whose close event is still
    to come, with [done] and a possible sequence-gap error on record. *)
Record Closing (d : bool) (c : Conn) : Prop := {
  closing_state : readyState c = CLOSING;
  closing_handlers : handlers c = true;
  closing_pending : settled c = None;
  closing_done : done c = d;
  closing_error : d = false -> finalError c = Some gapError;
}.

End Tts.

(* ===================================================================== *)
(** ** STT WebSocket session (startSttWebSocketStream) *)
(* ===================================================================== *)

Module Stt.

(** State of a JavaScript promise. *)
Inductive Promise (A : Type) : Type :=
| Pending
| Fulfilled (a : A)
| Failed (e : JsValue).
Arguments Pending {A}.
Arguments Fulfilled {A} a.
Arguments Failed {A} e.

(** Calling a promise's [resolve] / [reject]: only the first call counts. *)
Definition resolve_with {A} (p : Promise A) (a : A) : Promise A :=
  match p with Pending => Fulfilled a | _ => p end.

Definition reject_with {A} (p : Promise A) (e : JsValue) : Promise A :=
  match p with Pending => Failed e | _ => p end.

(** [interface SttWsResult] *)
Record SttWsResult : Type := mkResult {
  text : string;
  session_id : string;
}.

(** Callbacks of [SttWsEvents] the handlers invoke. *)
Inductive Notice : Type :=
| OnRequestSent
| OnSessionId (sessionId : string)
| OnPartial (seq : JsNum) (partialText : string).

(** The closure of [startSttWebSocketStream] as far as the socket handlers
    and [cancel] touch it.  The send queue of [pushChunk] and [stop] only
    writes to the socket and is left out. *)
Record State : Type := mkState {
  finalText : string;
  finalSessionId : string;
  stopped : bool;
  settled : bool;
  startPromise : Promise unit;
  donePromise : Promise SttWsResult;
  readyState : Tts.ReadyState;
  sent : list JsValue;
  notices : list Notice;
}.

Inductive Event : Type :=
| EvOpen
| EvMessage (data : string)
| EvError
| EvClose
| Cancel.                                 (* controller.cancel() *)

Section Handlers.
Variable JSON_parse : string -> Exn JsValue.
(** The [config] argument; [sessionId] is [None] for [null]. *)
Variable projectId : string.
Variable sessionId : option string.
Variables (language mimeType : string).

(** [config.sessionId || ""] *)
Definition initialState : State :=
  {| finalText := "";
     finalSessionId := default "" sessionId;
     stopped := false; settled := false;
     startPromise := Pending; donePromise := Pending;
     readyState := Tts.CONNECTING; sent := []; notices := [] |}.

Definition socket_close (s : State) : State :=
  match readyState s with
  | Tts.CLOSED => s
  | _ => mkState (finalText s) (finalSessionId s) (stopped s) (settled s)
                 (startPromise s) (donePromise s) Tts.CLOSING (sent s)
                 (notices s)
  end.

Definition notify (s : State) (n : Notice) : State :=
  mkState (finalText s) (finalSessionId s) (stopped s) (settled s)
          (startPromise s) (donePromise s) (readyState s) (sent s)
          (notices s ++ [n]).

(** [rejectAll(error)] *)
Definition rejectAll (s : State) (error : JsValue) : State :=
  if settled s then s
  else mkState (finalText s) (finalSessionId s) (stopped s) true
               (reject_with (startPromise s) error)
               (reject_with (donePromise s) error)
               (readyState s) (sent s) (notices s).

(** [resolveDoneIfPossible()] *)
Definition resolveDoneIfPossible (s : State) : State :=
  if settled s then s
  else if String.eqb (trim (finalText s)) "" || String.eqb (finalSessionId s) ""
  then s
  else mkState (finalText s) (finalSessionId s) (stopped s) true
               (resolve_with (startPromise s) tt)
               (resolve_with (donePromise s)
                  {| text := trim (finalText s);
                     session_id := finalSessionId s |})
               (readyState s) (sent s) (notices s).

(** [socket.onopen] *)
Definition onopen (s : State) : State :=
  let s1 := notify s OnRequestSent in
  mkState (finalText s1) (finalSessionId s1) (stopped s1) (settled s1)
          (startPromise s1) (donePromise s1) (readyState s1)
          (sent s1 ++
             [JObject (<[ "type" := JString "start" ]>
               (<[ "project_id" := JString projectId ]>
                (<[ "session_id" :=
                      match sessionId with
                      | Some sid => if String.eqb sid "" then JUndefined
                                    else JString sid
                      | None => JUndefined
                      end ]>
                 (<[ "language" :=
                       JString (if String.eqb language "" then "tr" else language) ]>
                  (<[ "mime_type" :=
                        JString (if String.eqb mimeType "" then "audio/webm"
                                 else mimeType) ]> ∅)))))])
          (notices s1).

(** [socket.onmessage] *)
Definition onmessage (s : State) (data : string) : Exn State :=
  bind (parseSttWsEventPayload JSON_parse (JString data)) (fun payload =>
  if negb (truthy payload) then Ret s
  else if is_str (prop payload "type") "start_ack"
          && String.eqb (typeof (prop payload "session_id")) "string"
  then
    let sid := string_of (prop payload "session_id") in
    let s1 := mkState (finalText s) sid (stopped s) (settled s)
                      (startPromise s) (donePromise s) (readyState s)
                      (sent s) (notices s) in
    let s2 := notify s1 (OnSessionId sid) in
    Ret (mkState (finalText s2) (finalSessionId s2) (stopped s2) (settled s2)
                 (resolve_with (startPromise s2) tt) (donePromise s2)
                 (readyState s2) (sent s2) (notices s2))
  else if is_str (prop payload "type") "partial"
          && String.eqb (typeof (prop payload "text")) "string"
  then
    Ret (notify s (OnPartial (Tts.number_or (prop payload "seq") (Fin 0))
                             (string_of (prop payload "text"))))
  else if is_str (prop payload "type") "final"
          && String.eqb (typeof (prop payload "text")) "string"
  then
    let s1 := mkState (string_of (prop payload "text")) (finalSessionId s)
                      (stopped s) (settled s) (startPromise s)
                      (donePromise s) (readyState s) (sent s) (notices s) in
    if String.eqb (typeof (prop payload "session_id")) "string" then
      let sid := string_of (prop payload "session_id") in
      Ret (notify (mkState (finalText s1) sid (stopped s1) (settled s1)
                           (startPromise s1) (donePromise s1) (readyState s1)
                           (sent s1) (notices s1))
                  (OnSessionId sid))
    else Ret s1
  else if is_str (prop payload "type") "done" then
    Ret (socket_close (resolveDoneIfPossible s))
  else if is_str (prop payload "type") "error" then
    Ret (socket_close
           (rejectAll s
              (buildError (js_or (prop payload "error") (JString "stt_ws_error"))
                          (negb (is_false (prop payload "retryable"))))))
  else Ret s).

(** [socket.onerror] *)
Definition onerror (s : State) : State :=
  rejectAll s (buildError (JString "stt_ws_transport_error") true).

(** [socket.onclose] *)
Definition onclose (s : State) : State :=
  if settled s then s
  else if negb (String.eqb (finalText s) "")
          && negb (String.eqb (finalSessionId s) "")
  then resolveDoneIfPossible s
  else rejectAll s (buildError (JString "stt_ws_closed_before_done") true).

(** [cancel()] *)
Definition cancel (s : State) : State :=
  socket_close
    (mkState (finalText s) (finalSessionId s) true (settled s)
             (startPromise s) (donePromise s) (readyState s) (sent s)
             (notices s)).

(** Delivery of one event; as for the TTS socket, frames reach
    [onmessage] only while the socket is open. *)
Definition dispatch (s : State) (ev : Event) : State :=
  match ev with
  | EvOpen =>
      match readyState s with
      | Tts.CONNECTING =>
          onopen (mkState (finalText s) (finalSessionId s) (stopped s)
                          (settled s) (startPromise s) (donePromise s)
                          Tts.OPEN (sent s) (notices s))
      | _ => s
      end
  | EvMessage data =>
      if Tts.is_open (readyState s) then
        match onmessage s data with
        | Ret s1 => s1
        | Throw _ => s
        end
      else s
  | EvError =>
      match readyState s with
      | Tts.CLOSED => s
      | _ => onerror s
      end
  | EvClose =>
      match readyState s with
      | Tts.CLOSED => s
      | _ =>
          onclose (mkState (finalText s) (finalSessionId s) (stopped s)
                           (settled s) (startPromise s) (donePromise s)
                           Tts.CLOSED (sent s) (notices s))
      end
  | Cancel => cancel s
  end.

Definition run (s : State) (evs : list Event) : State :=
  fold_left dispatch evs s.

End Handlers.

(** [donePromise] is pending until the session is settled, and a result
    it holds has both parts. *)
Definition Sound (s : State) : Prop :=
  (settled s = false -> donePromise s = Pending) /\
  (forall r, donePromise s = Fulfilled r ->
     String.eqb (text r) "" = false /\ String.eqb (session_id r) "" = false).

End Stt.

(* ===================================================================== *)
(** ** Playback generation counter (client.ts) *)
(* ===================================================================== *)

Module Playback.

(** What the stop routine changes of an [HTMLAudioElement]. *)
Record AudioElement : Type := mkAudio {
  src : option string;
  paused : bool;
  stopEvents : nat;            (* BULUT_AUDIO_STOP_EVENT dispatched so far *)
}.

(** The module-level state: [audioPlaybackGeneration], the set
    [activeAudioElements] (elements by identity) and the elements. *)
Record State : Type := mkState {
  audioPlaybackGeneration : Z;
  activeAudioElements : gset nat;
  heap : gmap nat AudioElement;
}.

Definition initialState : State :=
  {| audioPlaybackGeneration := 0; activeAudioElements := ∅; heap := ∅ |}.

Definition registerActiveAudioElement (st : State) (el : nat) : State :=
  mkState (audioPlaybackGeneration st) ({[ el ]} ∪ activeAudioElements st) (heap st).

Definition unregisterActiveAudioElement (st : State) (el : nat) : State :=
  mkState (audioPlaybackGeneration st) (activeAudioElements st ∖ {[ el ]}) (heap st).

(** [wasPlaybackStoppedAfter(generationAtStart)] *)
Definition wasPlaybackStoppedAfter (st : State) (generationAtStart : Z) : bool :=
  negb (audioPlaybackGeneration st =? generationAtStart).

(** [getAudioPlaybackGeneration()] *)
Definition getAudioPlaybackGeneration (st : State) : Z :=
  audioPlaybackGeneration st.

(** The body of the [for] loop: dispatch the stop event, pause, drop [src],
    reload. *)
Definition halt (a : AudioElement) : AudioElement :=
  {| src := None; paused := true; stopEvents := S (stopEvents a) |}.

(** [stopActiveAudioPlayback()] *)
Definition stopActiveAudioPlayback (st : State) : State :=
  let active := elements (activeAudioElements st) in
  {| audioPlaybackGeneration := audioPlaybackGeneration st + 1;
     activeAudioElements := activeAudioElements st;
     heap := foldl (fun h el => alter halt el h) (heap st) active |}.

End Playback.

(* ===================================================================== *)
(** ** Resume checkpoint (agent/tools.ts) and the resume message *)
(* ===================================================================== *)

Module Resume.

Definition RESUME_STORAGE_KEY : string := "bulut_agent_resume".
Definition RESUME_TTL_MS : Z := 60000.

Section Storage.
Variable JSON_parse : string -> Exn JsValue.
(** [ToNumber] on strings and on objects/arrays (the latter may throw). *)
Variable StringToNumber : string -> JsNum.
Variable ObjectToNumber : JsValue -> Exn JsNum.

(** [ToNumber(v)], the conversion [-] applies to its operands. *)
Definition ToNumber (v : JsValue) : Exn JsNum :=
  match v with
  | JUndefined => Ret NaN
  | JNull => Ret (Fin 0)
  | JBool b => Ret (Fin (if b then 1 else 0))
  | JNumber n => Ret n
  | JString s => Ret (StringToNumber s)
  | JArray _ | JObject _ => ObjectToNumber v
  end.

(** [localStorage]: [None] when [typeof localStorage === "undefined"]. *)
Definition Env : Type := option (gmap string string).

(** [clearPendingAgentResume()] *)
Definition clearPendingAgentResume (ls : Env) : Env :=
  match ls with
  | None => None
  | Some m => Some (delete RESUME_STORAGE_KEY m)
  end.

(** [getPendingAgentResume()] at time [now = Date.now()]: the storage
    afterwards and the value returned ([JNull] for [null]). *)
Definition getPendingAgentResume (ls : Env) (now : Z) : Env * JsValue :=
  match ls with
  | None => (ls, JNull)
  | Some m =>
      match m !! RESUME_STORAGE_KEY with
      | None => (ls, JNull)
      | Some raw =>
          if String.eqb raw "" then (ls, JNull)
          else
            match
              bind (JSON_parse raw) (fun parsed =>
              bind (member parsed "savedAt") (fun savedAt =>
              bind (ToNumber savedAt) (fun t =>
              Ret (parsed, js_gt (js_sub (Fin now) t) (Fin RESUME_TTL_MS)))))
            with
            | Ret (parsed, expired) =>
                if expired then (clearPendingAgentResume ls, JNull)
                else (ls, parsed)
            | Throw _ => (clearPendingAgentResume ls, JNull)
            end
      end
  end.
End Storage.

(** [AgentToolCallInfo] and a tool result. *)
Record ToolCall : Type := mkCall {
  call_id : string;
  tool : string;
  args : JsValue;
}.

Record ToolResult : Type := mkToolResult {
  result_call_id : string;
  result : string;
}.

(** [interface PendingAgentResume] *)
Record PendingAgentResume : Type := mkResume {
  sessionId : string;
  projectId : string;
  model : string;
  voice : string;
  accessibilityMode : bool;
  pendingToolCalls : list ToolCall;
  completedResults : list ToolResult;
  savedAt : Z;
}.

Definition newline : string := String (Ascii.ascii_of_nat 10) EmptyString.

(** The two synthesized results of [agentResumeStream].  [href] is
    [window.location.href], or the empty string without a window. *)
Definition navigationResult (href pageContext : string) (tc : ToolCall) : ToolResult :=
  {| result_call_id := call_id tc;
     result := "Navigasyon tamamlandı. Şu anki sayfa: " ++ href ++ newline
               ++ "Sayfa bağlamı: " ++ pageContext |}.

Definition skippedResult (tc : ToolCall) : ToolResult :=
  {| result_call_id := call_id tc;
     result := "Sayfa yeniden yüklendi, bu araç çalıştırılamadı." |}.

Definition synthesize (href pageContext : string) (tc : ToolCall) : ToolResult :=
  if String.eqb (tool tc) "navigate"
  then navigationResult href pageContext tc
  else skippedResult tc.

(** [allResults.some((r) => r.call_id === tc.call_id)] *)
Definition answered (allResults : list ToolResult) (tc : ToolCall) : bool :=
  existsb (fun r => String.eqb (result_call_id r) (call_id tc)) allResults.

(** The loop over [resumeState.pendingToolCalls] that fills [allResults]. *)
Definition mergeStep (href pageContext : string)
    (allResults : list ToolResult) (tc : ToolCall) : list ToolResult :=
  if answered allResults tc then allResults
  else allResults ++ [synthesize href pageContext tc].

(** [allResults] as [agentResumeStream] sends it in the [resume] message. *)
Definition allResults (href pageContext : string) (st : PendingAgentResume)
  : list ToolResult :=
  fold_left (mergeStep href pageContext) (pendingToolCalls st) (completedResults st).

(** The first pending call that carries the call id [id]. *)
Definition firstCall (id : string) (calls : list ToolCall) : option ToolCall :=
  List.find (fun c => String.eqb (call_id c) id) calls.

(** Number of results in [l] that carry the call id [id]. *)
Definition resultsFor (id : string) (l : list ToolResult) : nat :=
  count_occ string_dec (map result_call_id l) id.

End Resume.

(* ===================================================================== *)
(** ** Agent streams (agentVoiceChatStream, agentTextChatStream,
       agentResumeStream): the [done] promise and [onError] *)
(* ===================================================================== *)

Module Agent.

Inductive Variant : Type := Voice | TextChat | ResumeChat.

(** Where the async executor of [donePromise] is suspended. *)
Inductive Phase : Type :=
| AwaitStt          (* await transcribeAudio(...)            (voice only) *)
| AwaitAgent        (* await new Promise<string>(...)                     *)
| AwaitTtsWs        (* await collectTtsViaWebSocket(...)                  *)
| AwaitSse          (* await collectTtsViaSse(...)                        *)
| AwaitPlayback     (* await playBufferedAudio(...)                       *)
| Finished.         (* the executor ran to its end                        *)

(** How an awaited operation settles. *)
Inductive Settle (A : Type) : Type :=
| Fulfilled (a : A)
| Failed (e : Caught).
Arguments Fulfilled {A} a.
Arguments Failed {A} e.

(** The two places that call [events.onError]. *)
Inductive CallSite : Type :=
| SocketHandler     (* the agent socket's onmessage / onerror *)
| RejectionPath.    (* the catch block that rejects [done]    *)

(** Calls the stream makes that its caller can observe, in order. *)
Inductive Effect : Type :=
| OnTranscription (stt : JsValue)
| OnSessionId (sid : JsValue)
| OnIteration (iteration maxIterations : JsValue)
| OnAssistantDelta (delta : string)
| OnIntermediateReply (replyText : string)
| OnToolCalls (calls : JsValue)
| OnAssistantDone (reply : JsValue)
| OnAudioStateChange (state : string)
| OnError (site : CallSite) (msg : JsValue)
| HideAgentCursor
| SocketSend (msgType : string)
| DoneResolved                       (* resolve()   of donePromise *)
| DoneRejected (err : Caught).       (* reject(err) of donePromise *)

Inductive ActiveSocket : Type := NoSocket | AgentSocket | TtsSocket.

Inductive WsEv : Type :=
| WsOpen
| WsMessage (data : string)
| WsError
| WsClose.

(** What happens to a running stream. *)
Inductive Input : Type :=
| Stop                                       (* controller.stop()       *)
| SttSettled (r : Settle JsValue)            (* transcribeAudio settles *)
| Socket (ev : WsEv)                         (* agent socket event      *)
| TtsWsSettled (r : Settle Tts.Session)      (* WebSocket TTS settles   *)
| SseSettled (r : Settle Tts.Session)        (* SSE TTS settles         *)
| PlaybackSettled (r : Settle unit).         (* playBufferedAudio ends  *)

(** The closure of one stream.  The tool loop inside [tool_calls] runs
    beside the executor and writes none of these variables after its first
    statement; its calls to the tool executor are not part of the model. *)
Record Stream : Type := mkStream {
  phase : Phase;
  isStopped : bool;
  errorEmitted : bool;
  activeSocket : ActiveSocket;
  socketLive : bool;                 (* the agent socket was created *)
  socketState : Tts.ReadyState;
  finalReply : JsValue;
  resolved : bool;
  accumulatedDelta : string;
  playback : Playback.State;
  log : list Effect;
}.

Definition emit (s : Stream) (e : Effect) : Stream :=
  mkStream (phase s) (isStopped s) (errorEmitted s) (activeSocket s)
           (socketLive s) (socketState s) (finalReply s) (resolved s)
           (accumulatedDelta s) (playback s) (log s ++ [e]).

Definition goto (s : Stream) (p : Phase) : Stream :=
  mkStream p (isStopped s) (errorEmitted s) (activeSocket s)
           (socketLive s) (socketState s) (finalReply s) (resolved s)
           (accumulatedDelta s) (playback s) (log s).

Definition set_active (s : Stream) (a : ActiveSocket) : Stream :=
  mkStream (phase s) (isStopped s) (errorEmitted s) a
           (socketLive s) (socketState s) (finalReply s) (resolved s)
           (accumulatedDelta s) (playback s) (log s).

Definition set_socket (s : Stream) (live : bool) (r : Tts.ReadyState) : Stream :=
  mkStream (phase s) (isStopped s) (errorEmitted s) (activeSocket s)
           live r (finalReply s) (resolved s)
           (accumulatedDelta s) (playback s) (log s).

Definition set_resolved (s : Stream) : Stream :=
  mkStream (phase s) (isStopped s) (errorEmitted s) (activeSocket s)
           (socketLive s) (socketState s) (finalReply s) true
           (accumulatedDelta s) (playback s) (log s).

Definition set_errorEmitted (s : Stream) : Stream :=
  mkStream (phase s) (isStopped s) true (activeSocket s)
           (socketLive s) (socketState s) (finalReply s) (resolved s)
           (accumulatedDelta s) (playback s) (log s).

Definition set_finalReply (s : Stream) (v : JsValue) : Stream :=
  mkStream (phase s) (isStopped s) (errorEmitted s) (activeSocket s)
           (socketLive s) (socketState s) v (resolved s)
           (accumulatedDelta s) (playback s) (log s).

Definition set_delta (s : Stream) (d : string) : Stream :=
  mkStream (phase s) (isStopped s) (errorEmitted s) (activeSocket s)
           (socketLive s) (socketState s) (finalReply s) (resolved s)
           d (playback s) (log s).


(** [activeSocket.close()] when that socket is the agent socket and its
    [readyState <= WebSocket.OPEN]. *)
Definition closeActive (s : Stream) : Stream :=
  match activeSocket s, socketState s with
  | AgentSocket, (Tts.CONNECTING | Tts.OPEN) =>
      set_socket s (socketLive s) Tts.CLOSING
  | _, _ => s
  end.

Section Executor.
Variable JSON_parse : string -> Exn JsValue.
Variable variant : Variant.
(** [toWebSocketUrl(...)] and [new WebSocket(wsUrl)] may throw. *)
Variable socketCtor : Settle unit.

(** The [finally] block. *)
Definition finally (s : Stream) : Stream :=
  goto (set_active (closeActive s) NoSocket) Finished.

(** The [catch (err)] block followed by [finally]. *)
Definition catchBlock (s : Stream) (err : Caught) : Stream :=
  let s1 := if negb (errorEmitted s)
            then emit s (OnError RejectionPath (errorText err)) else s in
  finally (emit s1 (DoneRejected err)).

(** [return resolve()] / [resolve()] followed by [finally]. *)
Definition resolveDone (s : Stream) : Stream :=
  finally (emit s DoneResolved).

(** [if (!isStopped) hideAgentCursor(); resolve();] *)
Definition wrapUp (s : Stream) : Stream :=
  resolveDone (if negb (isStopped s) then emit s HideAgentCursor else s).

(** The executor from the line after the agent promise resolved. *)
Definition afterAgent (s : Stream) (assistantText : JsValue) : Stream :=
  let s1 := set_active s NoSocket in
  if isStopped s1 || negb (truthy assistantText) then wrapUp s1
  else goto (emit s1 (OnAudioStateChange "rendering")) AwaitTtsWs.

(** [finish(reply)] and [fail(error)] of the agent promise; the awaiting
    executor continues as soon as the promise settles. *)
Definition finish (s : Stream) (reply : JsValue) : Stream :=
  if resolved s then s
  else
    let s1 := set_resolved s in
    match phase s1 with
    | AwaitAgent => afterAgent s1 reply
    | _ => s1
    end.

Definition fail (s : Stream) (error : Caught) : Stream :=
  if resolved s then s
  else
    let s1 := set_resolved s in
    match phase s1 with
    | AwaitAgent => catchBlock s1 error
    | _ => s1
    end.

(** The executor of the agent promise. *)
Definition enterAgent (s : Stream) : Stream :=
  let s0 := goto s AwaitAgent in
  if isStopped s0 then afterAgent s0 (JString "")
  else
    match socketCtor with
    | Failed e => catchBlock s0 e
    | Fulfilled _ => set_active (set_socket s0 true Tts.CONNECTING) AgentSocket
    end.

Definition initialStream : Stream :=
  {| phase := match variant with Voice => AwaitStt | _ => AwaitAgent end;
     isStopped := false; errorEmitted := false; activeSocket := NoSocket;
     socketLive := false; socketState := Tts.CONNECTING;
     finalReply := JString ""; resolved := false; accumulatedDelta := "";
     playback := Playback.initialState; log := [] |}.

(** The synchronous start of the executor, up to its first [await]. *)
Definition start : Stream :=
  let s := initialStream in
  if isStopped s then resolveDone s
  else
    match variant with
    | Voice => s
    | TextChat | ResumeChat => enterAgent s
    end.

Definition transportErrorText : string :=
  match variant with
  | Voice => "Agent WebSocket connection error"
  | TextChat | ResumeChat => "Agent WebSocket error"
  end.

(** [socket.onmessage] of the agent socket. *)
Definition onmessage (s : Stream) (data : string) : Exn Stream :=
  match JSON_parse data with
  | Throw _ => Ret s
  | Ret d =>
  bind (member d "type") (fun msgType =>
  if is_str msgType "session"
     && String.eqb (typeof (prop d "session_id")) "string"
  then Ret (emit s (OnSessionId (prop d "session_id")))
  else if is_str msgType "iteration"
  then Ret (emit s (OnIteration (prop d "iteration") (prop d "max_iterations")))
  else if is_str msgType "reply_delta"
          && String.eqb (typeof (prop d "delta")) "string"
  then
    let delta := string_of (prop d "delta") in
    Ret (emit (set_delta s (accumulatedDelta s ++ delta)) (OnAssistantDelta delta))
  else if is_str msgType "tool_calls"
          && match prop d "calls" with JArray _ => true | _ => false end
  then
    let s1 := if negb (String.eqb (trim (accumulatedDelta s)) "")
              then emit s (OnIntermediateReply (trim (accumulatedDelta s)))
              else s in
    Ret (emit (set_delta s1 "") (OnToolCalls (prop d "calls")))
  else if is_str msgType "agent_done"
  then
    let reply := js_or (prop d "final_reply") (JString "") in
    let s1 := emit (set_finalReply s reply) (OnAssistantDone reply) in
    let s2 := if String.eqb (typeof (prop d "session_id")) "string"
              then emit s1 (OnSessionId (prop d "session_id")) else s1 in
    Ret (finish s2 reply)
  else if is_str msgType "error"
  then
    let errMsg := js_or (prop d "error") (JString "Agent error") in
    let s1 := emit (set_errorEmitted s) (OnError SocketHandler errMsg) in
    Ret (fail s1 (newError errMsg))
  else Ret s)
  end.

(** [socket.onerror] *)
Definition onerror (s : Stream) : Stream :=
  let s1 := emit (set_errorEmitted s)
                 (OnError SocketHandler (JString transportErrorText)) in
  fail s1 (newError (JString transportErrorText)).

(** [socket.onclose] *)
Definition onclose (s : Stream) : Stream := finish s (finalReply s).

(** Delivery of an agent socket event. *)
Definition deliver (s : Stream) (ev : WsEv) : Stream :=
  if negb (socketLive s) then s
  else
    match ev with
    | WsOpen =>
        match socketState s with
        | Tts.CONNECTING =>
            emit (set_socket s true Tts.OPEN)
                 (SocketSend match variant with
                             | ResumeChat => "resume" | _ => "start" end)
        | _ => s
        end
    | WsMessage data =>
        if Tts.is_open (socketState s) then
          match onmessage s data with
          | Ret s1 => s1
          | Throw _ => s
          end
        else s
    | WsError =>
        match socketState s with
        | Tts.CLOSED => s
        | _ => onerror s
        end
    | WsClose =>
        match socketState s with
        | Tts.CLOSED => s
        | _ => onclose (set_socket s true Tts.CLOSED)
        end
    end.

(** The lines after the audio was collected. *)
Definition afterCollect (s : Stream) (tts : Tts.Session) : Stream :=
  if negb (isStopped s) && (0 <? length (Tts.chunks tts))%nat
  then goto s AwaitPlayback
  else wrapUp (emit s (OnAudioStateChange "done")).

(** [controller.stop()] *)
Definition stop (s : Stream) : Stream :=
  let s1 := mkStream (phase s) true (errorEmitted s) (activeSocket s)
              (socketLive s) (socketState s) (finalReply s) (resolved s)
              (accumulatedDelta s)
              (Playback.stopActiveAudioPlayback (playback s)) (log s) in
  closeActive s1.

Definition step (s : Stream) (i : Input) : Stream :=
  match i, phase s with
  | Stop, _ => stop s
  | Socket ev, _ => deliver s ev
  | SttSettled (Failed e), AwaitStt => catchBlock s e
  | SttSettled (Fulfilled stt), AwaitStt =>
      match member stt "session_id" with
      | Throw e => catchBlock s (runtimeError e)
      | Ret _ =>
          let s1 := emit s (OnTranscription stt) in
          if isStopped s1 then resolveDone s1 else enterAgent s1
      end
  | TtsWsSettled (Fulfilled tts), AwaitTtsWs =>
      afterCollect (set_active s NoSocket) tts
  | TtsWsSettled (Failed _), AwaitTtsWs =>
      if isStopped s then resolveDone s else goto s AwaitSse
  | SseSettled (Fulfilled tts), AwaitSse => afterCollect s tts
  | SseSettled (Failed e), AwaitSse => catchBlock s e
  | PlaybackSettled (Fulfilled _), AwaitPlayback => wrapUp s
  | PlaybackSettled (Failed e), AwaitPlayback => catchBlock s e
  | _, _ => s
  end.

Definition run (inputs : list Input) : Stream :=
  fold_left step inputs start.

End Executor.

(** Number of calls to [resolve] / [reject] of [donePromise]. *)
Definition is_settle (e : Effect) : bool :=
  match e with DoneResolved | DoneRejected _ => true | _ => false end.

Definition settlements (l : list Effect) : nat :=
  length (filter (fun e => is_settle e = true) l).

Definition is_handler_error (e : Effect) : bool :=
  match e with OnError SocketHandler _ => true | _ => false end.

Definition is_rejection_error (e : Effect) : bool :=
  match e with OnError RejectionPath _ => true | _ => false end.

(** No [onError] call of the rejection path comes after an [onError] call
    of a socket handler; [seen] says whether a handler call came before. *)
Fixpoint singleDelivery (seen : bool) (l : list Effect) : bool :=
  match l with
  | [] => true
  | e :: r =>
      if is_rejection_error e then negb seen && singleDelivery seen r
      else singleDelivery (seen || is_handler_error e) r
  end.

Definition finished (p : Phase) : bool :=
  match p with Finished => true | _ => false end.

(** The invariant of a stream: [done] was settled once if the executor has
    finished and not at all before; no rejection-path [onError] follows a
    handler [onError]; and while [errorEmitted] is unset no handler has
    called [onError]. *)
Record Inv (s : Stream) : Prop := {
  inv_settled :
    settlements (log s) = if finished (phase s) then 1%nat else 0%nat;
  inv_single : singleDelivery false (log s) = true;
  inv_flag : errorEmitted s = false -> existsb is_handler_error (log s) = false;
}.

(** An effect that neither settles [done] nor reports an error. *)
Definition plain (e : Effect) : bool :=
  negb (is_settle e) && negb (is_rejection_error e) && negb (is_handler_error e).

(** How far the executor has come. *)
Definition rank (p : Phase) : nat :=
  match p with
  | AwaitStt => 0
  | AwaitAgent => 1
  | AwaitTtsWs => 2
  | AwaitSse => 3
  | AwaitPlayback => 4
  | Finished => 5
  end.

(** The inputs that settle the operation the executor awaits in phase [p].
    The agent promise is settled by the socket's close event at the
    latest. *)
Definition settlesAwaited (p : Phase) (i : Input) : bool :=
  match p, i with
  | AwaitStt, SttSettled _ => true
  | AwaitAgent, Socket WsClose => true
  | AwaitTtsWs, TtsWsSettled _ => true
  | AwaitSse, SseSettled _ => true
  | AwaitPlayback, PlaybackSettled _ => true
  | _, _ => false
  end.

(** While the executor awaits the transcription no agent socket exists;
    while it awaits the agent promise, the socket exists, has not reported
    its close event, and the promise is not settled. *)
Record Waiting (s : Stream) : Prop := {
  waiting_stt :
    phase s = AwaitStt -> resolved s = false /\ socketLive s = false;
  waiting_agent :
    phase s = AwaitAgent ->
    socketLive s = true /\ socketState s <> Tts.CLOSED /\ resolved s = false;
}.

(** The phases in which the agent promise is not yet behind. *)
Definition early (p : Phase) : bool :=
  match p with AwaitStt | AwaitAgent => true | _ => false end.

(** A step taken: the waiting invariant holds afterwards and the executor
    did not go back. *)
Definition Forward (s s1 : Stream) : Prop :=
  Waiting s1 /\ (rank (phase s) <= rank (phase s1))%nat.

(** *** What the chat window shows of a stream's errors (ChatWindow.tsx) *)

(** [appendMessage(`Hata: ${what}`, false)] *)
Inductive ChatLine : Type :=
| ErrorLine (what : JsValue).

(** The lines the chat window appends for an effect of the stream it
    started, its request epoch being the current one.  The [onError]
    callback of all three callers appends the message.  When [done]
    rejects, the [catch] of [runAgentForUserText] appends [error.message] of an
    [Error]; the [catch] of [handleAudioBlob] appends nothing ("already
    shown via onError callback") and the resume effect ignores the
    rejection. *)
Definition shown (variant : Variant) (e : Effect) : list ChatLine :=
  match e with
  | OnError _ msg => [ErrorLine msg]
  | DoneRejected err =>
      match variant with
      | TextChat =>
          if instanceofError err
          then [ErrorLine (prop (thrown err) "message")] else []
      | Voice | ResumeChat => []
      end
  | _ => []
  end.

Definition errorLines (variant : Variant) (l : list Effect) : list ChatLine :=
  flat_map (shown variant) l.

End Agent.

(* ===================================================================== *)
(** ** Sample wire data for concrete runs *)
(* ===================================================================== *)

Module Sample.

(** JSON text is spelled with these builders. *)
Definition quote : string := String (Ascii.ascii_of_nat 34) EmptyString.
Definition str (s : string) : string := quote ++ s ++ quote.
Definition field (k v : string) : string := str k ++ ":" ++ v.
Definition obj (fields : list string) : string :=
  "{" ++ String.concat "," fields ++ "}".

Definition object (fields : list (string * JsValue)) : JsValue :=
  JObject (list_to_map fields).

(** TTS frames. *)
Definition audioFrame (seq audio : string) : string :=
  obj [field "type" (str "audio"); field "seq" seq; field "audio" (str audio)].
Definition audioPayload (seq : Z) (audio : string) : JsValue :=
  object [("type", JString "audio"); ("seq", JNumber (Fin seq));
          ("audio", JString audio)].
Definition doneFrame (last_seq : string) : string :=
  obj [field "type" (str "done"); field "last_seq" last_seq].
Definition donePayload (last_seq : Z) : JsValue :=
  object [("type", JString "done"); ("last_seq", JNumber (Fin last_seq))].
Definition bareDoneFrame : string := obj [field "type" (str "done")].
Definition bareDonePayload : JsValue := object [("type", JString "done")].

(** STT frames. *)
Definition startAckFrame : string :=
  obj [field "type" (str "start_ack"); field "session_id" (str "s1")].
Definition startAckPayload : JsValue :=
  object [("type", JString "start_ack"); ("session_id", JString "s1")].
Definition partialFrame : string :=
  obj [field "type" (str "partial"); field "seq" "1"; field "text" (str "me")].
Definition partialPayload : JsValue :=
  object [("type", JString "partial"); ("seq", JNumber (Fin 1));
          ("text", JString "me")].
Definition finalFrame (t : string) : string :=
  obj [field "type" (str "final"); field "text" (str t);
       field "session_id" (str "s1")].
Definition finalPayload (t : string) : JsValue :=
  object [("type", JString "final"); ("text", JString t);
          ("session_id", JString "s1")].

(** Agent frames. *)
Definition agentErrorFrame : string :=
  obj [field "type" (str "error"); field "error" (str "boom")].
Definition agentErrorPayload : JsValue :=
  object [("type", JString "error"); ("error", JString "boom")].
Definition agentDoneFrame : string :=
  obj [field "type" (str "agent_done"); field "final_reply" (str "tamam")].
Definition agentDonePayload : JsValue :=
  object [("type", JString "agent_done"); ("final_reply", JString "tamam")].

(** What [transcribeAudio] resolves with. *)
Definition sttResult : JsValue :=
  object [("session_id", JString "s1"); ("text", JString "merhaba")].

(** Stored checkpoints. *)
Definition emptyRecord : string := "{}".
Definition stampedRecord (savedAt : string) : string :=
  obj [field "sessionId" (str "s1"); field "savedAt" savedAt].
Definition stampedPayload (savedAt : Z) : JsValue :=
  object [("sessionId", JString "s1"); ("savedAt", JNumber (Fin savedAt))].

Definition table : list (string * JsValue) :=
  [ (audioFrame "1" "YWJj", audioPayload 1 "YWJj");
    (audioFrame "2" "ZGVm", audioPayload 2 "ZGVm");
    (audioFrame "3" "YWJj", audioPayload 3 "YWJj");
    (doneFrame "2", donePayload 2);
    (doneFrame "3", donePayload 3);
    (doneFrame "5", donePayload 5);
    (bareDoneFrame, bareDonePayload);
    (startAckFrame, startAckPayload);
    (partialFrame, partialPayload);
    (finalFrame "merhaba", finalPayload "merhaba");
    (finalFrame " ", finalPayload " ");
    (agentErrorFrame, agentErrorPayload);
    (agentDoneFrame, agentDonePayload);
    (emptyRecord, object []);
    (stampedRecord "1000", stampedPayload 1000) ].

Definition SyntaxError : JsValue :=
  JObject {[ "name" := JString "SyntaxError" ]}.

(** [JSON.parse] on the texts above; every other text is taken as
    malformed. *)
Definition JSON_parse (textIn : string) : Exn JsValue :=
  match List.find (fun e => String.eqb (fst e) textIn) table with
  | Some e => Ret (snd e)
  | None => Throw SyntaxError
  end.

(** [atob] on two base64 words. *)
Definition atob (b64 : string) : Exn string :=
  if String.eqb b64 "YWJj" then Ret "abc"
  else if String.eqb b64 "ZGVm" then Ret "def"
  else Throw (JObject {[ "name" := JString "InvalidCharacterError" ]}).

Definition strip_data_uri (s : string) : string := s.

Definition StringToNumber (s : string) : JsNum := NaN.
Definition ObjectToNumber (v : JsValue) : Exn JsNum := Ret NaN.

Definition emptyRecordStore : Resume.Env :=
  Some {[ Resume.RESUME_STORAGE_KEY := emptyRecord ]}.

Definition stampedStore : Resume.Env :=
  Some {[ Resume.RESUME_STORAGE_KEY := stampedRecord "1000" ]}.

(** A checkpoint taken before [navigate] in a batch of three calls, the
    first of which had completed. *)
Definition sampleResume : Resume.PendingAgentResume :=
  {| Resume.sessionId := "s1"; Resume.projectId := "p1"; Resume.model := "m";
     Resume.voice := "v"; Resume.accessibilityMode := false;
     Resume.pendingToolCalls :=
       [ Resume.mkCall "c1" "interact" JNull; Resume.mkCall "c2" "navigate" JNull;
         Resume.mkCall "c3" "scroll" JNull ];
     Resume.completedResults := [ Resume.mkToolResult "c1" "ok" ];
     Resume.savedAt := 1000 |}.

(** Checkpoints in which a call id occurs twice: among the completed
    results, and among the pending calls. *)
Definition repeatedResult : Resume.PendingAgentResume :=
  {| Resume.sessionId := "s1"; Resume.projectId := "p1"; Resume.model := "m";
     Resume.voice := "v"; Resume.accessibilityMode := false;
     Resume.pendingToolCalls := [ Resume.mkCall "c1" "scroll" JNull ];
     Resume.completedResults :=
       [ Resume.mkToolResult "c1" "a"; Resume.mkToolResult "c1" "b" ];
     Resume.savedAt := 0 |}.

Definition repeatedCall : Resume.PendingAgentResume :=
  {| Resume.sessionId := "s1"; Resume.projectId := "p1"; Resume.model := "m";
     Resume.voice := "v"; Resume.accessibilityMode := false;
     Resume.pendingToolCalls :=
       [ Resume.mkCall "c1" "scroll" JNull; Resume.mkCall "c1" "navigate" JNull ];
     Resume.completedResults := [];
     Resume.savedAt := 0 |}.

(** Three chunks arrived, then [done] reports five: a gap. *)
Definition gapConn : Tts.Conn :=
  Tts.run JSON_parse atob strip_data_uri "r1" "selam" "v" false
    (Tts.freshConn Tts.initialSession)
    [Tts.EvOpen; Tts.EvMessage (audioFrame "1" "YWJj");
     Tts.EvMessage (audioFrame "2" "ZGVm");
     Tts.EvMessage (audioFrame "3" "YWJj")].

(** The TTS call and a script for one attempt of it. *)
Definition collect (scripts : list Tts.Script)
  : list Tts.LoopStep * Tts.Collected :=
  Tts.collectTtsViaWebSocket JSON_parse atob strip_data_uri
    "r1" "selam" "v" false scripts.

Definition script (evs : list Tts.WsEvent) : Tts.Script :=
  {| Tts.stoppedAtStart := false; Tts.socketCtor := Ret tt; Tts.events := evs |}.

End Sample.

(* ===================================================================== *)
(** ** Binary codecs and audio containers (client.ts) *)
(* ===================================================================== *)

Module Codec.

Definition Bytes : Type := list Byte.byte.

(** [s.startsWith(p)]: the rest of [s] after the prefix [p]. *)
Fixpoint after_prefix (p s : string) : option string :=
  match p, s with
  | EmptyString, _ => Some s
  | String a p1, String b s1 => if Ascii.eqb a b then after_prefix p1 s1 else None
  | String _ _, EmptyString => None
  end.

(** The class [\w]: ASCII letters, digits and the underscore. *)
Definition is_word (c : Ascii.ascii) : bool :=
  let n := Ascii.nat_of_ascii c in
  ((48 <=? n)%nat && (n <=? 57)%nat) || ((65 <=? n)%nat && (n <=? 90)%nat)
  || ((97 <=? n)%nat && (n <=? 122)%nat) || (n =? 95)%nat.

Fixpoint skip_word (s : string) : string :=
  match s with
  | EmptyString => EmptyString
  | String c r => if is_word c then skip_word r else s
  end.

(** [base64.replace(/^data:audio\/\w+;base64,/, "")].  The semicolon is
    no word character, so the greedy [\w+] has nothing to give back. *)
Definition stripDataUri (base64 : string) : string :=
  match after_prefix "data:audio/" base64 with
  | None => base64
  | Some r1 =>
      let r2 := skip_word r1 in
      if (String.length r2 <? String.length r1)%nat then
        match after_prefix ";base64," r2 with
        | Some r3 => r3
        | None => base64
        end
      else base64
  end.

Section Base64.
(** [atob] and [btoa] of the browser. *)
Variable atob : string -> Exn string.
Variable btoa : string -> string.

(** [base64ToUint8Array(base64)] with the prefix pattern spelled out. *)
Definition base64ToUint8Array (base64 : string) : Exn Bytes :=
  bind (atob (stripDataUri base64))
       (fun binaryString => Ret (String.list_byte_of_string binaryString)).

(** [const chunkSize = 0x8000;] *)
Definition chunkSize : nat := Z.to_nat 0x8000.

(** The body of [for (let i = 0; i < bytes.length; i += chunkSize)]:
    [binary += String.fromCharCode(...bytes.subarray(i, i + chunkSize))].
    [fuel] bounds the number of iterations. *)
Fixpoint chunkLoop (fuel i : nat) (bytes : Bytes) (binary : string) : string :=
  match fuel with
  | O => binary
  | S fuel' =>
      if (i <? length bytes)%nat then
        chunkLoop fuel' (i + chunkSize) bytes
          (binary ++ String.string_of_list_byte (firstn chunkSize (skipn i bytes)))
      else binary
  end.

(** [blobToBase64(blob)] on the bytes of the blob; the loop runs at most
    once per byte. *)
Definition blobToBase64 (bytes : Bytes) : string :=
  btoa (chunkLoop (length bytes) 0 bytes "").
End Base64.

(** The base64 alphabet with the padding sign. *)
Definition is_base64_char (c : Ascii.ascii) : bool :=
  let n := Ascii.nat_of_ascii c in
  ((48 <=? n)%nat && (n <=? 57)%nat) || ((65 <=? n)%nat && (n <=? 90)%nat)
  || ((97 <=? n)%nat && (n <=? 122)%nat)
  || (n =? 43)%nat || (n =? 47)%nat || (n =? 61)%nat.

Fixpoint all_chars (f : Ascii.ascii -> bool) (s : string) : bool :=
  match s with
  | EmptyString => true
  | String c r => f c && all_chars f r
  end.

(** *** WAV header *)

(** The byte [z mod 256]. *)
Definition byte_of_Z (z : Z) : Byte.byte :=
  match Byte.of_N (Z.to_N (z mod 256)) with
  | Some b => b
  | None => Byte.x00
  end.

Definition Z_of_byte (b : Byte.byte) : Z := Z.of_N (Byte.to_N b).

(** [view.setUint32(_, v, true)] and [view.setUint16(_, v, true)]: the
    value modulo 2^32 (2^16), least significant byte first. *)
Definition le32 (v : Z) : Bytes :=
  [byte_of_Z v; byte_of_Z (v / 256); byte_of_Z (v / 65536); byte_of_Z (v / 16777216)].

Definition le16 (v : Z) : Bytes := [byte_of_Z v; byte_of_Z (v / 256)].

(** [view.setUint32(_, v, false)]: most significant byte first. *)
Definition be32 (v : Z) : Bytes := rev (le32 v).

(** Reading a little-endian field back. *)
Definition read_le (bs : Bytes) : Z :=
  fold_right (fun b acc => Z_of_byte b + 256 * acc) 0 bs.

(** [bs.slice(from, upto)] *)
Definition slice (from upto : nat) (bs : Bytes) : Bytes :=
  firstn (upto - from) (skipn from bs).

(** [createWavHeader(length, sampleRate = 16000)] *)
Definition createWavHeader (length sampleRate : Z) : Bytes :=
  let channels := 1 in
  be32 0x52494646                          (* "RIFF" *)
  ++ le32 (36 + length)
  ++ be32 0x57415645                       (* "WAVE" *)
  ++ be32 0x666d7420                       (* "fmt " *)
  ++ le32 16
  ++ le16 1
  ++ le16 channels
  ++ le32 sampleRate
  ++ le32 (sampleRate * channels * 2)
  ++ le16 (channels * 2)
  ++ le16 16
  ++ be32 0x64617461                       (* "data" *)
  ++ le32 length.

(** *** The blob [playBufferedAudio] builds *)

Definition hex_digit (n : N) : Ascii.ascii :=
  Ascii.ascii_of_N (if (n <? 10)%N then 48 + n else 55 + n)%N.

(** [b.toString(16).padStart(2, '0').toUpperCase()] *)
Definition hex2 (b : Byte.byte) : string :=
  let n := Byte.to_N b in
  String (hex_digit (n / 16)) (String (hex_digit (n mod 16)) EmptyString).

(** [Array.from(chunks[0].slice(0, 4)).map(hex).join(' ')] *)
Definition headerHex (first : Bytes) : string :=
  String.concat " " (map hex2 (firstn 4 first)).

Definition startsWith (s p : string) : bool := String.prefix p s.

(** The magic-number block: the MIME type the leading bytes reveal, else
    the declared one, which is whatever value the collector handed on. *)
Definition detectMime (chunks : list Bytes) (mimeType : JsValue) : JsValue :=
  match chunks with
  | first :: _ =>
      if (4 <=? length first)%nat then
        let header := headerHex first in
        if startsWith header "49 44 33" then JString "audio/mpeg"
        else if startsWith header "FF F3" || startsWith header "FF F2"
        then JString "audio/mpeg"
        else if startsWith header "52 49 46 46" then JString "audio/wav"
        else if startsWith header "1A 45 DF A3" then JString "audio/webm"
        else mimeType
      else mimeType
  | [] => mimeType
  end.

(** [s.includes("/")] on a string. *)
Fixpoint includes_slash (s : string) : bool :=
  match s with
  | EmptyString => false
  | String c r => Ascii.eqb c (Ascii.ascii_of_nat 47) || includes_slash r
  end.

(** [v.includes("/")] on a value that is truthy: strings and arrays have
    the method (an array includes the string if an element is it); on
    anything else the call throws a TypeError. *)
Definition includes (v : JsValue) : Exn bool :=
  match v with
  | JString s => Ret (includes_slash s)
  | JArray items => Ret (existsb (fun x => is_str x "/") items)
  | _ => Throw TypeError
  end.

(** The truthy values without an [includes] method. *)
Definition lacksIncludes (v : JsValue) : bool :=
  truthy v && match v with JString _ | JArray _ => false | _ => true end.

(** [detectedMime && detectedMime.includes("/") ? detectedMime : "audio/mpeg"] *)
Definition safeMimeType (detectedMime : JsValue) : Exn JsValue :=
  if truthy detectedMime then
    bind (includes detectedMime)
         (fun found => Ret (if found then detectedMime else JString "audio/mpeg"))
  else Ret (JString "audio/mpeg").

(** The [type] of a [Blob] made with the option [type: t]: the empty
    string if a character of [t] lies outside U+0020 to U+007E, else [t] in
    ASCII lower case. *)
Definition printable (c : Ascii.ascii) : bool :=
  let n := Ascii.nat_of_ascii c in (32 <=? n)%nat && (n <=? 126)%nat.

Definition lower (c : Ascii.ascii) : Ascii.ascii :=
  let n := Ascii.nat_of_ascii c in
  if ((65 <=? n)%nat && (n <=? 90)%nat) then Ascii.ascii_of_nat (n + 32) else c.

Fixpoint all_printable (t : string) : bool :=
  match t with
  | EmptyString => true
  | String c r => printable c && all_printable r
  end.

Fixpoint lower_case (t : string) : string :=
  match t with
  | EmptyString => EmptyString
  | String c r => String (lower c) (lower_case r)
  end.

Definition blobType (t : string) : string :=
  if all_printable t then lower_case t else EmptyString.

Section Blob.
(** [String(v)] and [Number(v)] of a value that is no string, resp. no
    number. *)
Variable ToString : JsValue -> string.
Variable ToNumber : JsValue -> JsNum.

(** The conversion of the [type] option. *)
Definition typeText (v : JsValue) : string :=
  match v with
  | JString s => s
  | _ => ToString v
  end.

(** The sample rate [createWavHeader] writes: the parameter defaults to
    16000 when undefined, and [setUint32] writes 0 for NaN. *)
Definition rateOf (sampleRate : JsValue) : Z :=
  match sampleRate with
  | JUndefined => 16000
  | JNumber (Fin z) => z
  | JNumber NaN => 0
  | v => match ToNumber v with Fin z => z | NaN => 0 end
  end.

(** The content and the type of the blob [playBufferedAudio] plays, or the
    exception it throws on the way to it. *)
Definition audioBlob (chunks : list Bytes) (mimeType sampleRate : JsValue)
  : Exn (Bytes * string) :=
  bind (safeMimeType (detectMime chunks mimeType)) (fun safe =>
  if is_str mimeType "audio/pcm" then
    let totalLength := Z.of_nat (length (concat chunks)) in
    Ret (createWavHeader totalLength (rateOf sampleRate) ++ concat chunks,
         blobType "audio/wav")
  else Ret (concat chunks, blobType (typeText safe))).

End Blob.

(** Sample platform functions for concrete runs. *)
Definition sampleBtoa (binary : string) : string :=
  if String.eqb binary "abc" then "YWJj"
  else if String.eqb binary "def" then "ZGVm"
  else "".

End Codec.

(* ===================================================================== *)
(** ** Base URL normalisation (client.ts) *)
(* ===================================================================== *)

Module Url.

Definition slash : Ascii.ascii := Ascii.ascii_of_nat 47.

Fixpoint all_slash (s : string) : bool :=
  match s with
  | EmptyString => true
  | String c r => Ascii.eqb c slash && all_slash r
  end.

(** [s.replace(/\/+$/, "")]: the leftmost match is the whole run of slashes
    that ends the string. *)
Fixpoint strip_trailing_slashes (s : string) : string :=
  match s with
  | EmptyString => EmptyString
  | String c r =>
      if all_slash s then EmptyString else String c (strip_trailing_slashes r)
  end.

(** Case folding of the [i] flag on ASCII letters. *)
Definition lower (c : Ascii.ascii) : Ascii.ascii :=
  let n := Ascii.nat_of_ascii c in
  if ((65 <=? n)%nat && (n <=? 90)%nat) then Ascii.ascii_of_nat (n + 32) else c.

(** [s] starts with the lower-case text [p], whatever the case of [s]. *)
Fixpoint prefix_ci (p s : string) : bool :=
  match p, s with
  | EmptyString, _ => true
  | String a p1, String b s1 => Ascii.eqb a (lower b) && prefix_ci p1 s1
  | String _ _, EmptyString => false
  end.

(** [/^https?:\/\//i.test(s)] *)
Definition has_scheme (s : string) : bool :=
  prefix_ci "http://" s || prefix_ci "https://" s.

(** [normalizeBaseUrl(baseUrl)] *)
Definition normalizeBaseUrl (baseUrl : string) : string :=
  let trimmed := strip_trailing_slashes (trim baseUrl) in
  if has_scheme trimmed then trimmed else ("https://" ++ trimmed)%string.

(** [s.endsWith("/")] *)
Fixpoint ends_with_slash (s : string) : bool :=
  match s with
  | EmptyString => false
  | String c EmptyString => Ascii.eqb c slash
  | String _ r => ends_with_slash r
  end.

End Url.

(* ===================================================================== *)
(** ** Server-sent events: the TTS fallback (client.ts) *)
(* ===================================================================== *)

Module Sse.
Import Codec.

Definition lf : string := String (Ascii.ascii_of_nat 10) EmptyString.
Definition crlf : string := String (Ascii.ascii_of_nat 13) lf.

Inductive LineCh : Type := CR | LF | OtherCh.

Definition lineCh (c : Ascii.ascii) : LineCh :=
  if (Ascii.nat_of_ascii c =? 13)%nat then CR
  else if (Ascii.nat_of_ascii c =? 10)%nat then LF
  else OtherCh.

(** [s.split(/\r?\n/)]: never empty. *)
Fixpoint splitLines (s : string) : list string :=
  match s with
  | EmptyString => [EmptyString]
  | String c r =>
      let rest := splitLines r in
      match lineCh c with
      | LF => EmptyString :: rest
      | CR =>
          match r with
          | String c2 _ =>
              match lineCh c2 with
              | LF => rest
              | _ => match rest with
                     | l :: ls => String c l :: ls
                     | [] => [String c EmptyString]
                     end
              end
          | EmptyString => [String c EmptyString]
          end
      | OtherCh =>
          match rest with
          | l :: ls => String c l :: ls
          | [] => [String c EmptyString]
          end
      end
  end.

(** The length of a match of [/\r?\n\r?\n/] at the start of [s], 0 without
    one. *)
Definition sepLen (s : string) : nat :=
  match s with
  | String c1 (String c2 r2) =>
      match lineCh c1, lineCh c2 with
      | LF, LF => 2
      | LF, CR =>
          match r2 with
          | String c3 _ => match lineCh c3 with LF => 3 | _ => 0 end
          | EmptyString => 0
          end
      | CR, LF =>
          match r2 with
          | String c3 r3 =>
              match lineCh c3 with
              | LF => 3
              | CR =>
                  match r3 with
                  | String c4 _ => match lineCh c4 with LF => 4 | _ => 0 end
                  | EmptyString => 0
                  end
              | OtherCh => 0
              end
          | EmptyString => 0
          end
      | _, _ => 0
      end
  | _ => 0
  end%nat.

(** [const blocks = s.split(/\r?\n\r?\n/); const rest = blocks.pop() || ""]:
    the blocks that a separator closes, and the text after the last
    separator.  [skip] counts the separator characters still to pass. *)
Fixpoint splitBlocks (skip : nat) (s : string) : list string * string :=
  match s with
  | EmptyString => ([], EmptyString)
  | String c r =>
      match skip with
      | S k => splitBlocks k r
      | O =>
          match sepLen s with
          | S k => let (bs, t) := splitBlocks k r in (EmptyString :: bs, t)
          | O =>
              let (bs, t) := splitBlocks 0 r in
              match bs with
              | [] => ([], String c t)
              | b :: bs' => (String c b :: bs', t)
              end
          end
      end
  end.

Section Collect.
Variable JSON_parse : string -> Exn JsValue.
Variable atob : string -> Exn string.

(** The data lines of a block: trimmed lines that start with [data:],
    without the prefix and the white space after it. *)
Definition dataLines (eventBlock : string) : list string :=
  omap (fun line => option_map trim_start (after_prefix "data:" (trim line)))
       (splitLines eventBlock).

Definition doneEvent : JsValue := JObject {[ "type" := JString "done" ]}.

(** [parseSseEventPayload(eventBlock)] *)
Definition parseSseEventPayload (eventBlock : string) : JsValue :=
  match dataLines eventBlock with
  | [] => JNull
  | lines =>
      let dataStr := String.concat lf lines in
      if String.eqb dataStr "[DONE]" then doneEvent
      else match JSON_parse dataStr with
           | Ret v => v
           | Throw _ => JNull
           end
  end.

(** [isAudioSsePayload(payload)] for a payload that is not nullish. *)
Definition isAudioSsePayload (payload : JsValue) : bool :=
  String.eqb (typeof (prop payload "audio")) "string"
  && (is_undefined (prop payload "type") || is_str (prop payload "type") "audio").

Record State : Type := mkState {
  chunks : list Bytes;
  mimeType : JsValue;
  sampleRate : JsValue;
  buffer : string
}.

Definition with_buffer (st : State) (rest : string) : State :=
  {| chunks := chunks st; mimeType := mimeType st;
     sampleRate := sampleRate st; buffer := rest |}.

Definition initialState : State :=
  {| chunks := []; mimeType := JString "audio/mpeg";
     sampleRate := JNumber (Fin 16000); buffer := "" |}.

(** The body of [for (const block of blocks)]. *)
Definition onBlock (st : State) (block : string) : Exn State :=
  let payload := parseSseEventPayload block in
  if negb (truthy payload) then Ret st
  else if isAudioSsePayload payload then
    let format := js_or (prop payload "format") (JString "mp3") in
    let mime := js_or (prop payload "mime_type")
                      (if is_str format "webm" then JString "audio/webm"
                       else JString "audio/mpeg") in
    bind (base64ToUint8Array atob (string_of (prop payload "audio")))
         (fun bytes =>
            Ret {| chunks := chunks st ++ [bytes];
                   mimeType := mime;
                   sampleRate := if truthy (prop payload "sample_rate")
                                 then prop payload "sample_rate"
                                 else sampleRate st;
                   buffer := buffer st |})
  else Ret st.

Fixpoint onBlocks (st : State) (blocks : list string) : Exn State :=
  match blocks with
  | [] => Ret st
  | b :: bs => bind (onBlock st b) (fun st1 => onBlocks st1 bs)
  end.

(** One turn of the read loop with the decoded text of the read. *)
Definition onRead (st : State) (text : string) : Exn State :=
  let (blocks, rest) := splitBlocks 0 (buffer st ++ text) in
  onBlocks (with_buffer st rest) blocks.

Fixpoint readLoop (st : State) (reads : list string) : Exn State :=
  match reads with
  | [] => Ret st
  | text :: more => bind (onRead st text) (fun st1 => readLoop st1 more)
  end.

(** What [collectTtsViaSse] returns once the response body is open:
    [reads] are the decoded texts of the reads made before the stream ended
    or the request was stopped. *)
Definition collectTtsViaSse (reads : list string)
  : Exn (list Bytes * JsValue * JsValue) :=
  bind (readLoop initialState reads)
       (fun st => Ret (chunks st, mimeType st, sampleRate st)).

(** The block holds an audio event. *)
Definition isAudioBlock (block : string) : bool :=
  let payload := parseSseEventPayload block in
  truthy payload && isAudioSsePayload payload.

(** The [audio] text of an audio event. *)
Definition audioText (block : string) : string :=
  string_of (prop (parseSseEventPayload block) "audio").

(** The MIME type an audio event announces. *)
Definition mimeOf (block : string) : JsValue :=
  let payload := parseSseEventPayload block in
  js_or (prop payload "mime_type")
        (if is_str (js_or (prop payload "format") (JString "mp3")) "webm"
         then JString "audio/webm" else JString "audio/mpeg").

(** Decoding a list of base64 texts, stopping at the first exception. *)
Fixpoint decodeAll (texts : list string) : Exn (list Bytes) :=
  match texts with
  | [] => Ret []
  | t :: ts =>
      bind (base64ToUint8Array atob t)
           (fun b => bind (decodeAll ts) (fun bs => Ret (b :: bs)))
  end.

End Collect.

(** The reads put end to end. *)
Definition joined (reads : list string) : string :=
  fold_right String.append EmptyString reads.

End Sse.

(* ===================================================================== *)
(** ** Parsing the agent's reply (tools.ts) *)
(* ===================================================================== *)

Module Tools.

(** [isObject(value)] *)
Definition isObject (value : JsValue) : bool :=
  match value with JObject _ => true | _ => false end.

(** [asString(value)]: [None] stands for [undefined]. *)
Definition asString (value : JsValue) : option string :=
  match value with
  | JString s => if negb (String.eqb (trim s) "") then Some (trim s) else None
  | _ => None
  end.

(** [asNumber(value)]; the numbers of the model are finite or NaN. *)
Definition asNumber (value : JsValue) : option Z :=
  match value with
  | JNumber (Fin z) => Some z
  | _ => None
  end.

Definition isChar (code : nat) (c : Ascii.ascii) : bool :=
  (Ascii.nat_of_ascii c =? code)%nat.

Definition openBrace : nat := 123.
Definition closeBrace : nat := 125.
Definition doubleQuote : nat := 34.
Definition backslash : nat := 92.

(** [input.indexOf("{")] *)
Fixpoint indexOfBrace (input : string) : option nat :=
  match input with
  | EmptyString => None
  | String c r =>
      if isChar openBrace c then Some O else option_map S (indexOfBrace r)
  end.

(** [input.slice(n)] *)
Fixpoint dropStr (n : nat) (s : string) : string :=
  match n, s with
  | O, _ => s
  | S k, String _ r => dropStr k r
  | S _, EmptyString => EmptyString
  end.

(** The [for] loop of [extractFirstJsonObject] from index [i] on, [rest]
    being [input.slice(i)]: the index of the brace that closes the object. *)
Fixpoint scan (i : nat) (depth : Z) (inString isEscaped : bool) (rest : string)
  : option nat :=
  match rest with
  | EmptyString => None
  | String char r =>
      if inString then
        if isEscaped then scan (S i) depth inString false r
        else if isChar backslash char then scan (S i) depth inString true r
        else if isChar doubleQuote char then scan (S i) depth false isEscaped r
        else scan (S i) depth inString isEscaped r
      else if isChar doubleQuote char then scan (S i) depth true isEscaped r
      else if isChar openBrace char then scan (S i) (depth + 1) inString isEscaped r
      else if isChar closeBrace char then
        if (depth - 1 =? 0) then Some i
        else scan (S i) (depth - 1) inString isEscaped r
      else scan (S i) depth inString isEscaped r
  end.

(** [extractFirstJsonObject(input)]: [None] stands for [null]. *)
Definition extractFirstJsonObject (input : string) : option string :=
  match indexOfBrace input with
  | None => None
  | Some start =>
      match scan start 0 false false (dropStr start input) with
      | Some i => Some (String.substring start (i + 1 - start) input)
      | None => None
      end
  end.

(** [s.includes("{")] *)
Fixpoint hasBrace (s : string) : bool :=
  match s with
  | EmptyString => false
  | String c r => isChar openBrace c || hasBrace r
  end.

(** [s.startsWith("{")] *)
Definition startsWithBrace (s : string) : bool :=
  match s with
  | String c _ => isChar openBrace c
  | EmptyString => false
  end.

(** [s.endsWith("}")] *)
Fixpoint endsWithBrace (s : string) : bool :=
  match s with
  | EmptyString => false
  | String c EmptyString => isChar closeBrace c
  | String _ r => endsWithBrace r
  end.

(** [value === undefined ? undefined : value] of an optional field. *)
Definition optString (o : option string) : JsValue :=
  match o with Some s => JString s | None => JUndefined end.

Definition optNumber (o : option Z) : JsValue :=
  match o with Some z => JNumber (Fin z) | None => JUndefined end.

(** [["move", "click", "type", "submit"].includes(action)] *)
Definition isAction (action : string) : bool :=
  String.eqb action "move" || String.eqb action "click"
  || String.eqb action "type" || String.eqb action "submit".

(** The body of [for (const item of value)]: the call pushed for [item],
    if any. *)
Definition sanitizeItem (item : JsValue) : option JsValue :=
  if negb (isObject item) then None
  else if is_str (prop item "tool") "interact" then
    match asString (prop item "action") with
    | Some action =>
        if isAction action then
          Some (JObject {[ "tool" := JString "interact";
                           "action" := JString action;
                           "selector" := optString (asString (prop item "selector"));
                           "text" := (if String.eqb (typeof (prop item "text")) "string"
                                      then prop item "text" else JUndefined);
                           "x" := optNumber (asNumber (prop item "x"));
                           "y" := optNumber (asNumber (prop item "y")) ]})
        else None
    | None => None
    end
  else if is_str (prop item "tool") "navigate" then
    match asString (prop item "url") with
    | Some url => Some (JObject {[ "tool" := JString "navigate"; "url" := JString url ]})
    | None => None
    end
  else if is_str (prop item "tool") "getPageContext" then
    Some (JObject {[ "tool" := JString "getPageContext" ]})
  else if is_str (prop item "tool") "scroll" then
    match asString (prop item "selector") with
    | Some selector =>
        Some (JObject {[ "tool" := JString "scroll"; "selector" := JString selector ]})
    | None => None
    end
  else None.

(** [sanitizeToolCalls(value)] *)
Definition sanitizeToolCalls (value : JsValue) : list JsValue :=
  match value with
  | JArray items => omap sanitizeItem items
  | _ => []
  end.

(** A text that [asString] returns as it is. *)
Definition isClean (v : JsValue) : bool :=
  match v with
  | JString s => negb (String.eqb s "") && String.eqb (trim s) s
  | _ => false
  end.

(** The shape of an [AgentToolCall]. *)
Definition wellFormed (call : JsValue) : bool :=
  isObject call &&
  (   (is_str (prop call "tool") "interact"
       && isAction (string_of (prop call "action"))
       && isClean (prop call "action")
       && (is_undefined (prop call "selector") || isClean (prop call "selector"))
       && (is_undefined (prop call "text")
           || String.eqb (typeof (prop call "text")) "string")
       && (is_undefined (prop call "x") || bool_decide (is_Some (asNumber (prop call "x"))))
       && (is_undefined (prop call "y") || bool_decide (is_Some (asNumber (prop call "y")))))
   || (is_str (prop call "tool") "navigate" && isClean (prop call "url"))
   || is_str (prop call "tool") "getPageContext"
   || (is_str (prop call "tool") "scroll" && isClean (prop call "selector"))).

(** [interface ParsedAgentResponse] *)
Record ParsedAgentResponse : Type := mkParsed {
  reply : string;
  toolCalls : list JsValue;
}.

Section Parse.
Variable JSON_parse : string -> Exn JsValue.
(** The first capture of [/```(?:json)?\s*([\s\S]*?)\s*```/i] in a text,
    [None] without a match. *)
Variable fencedMatch : string -> option string.

(** [extractJsonCandidate(raw)] *)
Definition extractJsonCandidate (raw : string) : string :=
  let trimmed := trim raw in
  match fencedMatch trimmed with
  | Some inner => if String.eqb inner "" then trimmed else trim inner
  | None => trimmed
  end.

(** [parseJsonFromRaw(raw)] *)
Definition parseJsonFromRaw (raw : string) : JsValue :=
  let candidate := extractJsonCandidate raw in
  match JSON_parse candidate with
  | Ret v => v
  | Throw _ =>
      match extractFirstJsonObject candidate with
      | None => JNull
      | Some objectCandidate =>
          if String.eqb objectCandidate "" then JNull
          else match JSON_parse objectCandidate with
               | Ret v => v
               | Throw _ => JNull
               end
      end
  end.

(** [a ?? b] *)
Definition nullish_or (a b : JsValue) : JsValue :=
  match a with
  | JUndefined | JNull => b
  | _ => a
  end.

(** [parseAgentResponse(raw)] *)
Definition parseAgentResponse (raw : string) : ParsedAgentResponse :=
  let parsed := parseJsonFromRaw raw in
  if negb (isObject parsed) then {| reply := trim raw; toolCalls := [] |}
  else
    {| reply := default "" (asString (prop parsed "reply"));
       toolCalls := sanitizeToolCalls
                      (nullish_or (prop parsed "tool_calls")
                                  (prop parsed "toolCalls")) |}.

End Parse.

End Tools.

(* ===================================================================== *)
(** ** Running tool calls (tools.ts, ChatWindow.tsx, client.ts) *)
(* ===================================================================== *)

Module ToolRun.
Import Resume.

(** How an awaited call ends: with a value, with an exception, or with the
    page being left, after which no statement of the caller runs. *)
Inductive Run (A : Type) : Type :=
| Value (a : A)
| Raise (e : Caught)
| Unload.
Arguments Value {A} a.
Arguments Raise {A} e.
Arguments Unload {A}.

Definition andThen {A B} (m : Run A) (k : A -> Run B) : Run B :=
  match m with
  | Value a => k a
  | Raise e => Raise e
  | Unload => Unload
  end.

(** [try { body } catch (error) { handler error }] *)
Definition tryCatch {A} (body : Run A) (handler : Caught -> Run A) : Run A :=
  match body with
  | Raise e => handler e
  | _ => body
  end.

(** [interface ToolCallResult] as [executeSingleToolCall] builds it: the
    id is whatever [call.call_id] holds. *)
Record ToolCallResult : Type := mkResult {
  id : JsValue;
  text : string;
}.

Section Execute.
(** The tool bodies, the page summary of [getPageContext()] and
    [window.location.href] as read after a navigation. *)
Variables executeInteract executeScroll executeNavigate : JsValue -> Run unit.
Variable getPageContext : Run string.
Variable href : string.
(** Whether the page is left during the wait of 1.5 s that follows
    [executeNavigate]. *)
Variable leftWhileSettling : bool.
(** [String(v)] of a value that is no string. *)
Variable ToString : JsValue -> string.

(** [`${v}`], the conversion of a template literal. *)
Definition toText (v : JsValue) : string :=
  match v with
  | JString s => s
  | _ => ToString v
  end.

(** [await new Promise((resolve) => setTimeout(resolve, 1500))] *)
Definition settle : Run unit :=
  if leftWhileSettling then Unload else Value tt.

(** [executeSingleToolCall(call)]: [call.call_id] is read before the
    [try]. *)
Definition executeSingleToolCall (call : JsValue) : Run ToolCallResult :=
  match member call "call_id" with
  | Throw e => Raise (runtimeError e)
  | Ret callId =>
  tryCatch
    (if is_str (prop call "tool") "interact" then
       andThen (executeInteract call) (fun _ =>
       Value {| id := callId;
                text := "Etkileşim başarılı: " ++ toText (prop call "action") |})
     else if is_str (prop call "tool") "scroll" then
       andThen (executeScroll call) (fun _ =>
       Value {| id := callId; text := "Öğeye kaydırma başarılı." |})
     else if is_str (prop call "tool") "getPageContext" then
       andThen getPageContext (fun summary =>
       Value {| id := callId; text := summary |})
     else if is_str (prop call "tool") "navigate" then
       andThen (executeNavigate call) (fun _ =>
       andThen settle (fun _ =>
       andThen getPageContext (fun summary =>
       Value {| id := callId;
                text := "Navigasyon tamamlandı. Şu anki sayfa: " ++ href ++ newline
                        ++ "Sayfa bağlamı: " ++ summary |})))
     else Value {| id := callId; text := "Bilinmeyen araç." |})
    (fun error =>
       Value {| id := callId;
                text := "Hata: " ++ toText (errorText error) |})
  end.

(** The exception the [try] block of [executeSingleToolCall] ends with, if
    it ends with one: that of the tool body run for [call], or of
    [getPageContext()]. *)
Definition bodyThrows (call : JsValue) (e : Caught) : Prop :=
  (is_str (prop call "tool") "interact" = true /\ executeInteract call = Raise e)
  \/ (is_str (prop call "tool") "scroll" = true /\ executeScroll call = Raise e)
  \/ (is_str (prop call "tool") "getPageContext" = true /\
      getPageContext = Raise e)
  \/ (is_str (prop call "tool") "navigate" = true /\
      (executeNavigate call = Raise e \/
       (executeNavigate call = Value tt /\ leftWhileSettling = false /\
        getPageContext = Raise e))).

(** The page is left during the call. *)
Definition bodyLeaves (call : JsValue) : Prop :=
  (is_str (prop call "tool") "interact" = true /\ executeInteract call = Unload)
  \/ (is_str (prop call "tool") "scroll" = true /\ executeScroll call = Unload)
  \/ (is_str (prop call "tool") "getPageContext" = true /\ getPageContext = Unload)
  \/ (is_str (prop call "tool") "navigate" = true /\
      (executeNavigate call = Unload \/
       (executeNavigate call = Value tt /\
        (leftWhileSettling = true \/ getPageContext = Unload)))).

(** The own properties [...call.args] copies; [args] is an object by its
    type, and nothing is copied from [null] or [undefined]. *)
Definition spread (args : JsValue) : gmap string JsValue :=
  match args with
  | JObject props => props
  | _ => ∅
  end.

(** [{ tool: call.tool, call_id: call.call_id, ...call.args }]: a key of
    [args] replaces the one written before it. *)
Definition toolCallWithId (call : ToolCall) : JsValue :=
  JObject (spread (args call)
           ∪ {[ "tool" := JString (tool call);
                "call_id" := JString (call_id call) ]}).

(** [handleToolExecution(call)] of the chat window. *)
Definition handleToolExecution (call : ToolCall) : Run ToolCallResult :=
  executeSingleToolCall (toolCallWithId call).

(** The result as client.ts types it. *)
Definition typedResult (r : ToolCallResult) : ToolResult :=
  {| result_call_id := string_of (id r); result := text r |}.

Definition typedToolExecution (call : ToolCall) : Run ToolResult :=
  andThen (handleToolExecution call) (fun r => Value (typedResult r)).

End Execute.

(** *** The loop over [data.calls] in the agent streams *)

Inductive LoopEnd : Type :=
| Completed (results : list ToolResult) (store : option PendingAgentResume)
| Unloaded (store : option PendingAgentResume)
| Rejected (e : Caught) (store : option PendingAgentResume).

Section Loop.
Variable executeTool : ToolCall -> Run ToolResult.
Variables (effectiveSessionId theProjectId theModel theVoice : string).
Variable theAccessibilityMode : bool.
(** [Date.now()] at the save made before the call at a position. *)
Variable clock : nat -> Z.
(** Whether [localStorage] exists and takes the record. *)
Variable writable : bool.

Definition isNavigate (call : ToolCall) : bool := String.eqb (tool call) "navigate".

(** The record [savePendingAgentResume] stores before a [navigate]. *)
Definition checkpoint (calls : list ToolCall) (results : list ToolResult)
  : PendingAgentResume :=
  {| sessionId := effectiveSessionId; projectId := theProjectId;
     model := theModel; voice := theVoice;
     accessibilityMode := theAccessibilityMode;
     pendingToolCalls := calls;
     completedResults := results;
     savedAt := clock (length results) |}.

(** The stored record after [savePendingAgentResume(state)]: a write that
    fails changes nothing. *)
Definition save (store : option PendingAgentResume) (state : PendingAgentResume)
  : option PendingAgentResume :=
  if writable then Some state else store.

(** [for (const call of calls) { ... }]: [todo] are the calls still to
    run, [store] is the record under the resume key. *)
Fixpoint toolLoop (calls todo : list ToolCall) (results : list ToolResult)
    (store : option PendingAgentResume) : LoopEnd :=
  match todo with
  | [] => Completed results store
  | call :: rest =>
      let store1 := if isNavigate call then save store (checkpoint calls results)
                    else store in
      match executeTool call with
      | Value r =>
          toolLoop calls rest (results ++ [r])
                   (if isNavigate call then None else store1)
      | Raise e => Rejected e store1
      | Unload => Unloaded store1
      end
  end.

(** The handler of a [tool_calls] message. *)
Definition onToolCalls (calls : list ToolCall) (store : option PendingAgentResume)
  : LoopEnd :=
  toolLoop calls calls [] store.

(** The record under the resume key before a call, the calls [before] it
    having returned. *)
Definition storeAfter (before : list ToolCall) (store : option PendingAgentResume)
  : option PendingAgentResume :=
  if existsb isNavigate before then None else store.

(** The value of a call that ends with one. *)
Definition valueOf (call : ToolCall) : option ToolResult :=
  match executeTool call with
  | Value r => Some r
  | _ => None
  end.

(** Every call of the list ends with a value. *)
Definition allReturn (calls : list ToolCall) : bool :=
  forallb (fun call => bool_decide (is_Some (valueOf call))) calls.

(** The result of every call carries the id of the call. *)
Definition echoesIds (calls : list ToolCall) : bool :=
  forallb (fun call =>
             match valueOf call with
             | Some r => String.eqb (result_call_id r) (call_id call)
             | None => true
             end) calls.

End Loop.

(** A batch and two executors for concrete runs: one that leaves the page
    on [navigate], one that always returns. *)
Definition sampleBatch : list ToolCall :=
  [ mkCall "c1" "interact" JNull; mkCall "c2" "navigate" JNull;
    mkCall "c3" "scroll" JNull ].

Definition sampleReturn (call : ToolCall) : Run ToolResult :=
  Value {| result_call_id := call_id call; result := "ok" |}.

Definition sampleLeave (call : ToolCall) : Run ToolResult :=
  if isNavigate call then Unload else sampleReturn call.

End ToolRun.

(* ===================================================================== *)
(** ** Writing and consuming the resume record (tools.ts, ChatWindow.tsx) *)
(* ===================================================================== *)

Module ResumeStore.
Import Resume.

Section Store.
Variable JSON_parse : string -> Exn JsValue.
Variable StringToNumber : string -> JsNum.
Variable ObjectToNumber : JsValue -> Exn JsNum.
Variable JSON_stringify : JsValue -> Exn string.
(** Whether [localStorage.setItem] takes a text or throws for lack of
    room. *)
Variable quota : string -> bool.

Definition QuotaExceededError : JsValue :=
  JObject {[ "name" := JString "QuotaExceededError" ]}.

(** [localStorage.setItem(key, value)] *)
Definition setItem (m : gmap string string) (key value : string)
  : Exn (gmap string string) :=
  if quota value then Ret (<[ key := value ]> m) else Throw QuotaExceededError.

(** [{ ...state, savedAt: Date.now() }] *)
Definition stamped (state : gmap string JsValue) (now : Z) : JsValue :=
  JObject (<[ "savedAt" := JNumber (Fin now) ]> state).

(** [savePendingAgentResume(state)] at time [now]: the storage afterwards. *)
Definition savePendingAgentResume (ls : Env) (state : gmap string JsValue) (now : Z)
  : Env :=
  match ls with
  | None => None
  | Some m =>
      match bind (JSON_stringify (stamped state now))
                 (fun text => setItem m RESUME_STORAGE_KEY text) with
      | Ret m' => Some m'
      | Throw _ => ls
      end
  end.

(** The start of the effect that resumes the agent when the chat window
    mounts: the storage afterwards and the state to resume from, if any. *)
Definition resumeOnMount (ls : Env) (now : Z) : Env * option JsValue :=
  let (ls1, resumeState) :=
    getPendingAgentResume JSON_parse StringToNumber ObjectToNumber ls now in
  if negb (truthy resumeState) then (ls1, None)
  else (clearPendingAgentResume ls1, Some resumeState).

End Store.

(** [JSON.stringify] for a concrete run. *)
Definition sampleStringify (v : JsValue) : Exn string :=
  Ret (Sample.stampedRecord "1000").

End ResumeStore.

(* ===================================================================== *)
(** ** Playing collected audio (client.ts) *)
(* ===================================================================== *)

Module Player.
Import Codec Playback.

(** How the promise of [audioElement.play()] fares. *)
Inductive PlayStart : Type :=
| Started                 (* it resolves                          *)
| Refused (err : JsValue) (* it rejects                           *)
| Stalled.                (* it stays pending                     *)

(** How [waitForPlaybackEnd] finds the element or is woken up. *)
Inductive PlayEnd : Type :=
| AlreadyEnded            (* audioElement.ended on entry          *)
| Ended                   (* the [ended] event                    *)
| ElementError            (* the [error] event                    *)
| ForcedStop              (* BULUT_AUDIO_STOP_EVENT               *)
| NoEvent.                (* none of the three events ever comes  *)

(** What the environment does during a call of [playBufferedAudio]: how
    [audioElement.play()] fares, how the playback ends, and how often
    [stopActiveAudioPlayback()] is called by the ['fallback'] callback,
    while [play()] is pending, and from then until the playback has ended
    (the ['playing'] callback included).  The callback returns, and does
    nothing else to the module state. *)
Record PlayScript : Type := mkPlayScript {
  stopsInCallback : nat;
  stopsBeforePlaying : nat;
  playStart : PlayStart;
  stopsWhilePlaying : nat;
  ending : PlayEnd;
}.

(** What a call leaves behind: the module state, the states passed to
    [onAudioStateChange] in order, the blob given to the element (if one
    was made), whether its object URL was revoked, and how the promise of
    the call settled ([None]: it is still pending). *)
Record Played : Type := mkPlayed {
  after : State;
  states : list string;
  blob : option (Bytes * string);
  revoked : bool;
  outcome : option (Exn unit);
}.

Definition playbackError : JsValue :=
  JObject {[ "message" := JString "Ses oynatma hatası oluştu." ]}.

(** [n] calls of [stopActiveAudioPlayback()]. *)
Fixpoint stops (n : nat) (st : State) : State :=
  match n with
  | O => st
  | S k => stops k (stopActiveAudioPlayback st)
  end.

(** [new Audio()] with [preload], [autoplay] and [src] set. *)
Definition freshElement (url : string) : AudioElement :=
  {| src := Some url; paused := true; stopEvents := 0 |}.

(** The [finally] block: unregister, pause, drop [src], reload. *)
Definition release (st : State) (el : nat) : State :=
  let st1 := unregisterActiveAudioElement st el in
  mkState (audioPlaybackGeneration st1) (activeAudioElements st1)
          (alter (fun a => {| src := None; paused := true;
                              stopEvents := stopEvents a |}) el (heap st1)).

(** [onAudioStateChange?.("playing"); await waitForPlaybackEnd(audioElement)] *)
Definition waitForPlaybackEnd (st : State) (sc : PlayScript)
  : State * option (Exn unit) :=
  match ending sc with
  | AlreadyEnded | Ended | ForcedStop =>
      (stops (stopsWhilePlaying sc) st, Some (Ret tt))
  | ElementError => (stops (stopsWhilePlaying sc) st, Some (Throw playbackError))
  | NoEvent => (stops (stopsWhilePlaying sc) st, None)
  end.

(** [interface TtsCollectResult], with the type and the rate as the
    collectors hand them on: [payload.mime_type] and, from the SSE stream,
    [payload.sample_rate] are whatever truthy value the server sent. *)
Record TtsCollectResult : Type := mkTts {
  chunks : list Bytes;
  mimeType : JsValue;
  sampleRate : JsValue;
}.

(** What [collectTtsViaWebSocket] and [collectTtsViaSse] return, as the
    value or exception of an awaited call ([None]: it never settles). *)
Definition ofWebSocket (r : Tts.Collected) : option (Exn TtsCollectResult) :=
  match r with
  | Tts.Returned s =>
      Some (Ret (mkTts (Tts.chunks s) (Tts.mimeType s)
                       (JNumber (Tts.sampleRate s))))
  | Tts.Threw e => Some (Throw e)
  | Tts.Hung => None
  end.

Definition ofSse (r : Exn (list Bytes * JsValue * JsValue))
  : option (Exn TtsCollectResult) :=
  Some (bind r (fun t => Ret (mkTts (fst (fst t)) (snd (fst t)) (snd t)))).

(** The collection [speakText] and the agent streams play from: the
    WebSocket one, and the SSE one whenever the first throws. *)
Definition collected (viaWebSocket viaSse : option (Exn TtsCollectResult))
  : option (Exn TtsCollectResult) :=
  match viaWebSocket with
  | Some (Ret r) => Some (Ret r)
  | Some (Throw _) => viaSse
  | None => None
  end.

Section Play.
Variable ToString : JsValue -> string.
Variable ToNumber : JsValue -> JsNum.

(** [playBufferedAudio(chunks, mimeType, sampleRate, onAudioStateChange)];
    [el] names the element that [new Audio()] makes and [url] its object
    URL.  The callback is taken to return. *)
Definition playBufferedAudio (st : State) (el : nat) (url : string)
    (chunks : list Bytes) (mimeType sampleRate : JsValue) (sc : PlayScript)
  : Played :=
  let playbackGeneration := getAudioPlaybackGeneration st in
  if (length chunks =? 0)%nat then mkPlayed st ["done"] None false (Some (Ret tt))
  else if wasPlaybackStoppedAfter st playbackGeneration
  then mkPlayed st ["done"] None false (Some (Ret tt))
  else
    let st0 := stops (stopsInCallback sc) st in
    match audioBlob ToString ToNumber chunks mimeType sampleRate with
    | Throw e => mkPlayed st0 ["fallback"] None false (Some (Throw e))
    | Ret b =>
    let made := Some b in
    let st1 := registerActiveAudioElement
                 (mkState (audioPlaybackGeneration st0) (activeAudioElements st0)
                          (<[ el := freshElement url ]> (heap st0))) el in
    if wasPlaybackStoppedAfter st1 playbackGeneration
    then mkPlayed (release st1 el) ["fallback"; "done"] made true (Some (Ret tt))
    else
      let st2 := stops (stopsBeforePlaying sc) st1 in
      match playStart sc with
      | Stalled => mkPlayed st2 ["fallback"] made false None
      | Refused err =>
          mkPlayed (release st2 el) ["fallback"; "done"] made true
                   (Some (Throw err))
      | Started =>
          match waitForPlaybackEnd st2 sc with
          | (st3, Some ended) =>
              mkPlayed (release st3 el) ["fallback"; "playing"; "done"] made true
                       (Some ended)
          | (st3, None) => mkPlayed st3 ["fallback"; "playing"] made false None
          end
      end
    end.

(** [speakText(baseUrl, text, voice, accessibilityMode, onAudioStateChange)]:
    [viaWebSocket] and [viaSse] say how the two collections settle (the
    second is awaited only when the first throws) and [stopsMeanwhile]
    counts the calls of [stopActiveAudioPlayback()] made from the snapshot
    of the generation until the audio is collected. *)
Definition speakText (st : State) (el : nat) (url : string) (text : string)
    (viaWebSocket viaSse : option (Exn TtsCollectResult)) (stopsMeanwhile : nat)
    (sc : PlayScript) : Played :=
  let trimmed := trim text in
  if String.eqb trimmed "" then mkPlayed st [] None false (Some (Ret tt))
  else
    let playbackGeneration := getAudioPlaybackGeneration st in
    let st1 := stops stopsMeanwhile st in
    match collected viaWebSocket viaSse with
    | None => mkPlayed st1 ["rendering"] None false None
    | Some (Throw err) => mkPlayed st1 ["rendering"] None false (Some (Throw err))
    | Some (Ret ttsResult) =>
        if wasPlaybackStoppedAfter st1 playbackGeneration
        then mkPlayed st1 ["rendering"; "done"] None false (Some (Ret tt))
        else if (0 <? length (chunks ttsResult))%nat then
          let p := playBufferedAudio st1 el url (chunks ttsResult)
                     (mimeType ttsResult) (sampleRate ttsResult) sc in
          mkPlayed (after p) ("rendering" :: states p) (blob p) (revoked p)
                   (outcome p)
        else mkPlayed st1 ["rendering"; "done"] None false (Some (Ret tt))
    end.

End Play.

(** A script for concrete runs: the sound plays to its end. *)
Definition samplePlay : PlayScript :=
  {| stopsInCallback := 0; stopsBeforePlaying := 0; playStart := Started;
     stopsWhilePlaying := 0; ending := Ended |}.

End Player.

(* ===================================================================== *)
(** ** Sample frames for the TTS socket with the data-URI pattern *)
(* ===================================================================== *)

Module TtsWire.

(** An audio frame whose [audio] text is no base64. *)
Definition badAudioFrame : string := Sample.audioFrame "1" "%%%".

Definition JSON_parse (textIn : string) : Exn JsValue :=
  if String.eqb textIn badAudioFrame then Ret (Sample.audioPayload 1 "%%%")
  else Sample.JSON_parse textIn.

(** An attempt whose socket has just opened. *)
Definition openedConn : Tts.Conn :=
  Tts.run JSON_parse Sample.atob Codec.stripDataUri "r1" "selam" "v" false
    (Tts.freshConn Tts.initialSession) [Tts.EvOpen].

End TtsWire.

(* ===================================================================== *)
(** ** Observations on an STT session *)
(* ===================================================================== *)

Module SttWire.
Import Stt.

(** A session whose socket is closing or closed: no frame reaches it and
    it cannot open. *)
Definition Muted (s : State) : Prop :=
  readyState s = Tts.CLOSING \/ readyState s = Tts.CLOSED.

(** What the handlers never touch once the socket is on its way down;
    [stopped] is never taken back. *)
Definition sameWire (s s1 : State) : Prop :=
  sent s1 = sent s /\ notices s1 = notices s /\
  finalText s1 = finalText s /\ finalSessionId s1 = finalSessionId s /\
  (stopped s = true -> stopped s1 = true).

End SttWire.

(* ===================================================================== *)
(** ** The persisted cursor state (tools.ts) *)
(* ===================================================================== *)

Module Cursor.

Definition CURSOR_STORAGE_KEY : string := "auticbot_agent_cursor_state".

Section Store.
Variable JSON_parse : string -> Exn JsValue.
Variable JSON_stringify : JsValue -> Exn string.
(** Whether [localStorage.setItem] takes a text. *)
Variable quota : string -> bool.

(** [typeof v === "number" && Number.isFinite(v)] *)
Definition isFiniteNumber (v : JsValue) : bool :=
  match v with
  | JNumber (Fin _) => true
  | _ => false
  end.

(** [getPersistedCursorState()]: [JNull] stands for [null]. *)
Definition getPersistedCursorState (ls : Resume.Env) : JsValue :=
  match ls with
  | None => JNull
  | Some m =>
      match m !! CURSOR_STORAGE_KEY with
      | None => JNull
      | Some raw =>
          if String.eqb raw "" then JNull
          else
            match
              bind (JSON_parse raw) (fun parsed =>
              bind (member parsed "url") (fun url =>
              if negb (String.eqb (typeof url) "string")
                 || negb (isFiniteNumber (prop parsed "x"))
                 || negb (isFiniteNumber (prop parsed "y"))
              then Ret JNull
              else Ret (JObject {[ "url" := url;
                                   "x" := prop parsed "x";
                                   "y" := prop parsed "y";
                                   "visible" :=
                                     JBool (negb (is_false (prop parsed "visible"))) ]})))
            with
            | Ret v => v
            | Throw _ => JNull
            end
      end
  end.

(** The record [persistCursorState] writes. *)
Definition payload (href : string) (x y : JsNum) (visible : bool) : JsValue :=
  JObject {[ "url" := JString href; "x" := JNumber x; "y" := JNumber y;
             "visible" := JBool visible ]}.

(** [persistCursorState(x, y, visible)] on the page [href]: the storage
    afterwards. *)
Definition persistCursorState (ls : Resume.Env) (href : string) (x y : JsNum)
    (visible : bool) : Resume.Env :=
  match ls with
  | None => None
  | Some m =>
      match JSON_stringify (payload href x y visible) with
      | Ret textOut =>
          if quota textOut then Some (<[ CURSOR_STORAGE_KEY := textOut ]> m) else ls
      | Throw _ => ls
      end
  end.

(** Whether [applyStoredCursorStateForCurrentUrl] moves the cursor on the
    page [href]. *)
Definition appliesTo (stored : JsValue) (href : string) : bool :=
  truthy stored && is_str (prop stored "url") href.

End Store.

(** The shape of a [PersistedCursorState]. *)
Definition wellFormed (v : JsValue) : bool :=
  String.eqb (typeof (prop v "url")) "string"
  && isFiniteNumber (prop v "x") && isFiniteNumber (prop v "y")
  && String.eqb (typeof (prop v "visible")) "boolean".

(** A [JSON.stringify] and a [JSON.parse] for one record. *)
Definition sampleText : string :=
  Sample.obj [Sample.field "url" (Sample.str "https://example.com/a");
              Sample.field "x" "10"; Sample.field "y" "20";
              Sample.field "visible" "true"].

Definition sampleStringify (v : JsValue) : Exn string := Ret sampleText.

Definition sampleParse (textIn : string) : Exn JsValue :=
  if String.eqb textIn sampleText
  then Ret (payload "https://example.com/a" (Fin 10) (Fin 20) true)
  else Throw Sample.SyntaxError.

End Cursor.

(* ===================================================================== *)
(** ** Proof steps shared by the properties below *)
(* ===================================================================== *)

Ltac line_cases :=
  repeat match goal with
         | |- context [Sse.lineCh ?c] => destruct (Sse.lineCh c)
         end.

Ltac use_tests :=
  repeat match goal with
         | E : ?b = _ |- context [if ?b then _ else _] => rewrite E
         end.

(* ===================================================================== *)
(** * Properties *)
(* ===================================================================== *)

(** ** Payload helpers *)

Module HelpersSpec.

Lemma typeof_string_inv v : typeof v = "string" -> exists s, v = JString s.
Proof. destruct v; simpl; try discriminate; eauto. Qed.

Lemma parse_tts_stt_agree JSON_parse v :
  parseSttWsEventPayload JSON_parse v = parseTtsWsEventPayload JSON_parse v.
Proof. reflexivity. Qed.

Lemma parse_never_throws JSON_parse v :
  exists r, parseTtsWsEventPayload JSON_parse v = Ret r.
Proof.
  unfold parseTtsWsEventPayload, try_catch.
  destruct (negb (String.eqb (typeof v) "string")); [eauto |].
  destruct (JSON_parse (string_of v)); eauto.
Qed.

(** C9.  [parseTtsWsEventPayload] and [parseSttWsEventPayload] return on
    every input (they never throw); on a value that is not a string, and on
    a string [JSON.parse] rejects, they return [null]; on a string
    [JSON.parse] accepts they return the parsed payload. *)
Theorem parse_ws_event_payload_total
    (JSON_parse : string -> Exn JsValue) (value : JsValue) :
  (exists r, parseTtsWsEventPayload JSON_parse value = Ret r) /\
  (exists r, parseSttWsEventPayload JSON_parse value = Ret r) /\
  (typeof value <> "string" ->
     parseTtsWsEventPayload JSON_parse value = Ret JNull /\
     parseSttWsEventPayload JSON_parse value = Ret JNull) /\
  (forall s, value = JString s ->
     match JSON_parse s with
     | Throw _ =>
         parseTtsWsEventPayload JSON_parse value = Ret JNull /\
         parseSttWsEventPayload JSON_parse value = Ret JNull
     | Ret payload =>
         parseTtsWsEventPayload JSON_parse value = Ret payload /\
         parseSttWsEventPayload JSON_parse value = Ret payload
     end).
Proof.
  split; [apply parse_never_throws |].
  split; [apply (parse_never_throws JSON_parse value) |].
  split.
  - intros Hty.
    unfold parseSttWsEventPayload, parseTtsWsEventPayload.
    destruct (String.eqb_spec (typeof value) "string") as [E | _];
      [contradiction | simpl; auto].
  - intros s ->.
    unfold parseSttWsEventPayload, parseTtsWsEventPayload. simpl.
    destruct (JSON_parse s); simpl; auto.
Qed.

Example parse_stt_invalid_text :
  parseSttWsEventPayload Sample.JSON_parse (JString "{invalid") = Ret JNull.
Proof. reflexivity. Qed.

Example parse_stt_number :
  parseSttWsEventPayload Sample.JSON_parse (JNumber (Fin 123)) = Ret JNull.
Proof. reflexivity. Qed.

Example parse_tts_audio_frame :
  parseTtsWsEventPayload Sample.JSON_parse (JString (Sample.audioFrame "3" "YWJj"))
  = Ret (Sample.audioPayload 3 "YWJj").
Proof. vm_compute. reflexivity. Qed.

(** *** shouldFallbackToSse *)

Lemma fallback_object props :
  shouldFallbackToSse (JObject props) =
  match props !! "retryable" with
  | Some v => truthy v
  | None => true
  end.
Proof.
  unfold shouldFallbackToSse. simpl.
  destruct (props !! "retryable") as [v |] eqn:E.
  - rewrite bool_decide_eq_true_2 by eauto. reflexivity.
  - rewrite bool_decide_eq_false_2; [reflexivity |].
    intros [x Hx]. discriminate.
Qed.

Lemma fallback_non_object v :
  (forall props, v <> JObject props) -> shouldFallbackToSse v = true.
Proof.
  intros H. destruct v; try reflexivity.
  exfalso. eapply H. reflexivity.
Qed.

(** C5, the claim as stated fails: for an object whose [retryable] is
    [null] the test [error.retryable !== false] holds, yet the function
    returns [false]. *)
Lemma fallback_null_flag_is_false :
  let error := JObject {[ "retryable" := JNull ]} in
  negb (is_false (prop error "retryable")) = true /\
  shouldFallbackToSse error = false.
Proof. split; reflexivity. Qed.

(** C5, amended.  [shouldFallbackToSse(error)] is [false] exactly when
    [error] is an object that has a [retryable] property whose value is
    falsy; so it is [false] for [retryable: false], and [true] for
    [retryable: true], for an object without the property and for every
    value that is not an object. *)
Theorem fallback_false_iff_falsy_flag (error : JsValue) :
  (shouldFallbackToSse error = false <->
     exists props v, error = JObject props /\
                     props !! "retryable" = Some v /\ truthy v = false) /\
  (forall props, error = JObject props ->
     (props !! "retryable" = Some (JBool false) -> shouldFallbackToSse error = false) /\
     (props !! "retryable" = Some (JBool true) -> shouldFallbackToSse error = true) /\
     (props !! "retryable" = None -> shouldFallbackToSse error = true)) /\
  ((forall props, error <> JObject props) -> shouldFallbackToSse error = true).
Proof.
  split; [| split].
  - split.
    + destruct error; try discriminate.
      rewrite fallback_object.
      destruct (props !! "retryable") as [v |] eqn:E; [| discriminate].
      intros Hv. exists props, v. auto.
    + intros (props & v & -> & E & Hv).
      rewrite fallback_object, E. exact Hv.
  - intros props ->. rewrite fallback_object.
    repeat split; intros ->; reflexivity.
  - apply fallback_non_object.
Qed.

Example fallback_retryable_error :
  shouldFallbackToSse (buildError (JString "ws failed") true) = true.
Proof. reflexivity. Qed.

Example fallback_final_error :
  shouldFallbackToSse (buildError (JString "bad payload") false) = false.
Proof. reflexivity. Qed.

End HelpersSpec.

(** ** TTS WebSocket session *)

Module TtsSpec.
Import Tts.

Lemma seq_lt_trans a b c : seq_lt a b -> seq_lt b c -> seq_lt a c.
Proof.
  unfold seq_lt, js_gt. destruct a, b, c; try discriminate. lia.
Qed.

Lemma seq_lt_irrefl a : ~ seq_lt a a.
Proof. unfold seq_lt, js_gt. destruct a; [lia | discriminate]. Qed.

Lemma last_cons_default (l : list JsNum) (a d : JsNum) :
  List.last (a :: l) d = List.last l a.
Proof.
  revert a d. induction l as [| b l IH]; intros a d; [reflexivity |].
  change (List.last (a :: b :: l) d) with (List.last (b :: l) d).
  rewrite (IH b d), (IH b a). reflexivity.
Qed.

Lemma strongly_sorted_app_last (l1 l2 : list JsNum) (d : JsNum) :
  StronglySorted seq_lt (d :: l1) ->
  StronglySorted seq_lt (List.last l1 d :: l2) ->
  StronglySorted seq_lt (d :: l1 ++ l2).
Proof.
  revert d. induction l1 as [| a l1 IH]; intros d H1 H2.
  - exact H2.
  - rewrite last_cons_default in H2.
    apply StronglySorted_inv in H1 as [Hs Hall].
    assert (Hrest : StronglySorted seq_lt (a :: l1 ++ l2))
      by (apply IH; assumption).
    change ((a :: l1) ++ l2) with (a :: l1 ++ l2).
    constructor; [exact Hrest |].
    apply Forall_inv in Hall as Hda.
    constructor; [exact Hda |].
    apply StronglySorted_inv in Hrest as [_ Hall2].
    eapply List.Forall_impl; [| exact Hall2].
    intros x Hx. eapply seq_lt_trans; eauto.
Qed.

Section Session.
Variable JSON_parse : string -> Exn JsValue.
Variable atob : string -> Exn string.
Variable strip_data_uri : string -> string.
Variable requestId : string.
Variables (assistantText voice : string) (accessibilityMode : bool).

Local Abbreviation dispatch := (Tts.dispatch JSON_parse atob strip_data_uri requestId
     assistantText voice accessibilityMode).
Local Abbreviation run := (Tts.run JSON_parse atob strip_data_uri requestId
     assistantText voice accessibilityMode).
Local Abbreviation on_audio := (Tts.on_audio atob strip_data_uri requestId).
Local Abbreviation onmessage := (Tts.onmessage JSON_parse atob strip_data_uri requestId).
Local Abbreviation acceptedSeqs :=
  (Tts.acceptedSeqs JSON_parse atob strip_data_uri requestId
     assistantText voice accessibilityMode).
Local Abbreviation acceptedInSession :=
  (Tts.acceptedInSession JSON_parse atob strip_data_uri requestId
     assistantText voice accessibilityMode).
Local Abbreviation sessionAfter :=
  (Tts.sessionAfter JSON_parse atob strip_data_uri requestId
     assistantText voice accessibilityMode).

Lemma sess_close c : sess (close c) = sess c.
Proof. unfold close. destruct (readyState c); reflexivity. Qed.

Lemma sess_send c m : sess (send c m) = sess c.
Proof. reflexivity. Qed.

Lemma sess_finalize c m : sess (finalize c m) = sess c.
Proof. reflexivity. Qed.

Lemma sess_onclose c b : sess (onclose c b) = sess c.
Proof.
  unfold onclose. destruct b; [reflexivity |].
  destruct (done c); reflexivity.
Qed.

Lemma sess_onerror c : sess (onerror c) = sess c.
Proof. unfold onerror. destruct (finalError c); reflexivity. Qed.

(** A chunk whose number does not pass the test leaves the locals alone. *)
Lemma on_audio_discards c payload :
  shouldAcceptAudioSeq (number_or (prop payload "seq") (Fin 0))
                       (highestSeqSeen (sess c)) = false ->
  exists c1, on_audio c payload = Ret c1 /\ sess c1 = sess c.
Proof.
  intros H. unfold Tts.on_audio. rewrite H. simpl.
  destruct (is_open (readyState c)); eexists; split; reflexivity.
Qed.


Lemma on_audio_effect c payload c1 :
  on_audio c payload = Ret c1 ->
  sess c1 = sess c \/ Accepts (sess c) (sess c1).
Proof.
  unfold Tts.on_audio.
  destruct (shouldAcceptAudioSeq _ _) eqn:Hacc; simpl.
  - destruct (base64ToUint8Array atob strip_data_uri _) as [bytes | e];
      simpl; [| discriminate].
    intros H. injection H as <-. right. exists bytes.
    destruct (is_open _); simpl; split; auto.
  - intros H. injection H as <-. left.
    destruct (is_open _); reflexivity.
Qed.

Lemma onmessage_effect c data c1 :
  onmessage c data = Ret c1 ->
  sess c1 = sess c \/ Accepts (sess c) (sess c1).
Proof.
  unfold Tts.onmessage.
  destruct (parseTtsWsEventPayload JSON_parse (JString data)) as [payload | e];
    simpl; [| discriminate].
  destruct (negb (truthy payload)); [intros H; injection H as <-; auto |].
  destruct (is_str (prop payload "type") "audio" && _).
  { apply on_audio_effect. }
  destruct (is_str (prop payload "type") "done").
  { intros H; injection H as <-. left. unfold on_done.
    destruct (js_gt _ _); rewrite sess_close; reflexivity. }
  destruct (is_str (prop payload "type") "error").
  { intros H; injection H as <-. left. unfold on_error_message.
    rewrite sess_close. reflexivity. }
  intros H; injection H as <-. auto.
Qed.

Lemma dispatch_effect c ev :
  sess (dispatch c ev) = sess c \/ Accepts (sess c) (sess (dispatch c ev)).
Proof.
  destruct ev as [| data | | stopped]; simpl.
  - destruct (readyState c); auto. destruct (handlers c); auto.
  - destruct (is_open (readyState c) && handlers c); auto.
    destruct (onmessage c data) as [c1 |] eqn:E; auto.
    apply (onmessage_effect _ _ _ E).
  - destruct (readyState c); auto;
      (destruct (handlers c); [left; rewrite sess_onerror; reflexivity | auto]).
  - destruct (readyState c); auto;
      (destruct (handlers c); [left; rewrite sess_onclose; reflexivity | auto]).
Qed.

Lemma accepts_grows s s1 :
  Accepts s s1 -> (length (chunks s) <? length (chunks s1))%nat = true.
Proof.
  intros (bytes & Hc & _). rewrite Hc, length_app. simpl.
  apply Nat.ltb_lt. lia.
Qed.

Lemma accepted_sorted evs : forall c,
  StronglySorted seq_lt (highestSeqSeen (sess c) :: acceptedSeqs c evs) /\
  List.last (acceptedSeqs c evs) (highestSeqSeen (sess c))
    = highestSeqSeen (sess (run c evs)) /\
  length (chunks (sess (run c evs)))
    = (length (chunks (sess c)) + length (acceptedSeqs c evs))%nat.
Proof.
  induction evs as [| ev evs IH]; intros c; simpl.
  - repeat split; [repeat constructor | lia].
  - destruct (IH (dispatch c ev)) as (Hs & Hl & Hn).
    destruct (dispatch_effect c ev) as [Heq | Hacc].
    + rewrite Heq in *. rewrite Nat.ltb_irrefl. simpl. auto.
    + rewrite (accepts_grows _ _ Hacc). cbn [app].
      destruct Hacc as (bytes & Hc & Hlt).
      split; [| split].
      * constructor; [exact Hs |].
        constructor; [exact Hlt |].
        apply StronglySorted_inv in Hs as [_ Hall].
        eapply List.Forall_impl; [| exact Hall].
        intros x Hx. eapply seq_lt_trans; eauto.
      * rewrite <- Hl. apply last_cons_default.
      * rewrite Hn, Hc, length_app. simpl. lia.
Qed.

Lemma session_sorted attempts : forall s,
  StronglySorted seq_lt (highestSeqSeen s :: acceptedInSession s attempts) /\
  length (chunks (sessionAfter s attempts))
    = (length (chunks s) + length (acceptedInSession s attempts))%nat.
Proof.
  induction attempts as [| evs rest IH]; intros s; simpl.
  - split; [repeat constructor | lia].
  - destruct (accepted_sorted evs (freshConn s)) as (Hs & Hl & Hn).
    destruct (IH (sess (run (freshConn s) evs))) as (Hr & Hm).
    simpl in Hs, Hl, Hn. split.
    + apply strongly_sorted_app_last; [exact Hs |].
      rewrite Hl. exact Hr.
    + rewrite Hm, Hn, length_app. lia.
Qed.


End Session.

Example accept_5_4 : shouldAcceptAudioSeq (Fin 5) (Fin 4) = true.
Proof. reflexivity. Qed.
Example accept_4_4 : shouldAcceptAudioSeq (Fin 4) (Fin 4) = false.
Proof. reflexivity. Qed.
Example accept_3_4 : shouldAcceptAudioSeq (Fin 3) (Fin 4) = false.
Proof. reflexivity. Qed.

End TtsSpec.

(** ** TTS completion check and retry ladder *)

Module TtsRetrySpec.
Import Tts.

Section Attempt.
Variable JSON_parse : string -> Exn JsValue.
Variable atob : string -> Exn string.
Variable strip_data_uri : string -> string.
Variable requestId : string.
Variables (assistantText voice : string) (accessibilityMode : bool).

Local Abbreviation dispatch :=
  (Tts.dispatch JSON_parse atob strip_data_uri requestId
     assistantText voice accessibilityMode).
Local Abbreviation run :=
  (Tts.run JSON_parse atob strip_data_uri requestId
     assistantText voice accessibilityMode).
Local Abbreviation connectOnce :=
  (Tts.connectOnce JSON_parse atob strip_data_uri requestId
     assistantText voice accessibilityMode).
Local Abbreviation attemptLoop :=
  (Tts.attemptLoop JSON_parse atob strip_data_uri requestId
     assistantText voice accessibilityMode).
Local Abbreviation collectTtsViaWebSocket :=
  (Tts.collectTtsViaWebSocket JSON_parse atob strip_data_uri requestId
     assistantText voice accessibilityMode).


Lemma closing_step d c ev :
  is_close ev = false -> Closing d c -> Closing d (dispatch c ev).
Proof.
  intros Hev [Hr Hh Hp Hd He].
  destruct ev as [| data | | stopped]; simpl in *; try discriminate.
  - rewrite Hr. split; auto.
  - rewrite Hr. simpl. split; auto.
  - rewrite Hr, Hh. unfold onerror.
    destruct (finalError c) as [e |] eqn:Hf; split; simpl; auto.
    all: try (intros Hd'; specialize (He Hd'); congruence).
Qed.

Lemma closing_run d mid : forall c,
  forallb (fun ev => negb (is_close ev)) mid = true ->
  Closing d c -> Closing d (run c mid).
Proof.
  induction mid as [| ev mid IH]; intros c Hmid Hc; simpl in *; [exact Hc |].
  apply andb_prop in Hmid as [Hev Hmid].
  apply IH; [exact Hmid |].
  apply closing_step; [| exact Hc].
  destruct (is_close ev); [discriminate | reflexivity].
Qed.

Lemma closing_close d c stopped :
  Closing d c ->
  settled (dispatch c (EvClose stopped)) =
  Some (if stopped then Rejected stoppedError
        else if d then Resolved else Rejected gapError).
Proof.
  intros [Hr Hh Hp Hd He]. simpl. rewrite Hr, Hh.
  unfold onclose. simpl. destruct stopped; simpl.
  - rewrite Hp. reflexivity.
  - rewrite Hd. destruct d; simpl; rewrite Hp; [reflexivity |].
    rewrite (He eq_refl). reflexivity.
Qed.

Lemma done_message_closes c data payload :
  live c = true ->
  JSON_parse data = Ret payload ->
  is_str (prop payload "type") "done" = true ->
  Closing (negb (js_gt (number_or (prop payload "last_seq")
                                  (highestSeqSeen (sess c)))
                       (highestSeqSeen (sess c))))
          (dispatch c (EvMessage data)).
Proof.
  unfold live. intros Hl Hp Ht.
  apply andb_prop in Hl as [Hl Hs]. apply andb_prop in Hl as [Ho Hh].
  cbn [Tts.dispatch]. rewrite Ho, Hh. cbn [andb].
  unfold Tts.onmessage, parseTtsWsEventPayload.
  cbn [typeof String.eqb Ascii.eqb Bool.eqb negb string_of try_catch].
  rewrite Hp.
  assert (Htr : truthy payload = true).
  { destruct payload; simpl in Ht; try discriminate. reflexivity. }
  assert (Hna : is_str (prop payload "type") "audio" = false).
  { destruct (prop payload "type"); simpl in *; try reflexivity.
    apply String.eqb_eq in Ht. subst. reflexivity. }
  cbn [try_catch bind]. rewrite Htr, Hna, Ht. cbn [negb andb]. unfold on_done.
  destruct (readyState c) eqn:Hr; try discriminate.
  destruct (settled c) eqn:Hset; try discriminate.
  destruct (js_gt _ _); unfold close; simpl;
    split; simpl; auto; discriminate.
Qed.

(** C2, amended.  When a [done] message reaches a live attempt, whatever
    else the socket reports before its close event, the attempt settles
    at that event: if [isStopped()] then holds it rejects with the
    [stream_stopped] error, which is not retryable; otherwise it rejects
    with the retryable [tts_ws_sequence_gap] error when the reported
    [last_seq] is above [highestSeqSeen], and resolves when [last_seq] is
    at most [highestSeqSeen] or is not a number. *)
Theorem done_message_outcome c data payload mid stopped :
  live c = true ->
  JSON_parse data = Ret payload ->
  is_str (prop payload "type") "done" = true ->
  forallb (fun ev => negb (is_close ev)) mid = true ->
  settled (run c (EvMessage data :: mid ++ [EvClose stopped])) =
    Some (if stopped then Rejected stoppedError
          else if js_gt (number_or (prop payload "last_seq")
                                   (highestSeqSeen (sess c)))
                        (highestSeqSeen (sess c))
               then Rejected gapError
               else Resolved) /\
  shouldFallbackToSse gapError = true /\
  shouldFallbackToSse stoppedError = false.
Proof.
  intros Hl Hp Ht Hmid. split; [| split; reflexivity].
  pose proof (done_message_closes c data payload Hl Hp Ht) as Hc.
  apply (closing_run _ mid _ Hmid) in Hc.
  unfold Tts.run in *. cbn [fold_left]. rewrite fold_left_app.
  cbn [fold_left].
  rewrite (closing_close _ _ stopped Hc).
  destruct stopped; [reflexivity |].
  destruct (js_gt _ _); reflexivity.
Qed.

(** *** The retry loop *)

Local Abbreviation localsBefore :=
  (Tts.localsBefore JSON_parse atob strip_data_uri requestId
     assistantText voice accessibilityMode).
Local Abbreviation attemptOutcome :=
  (Tts.attemptOutcome JSON_parse atob strip_data_uri requestId
     assistantText voice accessibilityMode).
Local Abbreviation attemptSteps :=
  (Tts.attemptSteps JSON_parse atob strip_data_uri requestId
     assistantText voice accessibilityMode).

Lemma pre_is_delay attempt :
  (if (0 <? attempt)%nat
   then [Slept (TTS_WS_RETRY_DELAYS_MS !! (attempt - 1)%nat)] else [])
  = delayBefore attempt.
Proof.
  destruct attempt as [| j]; [reflexivity |].
  simpl. rewrite Nat.sub_0_r. reflexivity.
Qed.

Lemma sleeps_app a b : sleeps (a ++ b) = sleeps a ++ sleeps b.
Proof. unfold sleeps. apply flat_map_app. Qed.

Lemma attempts_app a b : attemptsMade (a ++ b) = (attemptsMade a + attemptsMade b)%nat.
Proof. unfold attemptsMade. rewrite List.filter_app, length_app. reflexivity. Qed.

Lemma sleeps_attempt scripts k :
  sleeps (attemptSteps scripts k)
  = match k with O => [] | S j => [TTS_WS_RETRY_DELAYS_MS !! j] end.
Proof. unfold Tts.attemptSteps. rewrite sleeps_app. destruct k; reflexivity. Qed.

Lemma attempts_attempt scripts k : attemptsMade (attemptSteps scripts k) = 1%nat.
Proof. unfold Tts.attemptSteps. rewrite attempts_app. destruct k; reflexivity. Qed.

(** The loop from attempt [attempt] on, the attempts before it having
    failed with errors that are retried: it stops at the first attempt [n]
    that is not retried, or at the end of the ladder. *)
Lemma loop_from scripts fuel : forall attempt,
  (fuel + attempt = S (length TTS_WS_RETRY_DELAYS_MS))%nat ->
  (0 < fuel)%nat ->
  exists n,
    (attempt <= n <= length TTS_WS_RETRY_DELAYS_MS)%nat /\
    (forall k, (attempt <= k < n)%nat -> retried (attemptOutcome scripts k)) /\
    fst (attemptLoop fuel attempt (localsBefore scripts attempt) scripts)
    = flat_map (attemptSteps scripts) (seq attempt (S n - attempt)) /\
    snd (attemptLoop fuel attempt (localsBefore scripts attempt) scripts)
    = match attemptOutcome scripts n with
      | None => Hung
      | Some Resolved => Returned (localsBefore scripts (S n))
      | Some (Rejected e) => Threw e
      end /\
    (retried (attemptOutcome scripts n) -> n = length TTS_WS_RETRY_DELAYS_MS).
Proof.
  induction fuel as [| fuel IH]; intros attempt Hsum Hpos; [lia |].
  cbn [Tts.attemptLoop]. rewrite pre_is_delay.
  assert (Hhere : (S attempt - attempt = 1)%nat) by lia.
  destruct (scripts !! attempt) as [sc |] eqn:Hsc.
  - destruct (connectOnce (localsBefore scripts attempt) sc) as [s1 r] eqn:Hco.
    assert (Hout : attemptOutcome scripts attempt = r).
    { unfold Tts.attemptOutcome. rewrite Hsc, Hco. reflexivity. }
    assert (Hnext : localsBefore scripts (S attempt) = s1).
    { cbn [Tts.localsBefore]. rewrite Hsc, Hco. reflexivity. }
    assert (Hsteps : delayBefore attempt
                     ++ [Connected attempt
                           (highestSeqSeen (localsBefore scripts attempt)) r]
                     = attemptSteps scripts attempt).
    { unfold Tts.attemptSteps. rewrite Hout. reflexivity. }
    rewrite Hsteps.
    destruct r as [[| e] |].
    + exists attempt. rewrite Hhere, Hout, Hnext. cbn [fst snd seq flat_map].
      rewrite app_nil_r.
      split; [simpl in *; lia |]. split; [intros k Hk; lia |].
      split; [reflexivity |]. split; [reflexivity |].
      intros (e & He & _). discriminate He.
    + destruct (shouldFallbackToSse e) eqn:Hre; cbn [negb orb].
      * destruct (Nat.eqb_spec attempt (length TTS_WS_RETRY_DELAYS_MS))
          as [He | Hne].
        -- exists attempt. rewrite Hhere, Hout. cbn [fst snd seq flat_map].
           rewrite app_nil_r.
           split; [simpl in *; lia |]. split; [intros k Hk; lia |].
           split; [reflexivity |]. split; [reflexivity |].
           intros _. exact He.
        -- destruct (IH (S attempt) ltac:(lia) ltac:(simpl in *; lia))
             as (n & Hn & Hbefore & Hfst & Hsnd & Hlast).
           rewrite Hnext in Hfst, Hsnd.
           destruct (attemptLoop fuel (S attempt) s1 scripts) as [rest res].
           cbn [fst snd] in *. exists n.
           split; [lia |]. split.
           { intros k Hk. destruct (Nat.eq_dec k attempt) as [-> | Hk'].
             - rewrite Hout. exists e. split; [reflexivity | exact Hre].
             - apply Hbefore. lia. }
           split.
           { rewrite Hfst.
             replace (S n - attempt)%nat with (S (S n - S attempt)) by lia.
             reflexivity. }
           split; [exact Hsnd | exact Hlast].
      * exists attempt. rewrite Hhere, Hout. cbn [fst snd seq flat_map].
        rewrite app_nil_r.
        split; [simpl in *; lia |]. split; [intros k Hk; lia |].
        split; [reflexivity |]. split; [reflexivity |].
        intros (e' & He' & Hre'). injection He' as <-. congruence.
    + exists attempt. rewrite Hhere, Hout. cbn [fst snd seq flat_map].
      rewrite app_nil_r.
      split; [simpl in *; lia |]. split; [intros k Hk; lia |].
      split; [reflexivity |]. split; [reflexivity |].
      intros (e & He & _). discriminate He.
  - assert (Hout : attemptOutcome scripts attempt = None).
    { unfold Tts.attemptOutcome. rewrite Hsc. reflexivity. }
    exists attempt. rewrite Hhere, Hout. cbn [fst snd seq flat_map].
    rewrite app_nil_r. unfold Tts.attemptSteps. rewrite Hout.
    split; [simpl in *; lia |]. split; [intros k Hk; lia |].
    split; [reflexivity |]. split; [reflexivity |].
    intros (e & He & _). discriminate He.
Qed.

(** The waits of the attempts 0 to [n] are the first [n] delays. *)
Lemma sleeps_of_attempts scripts n :
  (n <= length TTS_WS_RETRY_DELAYS_MS)%nat ->
  sleeps (flat_map (attemptSteps scripts) (seq 0 (S n)))
  = map Some (firstn n TTS_WS_RETRY_DELAYS_MS) /\
  attemptsMade (flat_map (attemptSteps scripts) (seq 0 (S n))) = S n.
Proof.
  intros Hn. split.
  - assert (H : forall m, sleeps (flat_map (attemptSteps scripts) (seq 0 m))
                = flat_map (fun k => match k with
                                     | O => []
                                     | S j => [TTS_WS_RETRY_DELAYS_MS !! j]
                                     end) (seq 0 m)).
    { intros m. generalize 0%nat.
      induction m as [| m IH]; intros a; [reflexivity |].
      cbn [seq flat_map]. rewrite sleeps_app, sleeps_attempt, IH. reflexivity. }
    rewrite H. simpl in Hn.
    destruct n as [| [| [| [| n]]]]; try reflexivity. lia.
  - assert (H : forall m a,
                attemptsMade (flat_map (attemptSteps scripts) (seq a m)) = m).
    { induction m as [| m IH]; intros a; [reflexivity |].
      cbn [seq flat_map]. rewrite attempts_app, attempts_attempt, IH.
      reflexivity. }
    apply H.
Qed.


End Attempt.

(** C2, amended, at a concrete run: chunks 1 to 3 were buffered, [done]
    reports 5, a transport error follows and the socket closes on a stream
    that is not stopped. *)
Lemma done_message_outcome_gap :
  settled (Tts.run Sample.JSON_parse Sample.atob Sample.strip_data_uri
             "r1" "selam" "v" false Sample.gapConn
             (EvMessage (Sample.doneFrame "5") :: [EvError] ++ [EvClose false]))
  = Some (if false then Rejected stoppedError
          else if js_gt (number_or (prop (Sample.donePayload 5) "last_seq")
                                   (highestSeqSeen (sess Sample.gapConn)))
                        (highestSeqSeen (sess Sample.gapConn))
               then Rejected gapError else Resolved) /\
  shouldFallbackToSse gapError = true /\
  shouldFallbackToSse stoppedError = false.
Proof.
  apply (done_message_outcome Sample.JSON_parse Sample.atob Sample.strip_data_uri
           "r1" "selam" "v" false Sample.gapConn (Sample.doneFrame "5")
           (Sample.donePayload 5) [EvError] false);
    vm_compute; reflexivity.
Defined.

(** C2, the claim as stated fails when the stream was stopped: with a gap
    ([done] reports 5 after chunk 1) the attempt rejects with the
    [stream_stopped] error, which is not retryable, and without a gap
    ([done] reports 2 after chunks 1 and 2) it rejects as well. *)
Lemma stopped_attempt_rejects_after_done :
  snd (Tts.connectOnce Sample.JSON_parse Sample.atob Sample.strip_data_uri
         "r1" "selam" "v" false initialSession
         {| stoppedAtStart := false; socketCtor := Ret tt;
            events := [EvOpen; EvMessage (Sample.audioFrame "1" "YWJj");
                       EvMessage (Sample.doneFrame "5"); EvClose true] |})
  = Some (Rejected stoppedError) /\
  snd (Tts.connectOnce Sample.JSON_parse Sample.atob Sample.strip_data_uri
         "r1" "selam" "v" false initialSession
         {| stoppedAtStart := false; socketCtor := Ret tt;
            events := [EvOpen; EvMessage (Sample.audioFrame "1" "YWJj");
                       EvMessage (Sample.audioFrame "2" "ZGVm");
                       EvMessage (Sample.doneFrame "2"); EvClose true] |})
  = Some (Rejected stoppedError) /\
  shouldFallbackToSse stoppedError = false.
Proof. vm_compute. repeat split; reflexivity. Qed.

End TtsRetrySpec.

(** ** STT WebSocket session *)

Module SttSpec.
Import Stt.

Section Session.
Variable JSON_parse : string -> Exn JsValue.
Variable projectId : string.
Variable sessionId : option string.
Variables (language mimeType : string).

Local Abbreviation dispatch :=
  (Stt.dispatch JSON_parse projectId sessionId language mimeType).
Local Abbreviation run :=
  (Stt.run JSON_parse projectId sessionId language mimeType).


Lemma sound_socket_close s : Sound s -> Sound (socket_close s).
Proof. unfold socket_close. destruct (readyState s); auto. Qed.

Lemma sound_notify s n : Sound s -> Sound (notify s n).
Proof. auto. Qed.

Lemma sound_rejectAll s e : Sound s -> Sound (rejectAll s e).
Proof.
  intros Hsound. unfold rejectAll.
  destruct (settled s) eqn:Hs; [exact Hsound |].
  destruct Hsound as [H1 _].
  rewrite (H1 Hs). split; simpl; [discriminate |].
  intros r Hr. discriminate Hr.
Qed.

Lemma sound_resolve s : Sound s -> Sound (resolveDoneIfPossible s).
Proof.
  intros Hsound. unfold resolveDoneIfPossible.
  destruct (settled s) eqn:Hs; [exact Hsound |].
  destruct (String.eqb (trim (finalText s)) "") eqn:Ht; [exact Hsound |].
  destruct (String.eqb (finalSessionId s) "") eqn:Hi; [exact Hsound |].
  destruct Hsound as [H1 _].
  rewrite (H1 Hs). split; simpl; [discriminate |].
  intros r Hr. injection Hr as <-. simpl. auto.
Qed.

Lemma sound_dispatch s ev : Sound s -> Sound (dispatch s ev).
Proof.
  intros Hs. destruct ev as [| data | | |]; simpl.
  - destruct (readyState s); auto.
  - destruct (Tts.is_open (readyState s)); auto.
    unfold Stt.onmessage.
    destruct (parseSttWsEventPayload JSON_parse (JString data)) as [payload |];
      simpl; auto.
    repeat match goal with
           | |- context [if ?b then _ else _] => destruct b
           end; auto.
    + apply sound_socket_close, sound_resolve, Hs.
    + apply sound_socket_close, sound_rejectAll, Hs.
  - destruct (readyState s); auto; apply sound_rejectAll, Hs.
  - unfold onclose.
    destruct (readyState s); auto; simpl;
      (destruct (settled s) eqn:E;
       [split; simpl; [congruence | apply Hs] |]);
      (assert (Hs1 : Sound (mkState (finalText s) (finalSessionId s)
                              (stopped s) false (startPromise s)
                              (donePromise s) Tts.CLOSED (sent s) (notices s)))
         by (rewrite <- E; exact Hs));
      (destruct (negb _ && negb _);
       [apply sound_resolve | apply sound_rejectAll]); exact Hs1.
  - apply sound_socket_close. exact Hs.
Qed.

(** The session resolves only with a transcript that is not blank after
    trimming and a session id that is not empty. *)
Lemma resolution_needs_both evs r :
  donePromise (run (initialState sessionId) evs) = Fulfilled r ->
  String.eqb (text r) "" = false /\ String.eqb (session_id r) "" = false.
Proof.
  assert (H : forall s, Sound s -> Sound (run s evs)).
  { induction evs as [| ev evs IH]; intros s Hs; simpl; [exact Hs |].
    apply IH, sound_dispatch, Hs. }
  apply (H (initialState sessionId)). split; [reflexivity | discriminate].
Qed.

(** With both parts at hand [resolveDoneIfPossible] resolves with the
    trimmed transcript and the session id. *)
Lemma resolves_with_trimmed_text s :
  settled s = false -> donePromise s = Pending ->
  String.eqb (trim (finalText s)) "" = false ->
  String.eqb (finalSessionId s) "" = false ->
  donePromise (resolveDoneIfPossible s)
  = Fulfilled {| text := trim (finalText s); session_id := finalSessionId s |}.
Proof.
  intros Hs Hp Ht Hi. unfold resolveDoneIfPossible.
  rewrite Hs, Ht, Hi, Hp. reflexivity.
Qed.

(** A close with the transcript or the session id empty rejects, and the
    error is retryable. *)
Lemma close_without_result_rejects s :
  settled s = false -> donePromise s = Pending ->
  readyState s <> Tts.CLOSED ->
  String.eqb (finalText s) "" || String.eqb (finalSessionId s) "" = true ->
  donePromise (dispatch s EvClose)
    = Failed (buildError (JString "stt_ws_closed_before_done") true) /\
  shouldFallbackToSse (buildError (JString "stt_ws_closed_before_done") true)
    = true.
Proof.
  intros Hs Hp Hr He. split; [| reflexivity].
  cbn [Stt.dispatch]. unfold onclose, rejectAll.
  destruct (readyState s); try contradiction;
    cbn [settled finalText finalSessionId donePromise startPromise];
    rewrite Hs;
    destruct (String.eqb (finalText s) "");
    destruct (String.eqb (finalSessionId s) "");
    try discriminate He; cbn [negb andb donePromise]; rewrite Hp;
    reflexivity.
Qed.

End Session.

(** The scenario of the specification: start_ack, partial, final, done. *)
Example stt_session_resolves :
  donePromise
    (Stt.run Sample.JSON_parse "p1" None "" ""
       (initialState None)
       [EvOpen; EvMessage Sample.startAckFrame; EvMessage Sample.partialFrame;
        EvMessage (Sample.finalFrame "merhaba");
        EvMessage Sample.bareDoneFrame; EvClose])
  = Fulfilled {| text := "merhaba"; session_id := "s1" |}.
Proof. vm_compute. reflexivity. Qed.

(** C3, the code at the failing input.  The server acknowledges session
    [s1], sends a final transcript that is one space, then [done], and the
    socket closes.  No trimmed transcript is available, so the claim has the
    session reject with a retryable error; the code leaves both promises
    pending for ever: [onclose] tests the raw transcript, takes the resolve
    branch, and [resolveDoneIfPossible] tests the trimmed one and returns. *)
Lemma blank_final_leaves_done_pending :
  let s := Stt.run Sample.JSON_parse "p1" None "" ""
             (initialState None)
             [EvOpen; EvMessage Sample.startAckFrame;
              EvMessage (Sample.finalFrame " ");
              EvMessage Sample.bareDoneFrame; EvClose] in
  donePromise s = Pending /\ settled s = false /\
  readyState s = Tts.CLOSED /\
  finalText s = " " /\ trim (finalText s) = "" /\ finalSessionId s = "s1".
Proof. vm_compute. repeat split; reflexivity. Qed.

End SttSpec.

(** ** Playback generation *)

Module PlaybackSpec.
Import Playback.

Lemma stop_generation st :
  audioPlaybackGeneration (stopActiveAudioPlayback st)
  = audioPlaybackGeneration st + 1.
Proof. reflexivity. Qed.

Lemma stop_keeps_registry st :
  activeAudioElements (stopActiveAudioPlayback st) = activeAudioElements st.
Proof. reflexivity. Qed.

(** C7.  Each call of [stopActiveAudioPlayback()] adds exactly 1 to the
    generation counter, two calls add exactly 2, and a task that took its
    snapshot before the calls (the snapshot is the counter then, or any
    earlier and therefore smaller value) finds
    [wasPlaybackStoppedAfter(snapshot)] true after one call and after both. *)
Theorem stop_twice_advances_generation_by_two (st : State) :
  getAudioPlaybackGeneration (stopActiveAudioPlayback st)
    = getAudioPlaybackGeneration st + 1 /\
  getAudioPlaybackGeneration (stopActiveAudioPlayback (stopActiveAudioPlayback st))
    = getAudioPlaybackGeneration st + 2 /\
  wasPlaybackStoppedAfter (stopActiveAudioPlayback st)
    (getAudioPlaybackGeneration st) = true /\
  wasPlaybackStoppedAfter (stopActiveAudioPlayback (stopActiveAudioPlayback st))
    (getAudioPlaybackGeneration st) = true /\
  (forall snapshot, snapshot <= getAudioPlaybackGeneration st ->
     wasPlaybackStoppedAfter (stopActiveAudioPlayback (stopActiveAudioPlayback st))
       snapshot = true).
Proof.
  unfold getAudioPlaybackGeneration, wasPlaybackStoppedAfter.
  rewrite !stop_generation.
  repeat split; lia.
Qed.

(** A playing element is halted and stays registered until its own task
    unregisters it. *)
Example stop_halts_registered_element :
  let st := registerActiveAudioElement
              (mkState 4 ∅ {[ 7%nat := mkAudio (Some "blob:1") false 0 ]}) 7%nat in
  heap (stopActiveAudioPlayback st) !! 7%nat = Some (mkAudio None true 1) /\
  audioPlaybackGeneration (stopActiveAudioPlayback st) = 5.
Proof. vm_compute. split; reflexivity. Qed.

End PlaybackSpec.

(** ** Resume checkpoint *)

Module ResumeSpec.
Import Resume.

Section Storage.
Variable JSON_parse : string -> Exn JsValue.
Variable StringToNumber : string -> JsNum.
Variable ObjectToNumber : JsValue -> Exn JsNum.

Local Abbreviation getPendingAgentResume :=
  (Resume.getPendingAgentResume JSON_parse StringToNumber ObjectToNumber).

(** C10, amended.  [getPendingAgentResume()] returns [null] and leaves
    the storage alone when there is no storage, no record or an empty
    record.  A record that does not parse, or parses to [null], is removed
    and [null] is returned.  A record whose [savedAt] is a number is
    removed (and [null] returned) when it is more than 60,000 ms old, and
    returned untouched otherwise.  A record without [savedAt] is returned
    untouched: its age is NaN, which is not above the limit.  So a record
    that is returned and carries a numeric [savedAt] is at most 60,000 ms
    old. *)
Theorem pending_resume_ttl (ls : Env) (now : Z) :
  (ls = None -> getPendingAgentResume ls now = (None, JNull)) /\
  (forall m, ls = Some m ->
     match m !! RESUME_STORAGE_KEY with
     | None => getPendingAgentResume ls now = (ls, JNull)
     | Some raw =>
         if String.eqb raw "" then getPendingAgentResume ls now = (ls, JNull)
         else
           match JSON_parse raw with
           | Throw _ =>
               getPendingAgentResume ls now
               = (Some (delete RESUME_STORAGE_KEY m), JNull)
           | Ret parsed =>
               (parsed = JNull ->
                  getPendingAgentResume ls now
                  = (Some (delete RESUME_STORAGE_KEY m), JNull)) /\
               (forall props t,
                  parsed = JObject props ->
                  props !! "savedAt" = Some (JNumber (Fin t)) ->
                  getPendingAgentResume ls now
                  = if now - t >? RESUME_TTL_MS
                    then (Some (delete RESUME_STORAGE_KEY m), JNull)
                    else (ls, parsed)) /\
               (forall props,
                  parsed = JObject props ->
                  props !! "savedAt" = None ->
                  getPendingAgentResume ls now = (ls, parsed))
           end
     end) /\
  (forall props t,
     snd (getPendingAgentResume ls now) = JObject props ->
     props !! "savedAt" = Some (JNumber (Fin t)) ->
     now - t <= RESUME_TTL_MS /\ fst (getPendingAgentResume ls now) = ls).
Proof.
  split; [intros ->; reflexivity |]. split.
  - intros m ->. unfold Resume.getPendingAgentResume.
    destruct (m !! RESUME_STORAGE_KEY) as [raw |]; [| reflexivity].
    destruct (String.eqb raw ""); [reflexivity |].
    destruct (JSON_parse raw) as [parsed | e]; [| reflexivity].
    split; [| split].
    + intros ->. reflexivity.
    + intros props t -> Ht. simpl. unfold prop. rewrite Ht. simpl.
      destruct (now - t >? RESUME_TTL_MS); reflexivity.
    + intros props -> Ht. simpl. unfold prop. rewrite Ht. reflexivity.
  - intros props t. unfold Resume.getPendingAgentResume.
    destruct ls as [m |]; [| simpl; intros Hq; discriminate Hq].
    destruct (m !! RESUME_STORAGE_KEY) as [raw |];
      [| simpl; intros Hq; discriminate Hq].
    destruct (String.eqb raw ""); [simpl; intros Hq; discriminate Hq |].
    destruct (JSON_parse raw) as [parsed | e];
      [| simpl; intros Hq; discriminate Hq].
    destruct parsed as [| | b | n | str | items | props0]; simpl;
      try (intros Hq; discriminate Hq);
      try (destruct (js_gt _ _); simpl; intros Hq; discriminate Hq);
      try (destruct (ObjectToNumber _) as [x |]; simpl;
           [| intros Hq; discriminate Hq];
           destruct (js_gt _ _); simpl; intros Hq; discriminate Hq).
    unfold prop.
    destruct (props0 !! "savedAt") as [v |] eqn:Hv; simpl.
    + destruct (ToNumber StringToNumber ObjectToNumber v) as [x |] eqn:Hx;
        simpl; [| intros Hq; discriminate Hq].
      destruct (js_gt _ _) eqn:Hgt;
        simpl; [intros Hq; discriminate Hq |].
      intros Heq Ht. injection Heq as ->. rewrite Hv in Ht.
      injection Ht as ->. simpl in Hx. injection Hx as <-.
      simpl in Hgt. rewrite Z.gtb_ltb in Hgt. apply Z.ltb_ge in Hgt.
      split; [exact Hgt | reflexivity].
    + intros Heq Ht. injection Heq as ->. rewrite Hv in Ht. discriminate.
Qed.

End Storage.


(** C10, the claim as stated fails: the stored text [{}] parses, carries no
    [savedAt] at all, and is returned as the resume state at any time. *)
Lemma record_without_timestamp_is_returned :
  Resume.getPendingAgentResume Sample.JSON_parse Sample.StringToNumber
    Sample.ObjectToNumber Sample.emptyRecordStore 1000000000
  = (Sample.emptyRecordStore, JObject ∅) /\
  prop (JObject ∅) "savedAt" = JUndefined.
Proof. vm_compute. split; reflexivity. Qed.

Example fresh_record_is_returned :
  Resume.getPendingAgentResume Sample.JSON_parse Sample.StringToNumber
    Sample.ObjectToNumber Sample.stampedStore 61000
  = (Sample.stampedStore, Sample.stampedPayload 1000).
Proof. vm_compute. reflexivity. Qed.

Example stale_record_is_cleared :
  Resume.getPendingAgentResume Sample.JSON_parse Sample.StringToNumber
    Sample.ObjectToNumber Sample.stampedStore 61001
  = (Some ∅, JNull).
Proof. vm_compute. reflexivity. Qed.

Example garbled_record_is_cleared :
  Resume.getPendingAgentResume Sample.JSON_parse Sample.StringToNumber
    Sample.ObjectToNumber (Some {[ RESUME_STORAGE_KEY := "{oops" ]}) 5
  = (Some ∅, JNull).
Proof. vm_compute. reflexivity. Qed.

End ResumeSpec.

(** ** The resume message *)

Module ResumeMergeSpec.
Import Resume.


Section Merge.
Variables (href pageContext : string).

Local Abbreviation mergeStep := (Resume.mergeStep href pageContext).
Local Abbreviation synthesize := (Resume.synthesize href pageContext).
Local Abbreviation allResults := (Resume.allResults href pageContext).

Lemma answered_iff acc tc :
  answered acc tc = true <-> In (call_id tc) (map result_call_id acc).
Proof.
  unfold answered. rewrite existsb_exists, in_map_iff. split.
  - intros (r & Hin & Heq). apply String.eqb_eq in Heq. eauto.
  - intros (r & Heq & Hin). exists r. split; [exact Hin |].
    apply String.eqb_eq. exact Heq.
Qed.

Lemma synthesize_id tc : result_call_id (synthesize tc) = call_id tc.
Proof. unfold Resume.synthesize. destruct (String.eqb _ _); reflexivity. Qed.

Lemma resultsFor_app id a b :
  resultsFor id (a ++ b) = (resultsFor id a + resultsFor id b)%nat.
Proof. unfold resultsFor. rewrite map_app. apply count_occ_app. Qed.

Lemma resultsFor_absent id l :
  ~ In id (map result_call_id l) -> resultsFor id l = 0%nat.
Proof. intros H. apply count_occ_not_In. exact H. Qed.

(** The loop, from any accumulator: the accumulator stays in front, what
    is appended carries ids the accumulator lacked, and an id the
    accumulator lacked is answered once if a pending call has it and not
    at all otherwise. *)
Lemma merge_loop pend : forall acc,
  (exists extra,
     fold_left mergeStep pend acc = acc ++ extra /\
     Forall (fun r => ~ In (result_call_id r) (map result_call_id acc)) extra) /\
  (forall id, ~ In id (map result_call_id acc) ->
     resultsFor id (fold_left mergeStep pend acc)
     = if in_dec string_dec id (map call_id pend) then 1%nat else 0%nat).
Proof.
  induction pend as [| tc rest IH]; intros acc.
  - simpl. split; [exists []; rewrite app_nil_r; split; [reflexivity | constructor] |].
    intros id Hid; apply resultsFor_absent, Hid.
  - cbn [fold_left].
    assert (Hstep : mergeStep acc tc
                    = if answered acc tc then acc else acc ++ [synthesize tc])
      by reflexivity.
    rewrite Hstep. clear Hstep.
    destruct (answered acc tc) eqn:Hans.
    + destruct (IH acc) as (Hpre & Hcount).
      apply answered_iff in Hans as Hin.
      split; [exact Hpre |].
      intros id Hid. rewrite (Hcount id Hid). simpl.
      destruct (string_dec (call_id tc) id) as [E | Hne];
        [subst; contradiction |].
      destruct (in_dec string_dec id (map call_id rest)); reflexivity.
    + assert (Hout : ~ In (call_id tc) (map result_call_id acc)).
      { intros Hin. apply answered_iff in Hin. congruence. }
      destruct (IH (acc ++ [synthesize tc])) as ((extra & Heq & Hex) & Hcount).
      split.
      * exists (synthesize tc :: extra). rewrite Heq, <- app_assoc.
        split; [reflexivity |].
        constructor; [rewrite synthesize_id; exact Hout |].
        eapply List.Forall_impl; [| exact Hex].
        intros r Hr Hin. apply Hr. rewrite map_app, in_app_iff. auto.
      * intros id Hid. simpl.
        destruct (string_dec (call_id tc) id) as [E | Hne].
        -- subst id. rewrite Heq, resultsFor_app, resultsFor_app.
           rewrite (resultsFor_absent _ acc Hout).
           unfold resultsFor at 1. simpl. rewrite synthesize_id.
           destruct (string_dec (call_id tc) (call_id tc)); [| contradiction].
           assert (Hz : resultsFor (call_id tc) extra = 0%nat).
           { apply resultsFor_absent. intros Hin.
             apply in_map_iff in Hin as (r & Hr & Hin).
             rewrite List.Forall_forall in Hex. apply (Hex r Hin).
             rewrite Hr, map_app, in_app_iff. right. simpl.
             rewrite synthesize_id. auto. }
           rewrite Hz. reflexivity.
        -- rewrite Hcount.
           ++ destruct (in_dec string_dec id (map call_id rest)); reflexivity.
           ++ rewrite map_app, in_app_iff. simpl. rewrite synthesize_id.
              intros [H | [H | []]]; [exact (Hid H) | exact (Hne H)].
Qed.

(** With distinct pending ids, the result synthesized for a call the
    accumulator did not answer is in the outcome. *)
Lemma merge_synthesizes pend : forall acc,
  List.NoDup (map call_id pend) ->
  forall tc, In tc pend -> answered acc tc = false ->
  In (synthesize tc) (fold_left mergeStep pend acc).
Proof.
  induction pend as [| tc0 rest IH]; intros acc Hnd tc Hin Hna; [destruct Hin |].
  simpl in Hnd. apply List.NoDup_cons_iff in Hnd as [Hfresh Hnd].
  cbn [fold_left].
  assert (Hstep : mergeStep acc tc0
                  = if answered acc tc0 then acc else acc ++ [synthesize tc0])
    by reflexivity.
  rewrite Hstep. clear Hstep.
  destruct Hin as [<- | Hin].
  - rewrite Hna.
    destruct (merge_loop rest (acc ++ [synthesize tc0])) as ((extra & Heq & _) & _).
    rewrite Heq, !in_app_iff. left. right. simpl. auto.
  - destruct (answered acc tc0) eqn:Hans0; [apply IH; assumption |].
    apply IH; [exact Hnd | exact Hin |].
    destruct (answered (acc ++ [synthesize tc0]) tc) eqn:Hans; [| reflexivity].
    apply answered_iff in Hans.
    rewrite map_app, in_app_iff in Hans. simpl in Hans.
    rewrite synthesize_id in Hans.
    destruct Hans as [H | [H | []]].
    + apply answered_iff in H. congruence.
    + exfalso. apply Hfresh. rewrite H. apply in_map. exact Hin.
Qed.

(** Whatever the ids, the result synthesized for the first pending call
    that carries an id the accumulator lacks is in the outcome. *)
Lemma merge_synthesizes_first pend : forall acc tc,
  In tc pend -> answered acc tc = false ->
  exists tc0, firstCall (call_id tc) pend = Some tc0 /\
              call_id tc0 = call_id tc /\
              In (synthesize tc0) (fold_left mergeStep pend acc).
Proof.
  induction pend as [| tc1 rest IH]; intros acc tc Hin Hna; [destruct Hin |].
  cbn [fold_left]. unfold firstCall. cbn [List.find].
  assert (Hstep : mergeStep acc tc1
                  = if answered acc tc1 then acc else acc ++ [synthesize tc1])
    by reflexivity.
  rewrite Hstep. clear Hstep.
  destruct (String.eqb_spec (call_id tc1) (call_id tc)) as [E | Hne].
  - exists tc1. split; [reflexivity |]. split; [exact E |].
    assert (Hna1 : answered acc tc1 = false).
    { unfold answered in *. rewrite E. exact Hna. }
    rewrite Hna1.
    destruct (merge_loop rest (acc ++ [synthesize tc1])) as ((extra & Heq & _) & _).
    rewrite Heq, !in_app_iff. left. right. simpl. auto.
  - destruct Hin as [<- | Hin]; [contradiction |].
    apply IH; [exact Hin |].
    destruct (answered acc tc1); [exact Hna |].
    destruct (answered (acc ++ [synthesize tc1]) tc) eqn:Hans; [| reflexivity].
    apply answered_iff in Hans.
    rewrite map_app, in_app_iff in Hans. simpl in Hans.
    rewrite synthesize_id in Hans.
    destruct Hans as [H | [H | []]]; [| contradiction].
    apply answered_iff in H. congruence.
Qed.

(** C6, amended.  The list sent in the resume message starts with the
    completed results, unchanged.  A pending call without a completed
    result has exactly one result in it: the one synthesized for the first
    pending call that carries its call id.  A call with completed results
    has just those (they take precedence by call id).  So where the
    completed results carry no call id twice, every pending call has
    exactly one result; and where the pending calls carry no call id
    twice, the one result of a call without a completed result is the one
    synthesized for that call: for [navigate] the success text with the
    page URL and the page-context summary, for any other tool the
    could-not-run text. *)
Theorem resume_results_one_per_pending_call (st : PendingAgentResume) :
  (exists synthesized,
     allResults st = completedResults st ++ synthesized) /\
  (forall tc, In tc (pendingToolCalls st) ->
     (answered (completedResults st) tc = false ->
        resultsFor (call_id tc) (allResults st) = 1%nat) /\
     (answered (completedResults st) tc = true ->
        resultsFor (call_id tc) (allResults st)
          = resultsFor (call_id tc) (completedResults st) /\
        forall r, In r (allResults st) ->
                  result_call_id r = call_id tc ->
                  In r (completedResults st))) /\
  (forall tc, In tc (pendingToolCalls st) ->
     answered (completedResults st) tc = false ->
     exists tc0, firstCall (call_id tc) (pendingToolCalls st) = Some tc0 /\
                 call_id tc0 = call_id tc /\
                 In (synthesize tc0) (allResults st)) /\
  (List.NoDup (map result_call_id (completedResults st)) ->
   forall tc, In tc (pendingToolCalls st) ->
     resultsFor (call_id tc) (allResults st) = 1%nat) /\
  (List.NoDup (map call_id (pendingToolCalls st)) ->
   forall tc, In tc (pendingToolCalls st) ->
     answered (completedResults st) tc = false ->
     In (synthesize tc) (allResults st) /\
     result_call_id (synthesize tc) = call_id tc /\
     result (synthesize tc) =
       if String.eqb (tool tc) "navigate"
       then ("Navigasyon tamamlandı. Şu anki sayfa: " ++ href ++ newline
             ++ "Sayfa bağlamı: " ++ pageContext)%string
       else "Sayfa yeniden yüklendi, bu araç çalıştırılamadı.").
Proof.
  unfold Resume.allResults.
  destruct (merge_loop (pendingToolCalls st) (completedResults st))
    as ((extra & Heq & Hex) & Hcount).
  assert (Hnone : forall tc, In tc (pendingToolCalls st) ->
            answered (completedResults st) tc = false ->
            resultsFor (call_id tc)
              (fold_left mergeStep (pendingToolCalls st) (completedResults st))
            = 1%nat).
  { intros tc Hin Hans. rewrite Hcount.
    - destruct (in_dec string_dec (call_id tc) (map call_id (pendingToolCalls st)))
        as [_ | Hn]; [reflexivity |].
      exfalso. apply Hn, in_map, Hin.
    - intros Hi. apply answered_iff in Hi. congruence. }
  assert (Hsome : forall tc, answered (completedResults st) tc = true ->
            resultsFor (call_id tc)
              (fold_left mergeStep (pendingToolCalls st) (completedResults st))
            = resultsFor (call_id tc) (completedResults st)).
  { intros tc Hans. apply answered_iff in Hans.
    rewrite Heq, resultsFor_app.
    assert (Hz : resultsFor (call_id tc) extra = 0%nat).
    { apply resultsFor_absent. intros Hi.
      apply in_map_iff in Hi as (r & Hr & Hi).
      rewrite List.Forall_forall in Hex. apply (Hex r Hi).
      rewrite Hr. exact Hans. }
    rewrite Hz. apply Nat.add_0_r. }
  split; [exists extra; exact Heq |].
  split; [| split; [| split]].
  - intros tc Hin. split; [apply Hnone; exact Hin |].
    intros Hans. split; [apply Hsome; exact Hans |].
    intros r Hr Hid. rewrite Heq in Hr.
    apply in_app_iff in Hr as [Hr | Hr]; [exact Hr |].
    exfalso. rewrite List.Forall_forall in Hex. apply (Hex r Hr).
    rewrite Hid. apply answered_iff. exact Hans.
  - intros tc Hin Hans. apply merge_synthesizes_first; assumption.
  - intros Hc tc Hin.
    destruct (answered (completedResults st) tc) eqn:Hans;
      [| apply Hnone; assumption].
    rewrite (Hsome tc Hans). unfold resultsFor.
    apply NoDup_count_occ'; [exact Hc |].
    apply answered_iff. exact Hans.
  - intros Hp tc Hin Hans.
    split; [apply merge_synthesizes; assumption |].
    split; [apply synthesize_id |].
    unfold Resume.synthesize. destruct (String.eqb (tool tc) "navigate"); reflexivity.
Qed.

End Merge.

(** C6, amended, at a concrete checkpoint: three pending calls, the first answered;
    no call id occurs twice, so each call has one result and the two calls
    left over have the synthesized ones. *)
Lemma resume_results_sample :
  (forall tc, In tc (pendingToolCalls Sample.sampleResume) ->
     resultsFor (call_id tc)
       (allResults "https://example.com/b" "ctx" Sample.sampleResume) = 1%nat) /\
  (forall tc, In tc (pendingToolCalls Sample.sampleResume) ->
     answered (completedResults Sample.sampleResume) tc = false ->
     In (synthesize "https://example.com/b" "ctx" tc)
        (allResults "https://example.com/b" "ctx" Sample.sampleResume) /\
     result_call_id (synthesize "https://example.com/b" "ctx" tc) = call_id tc /\
     result (synthesize "https://example.com/b" "ctx" tc) =
       if String.eqb (tool tc) "navigate"
       then ("Navigasyon tamamlandı. Şu anki sayfa: " ++ "https://example.com/b"
             ++ newline ++ "Sayfa bağlamı: " ++ "ctx")%string
       else "Sayfa yeniden yüklendi, bu araç çalıştırılamadı.").
Proof.
  destruct (resume_results_one_per_pending_call
              "https://example.com/b" "ctx" Sample.sampleResume)
    as (_ & _ & _ & Hone & Hsyn).
  split; [apply Hone | apply Hsyn];
    apply NoDup_ListNoDup; refine (@bool_decide_unpack _ _ _);
    vm_compute; exact I.
Defined.

(** C6, the claim as stated fails where a call id occurs twice.  With two
    completed results for the one pending call, both are kept: the list has
    two results for that call, not one.  With two pending calls of the
    same id, a [scroll] and then a [navigate], and no completed result, the
    list has the could-not-run text alone: the navigation call gets no
    navigation result. *)
Lemma repeated_completed_id_is_kept :
  map call_id (pendingToolCalls Sample.repeatedResult) = ["c1"] /\
  map result (allResults "" "" Sample.repeatedResult) = ["a"; "b"] /\
  resultsFor "c1" (allResults "" "" Sample.repeatedResult) = 2%nat /\
  map tool (pendingToolCalls Sample.repeatedCall) = ["scroll"; "navigate"] /\
  completedResults Sample.repeatedCall = [] /\
  allResults "https://example.com/b" "ctx" Sample.repeatedCall
  = [ skippedResult (mkCall "c1" "scroll" JNull) ].
Proof. repeat split; reflexivity. Qed.

Example resume_results_sample_list :
  map result_call_id (allResults "https://example.com/b" "ctx" Sample.sampleResume)
  = ["c1"; "c2"; "c3"].
Proof. reflexivity. Qed.

End ResumeMergeSpec.

(** ** Agent streams: settlement of [done] and delivery of errors *)

Module AgentSpec.
Import Agent.


Lemma settlements_snoc l e :
  settlements (l ++ [e]) = (settlements l + if is_settle e then 1 else 0)%nat.
Proof.
  unfold settlements. rewrite filter_app, length_app.
  destruct e; reflexivity.
Qed.

Lemma singleDelivery_snoc l e : forall seen,
  singleDelivery seen (l ++ [e]) =
  singleDelivery seen l
  && (if is_rejection_error e
      then negb (seen || existsb is_handler_error l) else true).
Proof.
  induction l as [| a l IH]; intros seen; simpl.
  - destruct (is_rejection_error e); rewrite ?orb_false_r, ?andb_true_r; reflexivity.
  - destruct (is_rejection_error a) eqn:Ha.
    + rewrite IH. destruct a as [| | | | | | | | [] m | | | |]; try discriminate.
      simpl. rewrite andb_assoc. reflexivity.
    + rewrite IH. rewrite orb_assoc. reflexivity.
Qed.

Lemma handler_errors_snoc l e :
  existsb is_handler_error (l ++ [e])
  = existsb is_handler_error l || is_handler_error e.
Proof. rewrite existsb_app. simpl. rewrite orb_false_r. reflexivity. Qed.

(** The invariant reads the phase, the flag and the log only. *)
Lemma inv_same s s1 :
  phase s1 = phase s -> errorEmitted s1 = errorEmitted s -> log s1 = log s ->
  Inv s -> Inv s1.
Proof.
  intros Hp He Hl [H1 H2 H3]. split; rewrite ?Hp, ?He, ?Hl; assumption.
Qed.


Lemma inv_emit s e : plain e = true -> Inv s -> Inv (emit s e).
Proof.
  unfold plain. intros Hpl [H1 H2 H3].
  apply andb_prop in Hpl as [Hpl Hh]. apply andb_prop in Hpl as [Hs Hr].
  apply negb_true_iff in Hs, Hr, Hh.
  split; simpl.
  - rewrite settlements_snoc, Hs, H1. lia.
  - rewrite singleDelivery_snoc, Hr, H2. reflexivity.
  - intros He. rewrite handler_errors_snoc, Hh, (H3 He). reflexivity.
Qed.

Lemma inv_emit_handler_error s m :
  Inv s -> Inv (emit (set_errorEmitted s) (OnError SocketHandler m)).
Proof.
  intros [H1 H2 H3]. split; simpl.
  - rewrite settlements_snoc, H1. simpl. lia.
  - rewrite singleDelivery_snoc, H2. reflexivity.
  - discriminate.
Qed.

Lemma inv_closeActive s : Inv s -> Inv (closeActive s).
Proof.
  unfold closeActive.
  destruct (activeSocket s), (socketState s); auto; apply inv_same; reflexivity.
Qed.

Lemma waiting_late s : early (phase s) = false -> Waiting s.
Proof.
  intros H. split; intros Hp; rewrite Hp in H; discriminate H.
Qed.

Lemma waiting_same s s1 :
  phase s1 = phase s -> resolved s1 = resolved s ->
  socketLive s1 = socketLive s -> socketState s1 = socketState s ->
  Waiting s -> Waiting s1.
Proof.
  intros Hp Hr Hl Hs [H1 H2]. split; rewrite ?Hp, ?Hr, ?Hl, ?Hs; assumption.
Qed.

Lemma phase_closeActive s : phase (closeActive s) = phase s.
Proof. unfold closeActive. destruct (activeSocket s), (socketState s); reflexivity. Qed.

Section Executor.
Variable JSON_parse : string -> Exn JsValue.
Variable variant : Variant.
Variable socketCtor : Settle unit.

Local Abbreviation step := (Agent.step JSON_parse variant socketCtor).
Local Abbreviation run := (Agent.run JSON_parse variant socketCtor).
Local Abbreviation start := (Agent.start variant socketCtor).
Local Abbreviation deliver := (Agent.deliver JSON_parse variant).
Local Abbreviation onmessage := (Agent.onmessage JSON_parse).
Local Abbreviation onerror := (Agent.onerror variant).
Local Abbreviation enterAgent := (Agent.enterAgent socketCtor).

Lemma inv_resolveDone s :
  finished (phase s) = false -> Inv s -> Inv (resolveDone s).
Proof.
  intros Hp [H1 H2 H3]. rewrite Hp in H1.
  unfold resolveDone, finally.
  eapply inv_same with (s := goto (emit s DoneResolved) Finished);
    [reflexivity | | |].
  - unfold closeActive. simpl.
    destruct (activeSocket s), (socketState s); reflexivity.
  - unfold closeActive. simpl.
    destruct (activeSocket s), (socketState s); reflexivity.
  - split; simpl.
    + rewrite settlements_snoc, H1. reflexivity.
    + rewrite singleDelivery_snoc, H2. reflexivity.
    + intros He. rewrite handler_errors_snoc, (H3 He). reflexivity.
Qed.

Lemma inv_catchBlock s err :
  finished (phase s) = false -> Inv s -> Inv (catchBlock s err).
Proof.
  intros Hp [H1 H2 H3]. rewrite Hp in H1.
  unfold catchBlock, finally.
  set (s1 := if negb (errorEmitted s)
             then emit s (OnError RejectionPath (errorText err)) else s).
  eapply inv_same with (s := goto (emit s1 (DoneRejected err)) Finished);
    [reflexivity | | |].
  - unfold closeActive. simpl.
    destruct (activeSocket s1), (socketState s1); reflexivity.
  - unfold closeActive. simpl.
    destruct (activeSocket s1), (socketState s1); reflexivity.
  - subst s1. destruct (errorEmitted s) eqn:He; split; simpl.
    + rewrite settlements_snoc, H1. reflexivity.
    + rewrite singleDelivery_snoc, H2. reflexivity.
    + rewrite He. discriminate.
    + rewrite !settlements_snoc, H1. reflexivity.
    + rewrite !singleDelivery_snoc, H2, (H3 eq_refl). reflexivity.
    + intros _. rewrite !handler_errors_snoc, (H3 eq_refl). reflexivity.
Qed.

Lemma inv_wrapUp s :
  finished (phase s) = false -> Inv s -> Inv (wrapUp s).
Proof.
  intros Hp Hi. unfold wrapUp.
  destruct (negb (isStopped s)); apply inv_resolveDone; auto.
  apply inv_emit; auto.
Qed.

Lemma inv_afterAgent s reply :
  finished (phase s) = false -> Inv s -> Inv (afterAgent s reply).
Proof.
  intros Hp Hi. unfold afterAgent.
  assert (Hi1 : Inv (set_active s NoSocket)) by (revert Hi; apply inv_same; reflexivity).
  destruct (isStopped (set_active s NoSocket) || negb (truthy reply)).
  - apply inv_wrapUp; [exact Hp | exact Hi1].
  - apply (inv_emit _ (OnAudioStateChange "rendering") eq_refl) in Hi1.
    destruct Hi1 as [H1 H2 H3]. simpl in *. rewrite Hp in H1.
    split; simpl; assumption.
Qed.

Lemma inv_finish s reply : Inv s -> Inv (finish s reply).
Proof.
  intros Hi. unfold finish. destruct (resolved s); [exact Hi |].
  assert (Hi1 : Inv (set_resolved s)) by (revert Hi; apply inv_same; reflexivity).
  destruct (phase (set_resolved s)) eqn:Hp; try exact Hi1.
  apply inv_afterAgent; [rewrite Hp; reflexivity | exact Hi1].
Qed.

Lemma inv_fail s err : Inv s -> Inv (fail s err).
Proof.
  intros Hi. unfold fail. destruct (resolved s); [exact Hi |].
  assert (Hi1 : Inv (set_resolved s)) by (revert Hi; apply inv_same; reflexivity).
  destruct (phase (set_resolved s)) eqn:Hp; try exact Hi1.
  apply inv_catchBlock; [rewrite Hp; reflexivity | exact Hi1].
Qed.

Lemma inv_goto s p :
  finished (phase s) = false -> finished p = false -> Inv s -> Inv (goto s p).
Proof.
  intros Hp Hq [H1 H2 H3]. rewrite Hp in H1.
  split; simpl; rewrite ?Hq; assumption.
Qed.

Lemma inv_enterAgent s :
  finished (phase s) = false -> Inv s -> Inv (enterAgent s).
Proof.
  intros Hp Hi. unfold Agent.enterAgent.
  assert (Hi0 : Inv (goto s AwaitAgent)) by (apply inv_goto; auto).
  destruct (isStopped (goto s AwaitAgent)).
  - apply inv_afterAgent; [reflexivity | exact Hi0].
  - destruct socketCtor as [u | e].
    + revert Hi0. apply inv_same; reflexivity.
    + apply inv_catchBlock; [reflexivity | exact Hi0].
Qed.

Lemma inv_onmessage s data s1 :
  onmessage s data = Ret s1 -> Inv s -> Inv s1.
Proof.
  unfold Agent.onmessage. intros Hm Hi.
  destruct (JSON_parse data) as [d | e]; [| injection Hm as <-; exact Hi].
  destruct (member d "type") as [msgType | e]; simpl in Hm; [| discriminate].
  repeat match type of Hm with
         | (if ?b then _ else _) = _ => destruct b
         end; injection Hm as <-.
  - apply inv_emit; auto.
  - apply inv_emit; auto.
  - apply inv_emit; [reflexivity |]. revert Hi. apply inv_same; reflexivity.
  - apply inv_emit; [reflexivity |].
    assert (Hd : forall s0, Inv s0 -> Inv (set_delta s0 ""))
      by (intros s0; apply inv_same; reflexivity).
    apply Hd. destruct (negb _); [apply inv_emit; auto | exact Hi].
  - apply inv_finish.
    assert (Hi1 : Inv (emit (set_finalReply s (js_or (prop d "final_reply") (JString "")))
                            (OnAssistantDone (js_or (prop d "final_reply") (JString ""))))).
    { apply inv_emit; [reflexivity |]. revert Hi. apply inv_same; reflexivity. }
    destruct (String.eqb _ _); [apply inv_emit; auto | exact Hi1].
  - apply inv_fail, inv_emit_handler_error, Hi.
  - exact Hi.
Qed.

Lemma inv_deliver s ev : Inv s -> Inv (deliver s ev).
Proof.
  intros Hi. unfold Agent.deliver.
  destruct (negb (socketLive s)); [exact Hi |].
  destruct ev as [| data | |].
  - destruct (socketState s); try exact Hi.
    apply inv_emit; [destruct variant; reflexivity |].
    revert Hi. apply inv_same; reflexivity.
  - destruct (Tts.is_open (socketState s)); [| exact Hi].
    destruct (onmessage s data) as [s1 |] eqn:Hm; [| exact Hi].
    exact (inv_onmessage _ _ _ Hm Hi).
  - destruct (socketState s); try exact Hi;
      apply inv_fail, inv_emit_handler_error, Hi.
  - destruct (socketState s); try exact Hi;
      apply inv_finish; revert Hi; apply inv_same; reflexivity.
Qed.

Lemma inv_afterCollect s tts :
  finished (phase s) = false -> Inv s -> Inv (afterCollect s tts).
Proof.
  intros Hp Hi. unfold afterCollect.
  destruct (negb (isStopped s) && _).
  - apply inv_goto; auto.
  - apply inv_wrapUp; [exact Hp | apply inv_emit; auto].
Qed.

Lemma inv_stop s : Inv s -> Inv (stop s).
Proof.
  intros Hi. unfold stop. apply inv_closeActive.
  revert Hi. apply inv_same; reflexivity.
Qed.

Lemma inv_step s i : Inv s -> Inv (step s i).
Proof.
  intros Hi. unfold Agent.step.
  destruct i as [| [stt | e] | ev | [tts | e] | [tts | e] | [u | e]];
    try (apply inv_stop; exact Hi);
    try (apply inv_deliver; exact Hi);
    destruct (phase s) eqn:Hp; try exact Hi.
  - destruct (member stt "session_id").
    + assert (Hi1 : Inv (emit s (OnTranscription stt))) by (apply inv_emit; auto).
      destruct (isStopped (emit s (OnTranscription stt))).
      * apply inv_resolveDone; [simpl; rewrite Hp; reflexivity | exact Hi1].
      * apply inv_enterAgent; [simpl; rewrite Hp; reflexivity | exact Hi1].
    + apply inv_catchBlock; [rewrite Hp; reflexivity | exact Hi].
  - apply inv_catchBlock; [rewrite Hp; reflexivity | exact Hi].
  - apply inv_afterCollect; [simpl; rewrite Hp; reflexivity |].
    revert Hi. apply inv_same; reflexivity.
  - destruct (isStopped s).
    + apply inv_resolveDone; [rewrite Hp; reflexivity | exact Hi].
    + apply inv_goto; [rewrite Hp; reflexivity | reflexivity | exact Hi].
  - apply inv_afterCollect; [rewrite Hp; reflexivity | exact Hi].
  - apply inv_catchBlock; [rewrite Hp; reflexivity | exact Hi].
  - apply inv_wrapUp; [rewrite Hp; reflexivity | exact Hi].
  - apply inv_catchBlock; [rewrite Hp; reflexivity | exact Hi].
Qed.

Lemma inv_start : Inv start.
Proof.
  unfold Agent.start.
  assert (Hi : Inv (initialStream variant)).
  { split; [destruct variant; reflexivity | reflexivity | reflexivity]. }
  assert (Hp : finished (phase (initialStream variant)) = false)
    by (destruct variant; reflexivity).
  destruct (isStopped (initialStream variant)).
  - apply inv_resolveDone; assumption.
  - destruct variant; [exact Hi | |]; apply inv_enterAgent; assumption.
Qed.

Lemma inv_run inputs : Inv (run inputs).
Proof.
  unfold Agent.run.
  assert (H : forall s, Inv s -> Inv (fold_left step inputs s)).
  { induction inputs as [| i inputs IH]; intros s Hs; simpl; [exact Hs |].
    apply IH, inv_step, Hs. }
  apply H, inv_start.
Qed.

Lemma phase_catchBlock s err : phase (catchBlock s err) = Finished.
Proof. reflexivity. Qed.

Lemma phase_resolveDone s : phase (resolveDone s) = Finished.
Proof. reflexivity. Qed.

Lemma phase_wrapUp s : phase (wrapUp s) = Finished.
Proof. reflexivity. Qed.

Lemma phase_afterAgent s reply :
  phase (afterAgent s reply) = AwaitTtsWs \/ phase (afterAgent s reply) = Finished.
Proof.
  unfold afterAgent. destruct (_ || _); [right | left]; reflexivity.
Qed.

Lemma phase_afterCollect s tts :
  phase (afterCollect s tts) = AwaitPlayback \/
  phase (afterCollect s tts) = Finished.
Proof.
  unfold afterCollect. destruct (_ && _); [left | right]; reflexivity.
Qed.

Lemma forward_refl s : Waiting s -> Forward s s.
Proof. intros H. split; [exact H | lia]. Qed.

Lemma forward_late s s1 :
  early (phase s1) = false -> (rank (phase s) <= rank (phase s1))%nat ->
  Forward s s1.
Proof. intros H1 H2. split; [apply waiting_late, H1 | exact H2]. Qed.

Lemma forward_finished s s1 : phase s1 = Finished -> Forward s s1.
Proof.
  intros H. apply forward_late; rewrite H; [reflexivity |].
  destruct (phase s); simpl; lia.
Qed.

Lemma forward_finish s reply :
  phase s <> AwaitStt -> Waiting s -> Forward s (finish s reply).
Proof.
  intros Hn Hw. unfold finish. cbv zeta.
  destruct (resolved s) eqn:Hr; [apply forward_refl, Hw |].
  change (phase (set_resolved s)) with (phase s).
  destruct (phase s) eqn:Hp; try contradiction.
  - destruct (phase_afterAgent (set_resolved s) reply) as [H | H];
      apply forward_late; rewrite H; simpl; try reflexivity; rewrite ?Hp; simpl; lia.
  - apply forward_late; simpl; rewrite Hp; [reflexivity | lia].
  - apply forward_late; simpl; rewrite Hp; [reflexivity | lia].
  - apply forward_late; simpl; rewrite Hp; [reflexivity | lia].
  - apply forward_late; simpl; rewrite Hp; [reflexivity | lia].
Qed.

Lemma forward_fail s err :
  phase s <> AwaitStt -> Waiting s -> Forward s (fail s err).
Proof.
  intros Hn Hw. unfold fail. cbv zeta.
  destruct (resolved s) eqn:Hr; [apply forward_refl, Hw |].
  change (phase (set_resolved s)) with (phase s).
  destruct (phase s) eqn:Hp; try contradiction.
  - apply forward_finished. reflexivity.
  - apply forward_late; simpl; rewrite Hp; [reflexivity | lia].
  - apply forward_late; simpl; rewrite Hp; [reflexivity | lia].
  - apply forward_late; simpl; rewrite Hp; [reflexivity | lia].
  - apply forward_late; simpl; rewrite Hp; [reflexivity | lia].
Qed.

(** Changes that leave the phase, the socket and [resolved] alone. *)
Lemma forward_same s s0 s1 :
  phase s1 = phase s0 -> resolved s1 = resolved s0 ->
  socketLive s1 = socketLive s0 -> socketState s1 = socketState s0 ->
  Forward s s0 -> Forward s s1.
Proof.
  intros Hp Hr Hl Hs [Hw Hk]. split.
  - exact (waiting_same _ _ Hp Hr Hl Hs Hw).
  - rewrite Hp. exact Hk.
Qed.

Lemma forward_trans s s0 s1 : Forward s s0 -> Forward s0 s1 -> Forward s s1.
Proof. intros [_ H1] [Hw H2]. split; [exact Hw | lia]. Qed.

Lemma waiting_touch s s1 :
  phase s1 = phase s -> resolved s1 = resolved s ->
  socketLive s1 = socketLive s -> socketState s1 = socketState s ->
  Waiting s -> Forward s s1.
Proof.
  intros Hp Hr Hl Hs Hw. split.
  - exact (waiting_same _ _ Hp Hr Hl Hs Hw).
  - rewrite Hp. lia.
Qed.

Lemma forward_onmessage s data s1 :
  phase s <> AwaitStt -> onmessage s data = Ret s1 -> Waiting s -> Forward s s1.
Proof.
  unfold Agent.onmessage. intros Hn Hm Hw.
  destruct (JSON_parse data) as [d | e];
    [| injection Hm as <-; apply forward_refl, Hw].
  destruct (member d "type") as [msgType | e]; simpl in Hm; [| discriminate].
  repeat match type of Hm with
         | (if ?b then _ else _) = _ => destruct b
         end; injection Hm as <-.
  - apply waiting_touch; auto.
  - apply waiting_touch; auto.
  - apply waiting_touch; auto.
  - apply waiting_touch; auto; destruct (negb _); reflexivity.
  - match goal with
    | |- Forward s (finish ?x ?r) =>
        apply (forward_trans s x); [| apply forward_finish]
    end.
    + apply waiting_touch; auto; destruct (String.eqb _ _); reflexivity.
    + destruct (String.eqb _ _); exact Hn.
    + destruct (String.eqb _ _);
        (eapply waiting_same; [| | | | exact Hw]; reflexivity).
  - match goal with
    | |- Forward s (fail ?x ?r) =>
        apply (forward_trans s x); [| apply forward_fail]
    end.
    + apply waiting_touch; auto.
    + exact Hn.
    + eapply waiting_same; [| | | | exact Hw]; reflexivity.
  - apply forward_refl, Hw.
Qed.

Lemma forward_deliver s ev : Waiting s -> Forward s (deliver s ev).
Proof.
  intros Hw. unfold Agent.deliver.
  destruct (socketLive s) eqn:Hl; cbn [negb]; [| apply forward_refl, Hw].
  assert (Hn : phase s <> AwaitStt).
  { intros Hp. destruct (waiting_stt s Hw Hp) as [_ H]. congruence. }
  destruct ev as [| data | |].
  - destruct (socketState s) eqn:Hs; try (apply forward_refl, Hw).
    split; [| simpl; lia].
    destruct Hw as [H1 H2]. split; simpl; intros Hp.
    + contradiction.
    + destruct (H2 Hp) as (_ & _ & Hr). repeat split; [discriminate | exact Hr].
  - destruct (Tts.is_open (socketState s)); [| apply forward_refl, Hw].
    destruct (onmessage s data) as [s1 |] eqn:Hm; [| apply forward_refl, Hw].
    exact (forward_onmessage _ _ _ Hn Hm Hw).
  - assert (H : Forward s (onerror s)).
    { unfold Agent.onerror.
      match goal with
      | |- Forward s (fail ?x ?r) =>
          apply (forward_trans s x); [| apply forward_fail]
      end.
      - apply waiting_touch; auto.
      - exact Hn.
      - eapply waiting_same; [| | | | exact Hw]; reflexivity. }
    destruct (socketState s); try exact H. apply forward_refl, Hw.
  - assert (H : Forward s (onclose (set_socket s true Tts.CLOSED))).
    { unfold onclose, finish. cbv zeta. cbn [resolved set_socket finalReply].
      destruct (resolved s) eqn:Hr.
      - apply forward_late; [| simpl; lia]. simpl.
        destruct (phase s) eqn:Hp; try reflexivity; try contradiction.
        destruct (waiting_agent s Hw Hp) as (_ & _ & H). congruence.
      - cbn [phase set_resolved set_socket].
        destruct (phase s) eqn:Hp; try contradiction.
        + destruct (phase_afterAgent
                      (set_resolved (set_socket s true Tts.CLOSED)) (finalReply s))
            as [H | H]; apply forward_late; rewrite H; simpl; try reflexivity;
            rewrite ?Hp; simpl; lia.
        + apply forward_late; simpl; rewrite Hp; [reflexivity | lia].
        + apply forward_late; simpl; rewrite Hp; [reflexivity | lia].
        + apply forward_late; simpl; rewrite Hp; [reflexivity | lia].
        + apply forward_late; simpl; rewrite Hp; [reflexivity | lia]. }
    destruct (socketState s); try exact H. apply forward_refl, Hw.
Qed.

Lemma forward_stop s : Waiting s -> Forward s (stop s).
Proof.
  intros [H1 H2]. unfold stop, closeActive. cbn [activeSocket socketState].
  destruct (activeSocket s) eqn:Ha, (socketState s) eqn:Hs;
    (split; [split; simpl; rewrite ?Hs; intros Hp;
             [exact (H1 Hp)
             | destruct (H2 Hp) as (A & B & C);
               repeat split; try assumption; try discriminate; congruence]
            | simpl; lia]).
Qed.

Lemma forward_enterAgent s0 s :
  resolved s = false -> (rank (phase s0) <= 1)%nat -> Forward s0 (enterAgent s).
Proof.
  intros Hr Hk. unfold Agent.enterAgent.
  destruct (isStopped (goto s AwaitAgent)).
  - destruct (phase_afterAgent (goto s AwaitAgent) (JString "")) as [H | H];
      apply forward_late; rewrite H; simpl; try reflexivity; lia.
  - destruct socketCtor as [u | e].
    + split; [| simpl; exact Hk].
      split; simpl; intros Hp; [discriminate |].
      repeat split; [discriminate | exact Hr].
    + apply forward_finished. reflexivity.
Qed.

Lemma forward_step s i : Waiting s -> Forward s (step s i).
Proof.
  intros Hw. unfold Agent.step.
  destruct i as [| [stt | e] | ev | [tts | e] | [tts | e] | [u | e]];
    try (apply forward_stop; exact Hw);
    try (apply forward_deliver; exact Hw);
    destruct (phase s) eqn:Hp; try (apply forward_refl; exact Hw);
    try (apply forward_finished; reflexivity).
  - destruct (member stt "session_id");
      [| apply forward_finished; reflexivity].
    destruct (isStopped (emit s (OnTranscription stt)));
      [apply forward_finished; reflexivity |].
    apply forward_enterAgent; [| rewrite Hp; simpl; lia].
    simpl. exact (proj1 (waiting_stt s Hw Hp)).
  - destruct (phase_afterCollect (set_active s NoSocket) tts) as [H | H];
      apply forward_late; rewrite H; simpl; try reflexivity; rewrite ?Hp; simpl; lia.
  - destruct (isStopped s); [apply forward_finished; reflexivity |].
    apply forward_late; simpl; [reflexivity | rewrite Hp; simpl; lia].
  - destruct (phase_afterCollect s tts) as [H | H];
      apply forward_late; rewrite H; simpl; try reflexivity; rewrite ?Hp; simpl; lia.
Qed.

Lemma waiting_start : Waiting start.
Proof.
  unfold Agent.start. cbn [isStopped initialStream].
  destruct variant.
  - split; simpl; intros H; [split; reflexivity | discriminate].
  - apply (forward_enterAgent (initialStream TextChat)); [reflexivity | simpl; lia].
  - apply (forward_enterAgent (initialStream ResumeChat)); [reflexivity | simpl; lia].
Qed.

Lemma waiting_run inputs : Waiting (run inputs).
Proof.
  unfold Agent.run.
  assert (H : forall s, Waiting s -> Waiting (fold_left step inputs s)).
  { induction inputs as [| i inputs IH]; intros s Hs; simpl; [exact Hs |].
    apply IH, forward_step, Hs. }
  apply H, waiting_start.
Qed.

(** The executor never goes back. *)
Lemma rank_run_from more : forall s,
  Waiting s -> (rank (phase s) <= rank (phase (fold_left step more s)))%nat.
Proof.
  induction more as [| i more IH]; intros s Hw; simpl; [lia |].
  destruct (forward_step s i Hw) as [Hw1 Hk].
  specialize (IH _ Hw1). lia.
Qed.

(** The settlement of the awaited operation moves it on. *)
Lemma advance s i :
  Waiting s -> settlesAwaited (phase s) i = true ->
  (rank (phase s) < rank (phase (step s i)))%nat.
Proof.
  intros Hw Hi. unfold Agent.step.
  destruct (phase s) eqn:Hp;
    destruct i as [| [stt | e] | [| data | |] | [tts | e] | [tts | e] | [u | e]];
    try discriminate Hi; rewrite ?Hp; simpl rank;
    rewrite ?phase_catchBlock, ?phase_wrapUp; simpl rank; try lia.
  - destruct (member stt "session_id");
      [| rewrite phase_catchBlock; simpl; lia].
    destruct (isStopped s) eqn:Hst;
      [rewrite phase_resolveDone; simpl; lia |].
    unfold Agent.enterAgent.
    change (isStopped (goto (emit s (OnTranscription stt)) AwaitAgent))
      with (isStopped s).
    rewrite Hst.
    destruct socketCtor; [simpl; lia | rewrite phase_catchBlock; simpl; lia].
  - destruct (waiting_agent s Hw Hp) as (Hl & Hs & Hr).
    unfold Agent.deliver. rewrite Hl. cbn [negb].
    assert (H : (1 < rank (phase (onclose (set_socket s true Tts.CLOSED))))%nat).
    { unfold onclose, finish. cbv zeta. cbn [resolved set_socket]. rewrite Hr.
      cbn [phase set_resolved set_socket]. rewrite Hp.
      destruct (phase_afterAgent
                  (set_resolved (set_socket s true Tts.CLOSED))
                  (finalReply (set_socket s true Tts.CLOSED)))
        as [H | H]; rewrite H; simpl; lia. }
    destruct (socketState s); try exact H. contradiction.
  - destruct (phase_afterCollect (set_active s NoSocket) tts) as [H | H];
      rewrite H; simpl; lia.
  - destruct (isStopped s); [rewrite phase_resolveDone |]; simpl; lia.
  - destruct (phase_afterCollect s tts) as [H | H]; rewrite H; simpl; lia.
Qed.

(** C8, the part that holds of the streams.  In every run of a voice,
    text or resume stream, whatever the sockets, the services and the
    caller do and in whatever order: the [done] promise has its [resolve]
    or [reject] called at most once, and exactly once when the executor
    has run to its end; the settlement of the operation the executor
    awaits (for the agent promise, the socket's close event at the latest)
    moves the executor past that await for good, and there are five awaits
    at most, so [done] is pending only while an awaited operation is; and
    the rejection path never calls [onError] after a socket handler has
    called it. *)
Theorem done_settles_once_and_errors_are_reported_once (inputs : list Input) :
  (settlements (log (run inputs)) <= 1)%nat /\
  (settlements (log (run inputs)) = 1%nat <-> phase (run inputs) = Finished) /\
  (forall i more,
     settlesAwaited (phase (run inputs)) i = true ->
     (rank (phase (run inputs)) < rank (phase (run (inputs ++ i :: more))))%nat) /\
  (rank (phase (run inputs)) = 5%nat <-> phase (run inputs) = Finished) /\
  singleDelivery false (log (run inputs)) = true /\
  (errorEmitted (run inputs) = false ->
     existsb is_handler_error (log (run inputs)) = false).
Proof.
  destruct (inv_run inputs) as [H1 H2 H3].
  split; [| split; [| split; [| split; [| split; assumption]]]].
  - rewrite H1. destruct (finished _); lia.
  - rewrite H1. destruct (phase (run inputs)); simpl; split;
      intros H; try discriminate; reflexivity.
  - intros i more Hi.
    pose proof (waiting_run inputs) as Hw.
    pose proof (advance _ _ Hw Hi) as Ha.
    destruct (forward_step _ i Hw) as [Hw1 _].
    pose proof (rank_run_from more _ Hw1) as Hm.
    unfold Agent.run in *. rewrite fold_left_app. cbn [fold_left]. lia.
  - destruct (phase (run inputs)); simpl; split; intros H;
      try discriminate; reflexivity.
Qed.

End Executor.

(** A text turn: the server answers with an error message.  The handler
    reports it through [onError]; the rejection path rejects [done] with it
    and stays silent. *)
Example text_turn_server_error :
  log (Agent.run Sample.JSON_parse TextChat (Fulfilled tt)
         [Socket WsOpen; Socket (WsMessage Sample.agentErrorFrame); Socket WsClose])
  = [ SocketSend "start";
      OnError SocketHandler (JString "boom");
      DoneRejected (newError (JString "boom")) ].
Proof. vm_compute. reflexivity. Qed.

(** A voice turn whose transcription fails: no handler ran, the rejection
    path reports the error and rejects. *)
Example voice_turn_stt_failure :
  log (Agent.run Sample.JSON_parse Voice (Fulfilled tt)
         [SttSettled (Failed (newError (JString "HTTP 500")))])
  = [ OnError RejectionPath (JString "HTTP 500");
      DoneRejected (newError (JString "HTTP 500")) ].
Proof. vm_compute. reflexivity. Qed.

(** A resume turn that runs to the end and resolves. *)
Example resume_turn_resolves :
  let s := Agent.run Sample.JSON_parse ResumeChat (Fulfilled tt)
             [Socket WsOpen; Socket (WsMessage Sample.agentDoneFrame);
              TtsWsSettled (Fulfilled (Tts.mkSession [[]] (JString "audio/mpeg")
                                                     (Fin 16000) (Fin 1)));
              Socket WsClose; PlaybackSettled (Fulfilled tt)] in
  phase s = Finished /\ settlements (log s) = 1%nat /\
  List.last (log s) HideAgentCursor = DoneResolved.
Proof. vm_compute. repeat split; reflexivity. Qed.

(** A text turn and a voice turn that run to the end: [done] settles. *)
Example turns_settle :
  phase (Agent.run Sample.JSON_parse TextChat (Fulfilled tt)
           [Socket WsOpen; Socket (WsMessage Sample.agentDoneFrame);
            Socket WsClose;
            TtsWsSettled (Failed (newError (JString "tts_ws_closed")));
            SseSettled (Fulfilled (Tts.mkSession [[]] (JString "audio/mpeg")
                                                 (Fin 16000) (Fin 1)));
            PlaybackSettled (Fulfilled tt)])
  = Finished /\
  phase (Agent.run Sample.JSON_parse Voice (Fulfilled tt)
           [SttSettled (Fulfilled Sample.sttResult); Stop; Socket WsClose])
  = Finished.
Proof. vm_compute. split; reflexivity. Qed.

(** C8.  A text turn in which the server answers with an error message.
    The socket handler reports the message through [onError], and the chat
    window shows it; the stream then rejects [done] with an [Error] of the
    same message, and the [catch] of [runAgentForUserText] shows it a second
    time.  The same events in a voice turn give one line: the [catch] of
    [handleAudioBlob] shows nothing, the error being "already shown via
    onError callback". *)
Lemma reported_error_is_shown_again_in_text_chat :
  log (Agent.run Sample.JSON_parse TextChat (Fulfilled tt)
         [Socket WsOpen; Socket (WsMessage Sample.agentErrorFrame)])
  = [ SocketSend "start";
      OnError SocketHandler (JString "boom");
      DoneRejected (newError (JString "boom")) ] /\
  errorLines TextChat
    (log (Agent.run Sample.JSON_parse TextChat (Fulfilled tt)
            [Socket WsOpen; Socket (WsMessage Sample.agentErrorFrame)]))
  = [ ErrorLine (JString "boom"); ErrorLine (JString "boom") ] /\
  errorLines Voice
    (log (Agent.run Sample.JSON_parse Voice (Fulfilled tt)
            [SttSettled (Fulfilled Sample.sttResult); Socket WsOpen;
             Socket (WsMessage Sample.agentErrorFrame)]))
  = [ ErrorLine (JString "boom") ].
Proof. vm_compute. repeat split; reflexivity. Qed.

End AgentSpec.

(** ** The scenarios of the specification, run on the model *)

Module Scenarios.
Import Tts.


(** Chunks 1 and 2, chunk 2 again, then [done] reporting 2: two chunks are
    buffered and the call returns after one attempt. *)
Example duplicate_chunk_is_ignored :
  Sample.collect [Sample.script [EvOpen; EvMessage (Sample.audioFrame "1" "YWJj");
                   EvMessage (Sample.audioFrame "2" "ZGVm");
                   EvMessage (Sample.audioFrame "2" "ZGVm");
                   EvMessage (Sample.doneFrame "2"); EvClose false]]
  = ([Connected 0 (Fin 0) (Some Resolved)],
     Returned {| chunks := [String.list_byte_of_string "abc";
                            String.list_byte_of_string "def"];
                 mimeType := JString "audio/mpeg";
                 sampleRate := Fin 16000;
                 highestSeqSeen := Fin 2 |}).
Proof. vm_compute. reflexivity. Qed.

(** Chunks 1 to 3, then [done] reporting 5: the attempt rejects with the
    sequence-gap error, the loop waits 250 ms and reconnects announcing
    [last_seq: 3]. *)
Example sequence_gap_reconnects :
  fst (Sample.collect [Sample.script [EvOpen; EvMessage (Sample.audioFrame "1" "YWJj");
                        EvMessage (Sample.audioFrame "2" "ZGVm");
                        EvMessage (Sample.audioFrame "3" "YWJj");
                        EvMessage (Sample.doneFrame "5"); EvClose false];
                Sample.script [EvOpen; EvMessage (Sample.doneFrame "3"); EvClose false]])
  = [Connected 0 (Fin 0) (Some (Rejected gapError));
     Slept (Some 250);
     Connected 1 (Fin 3) (Some Resolved)].
Proof. vm_compute. reflexivity. Qed.

(** Four attempts that all end in a transport error: the waits are 250,
    750 and 1500 ms and the fourth error is thrown to the caller. *)
Example ladder_exhausted_throws :
  let broken := Sample.script [EvError; EvClose false] in
  let transport := buildError (JString "tts_ws_transport_error") true in
  Sample.collect [broken; broken; broken; broken; broken]
  = ([Connected 0 (Fin 0) (Some (Rejected transport)); Slept (Some 250);
      Connected 1 (Fin 0) (Some (Rejected transport)); Slept (Some 750);
      Connected 2 (Fin 0) (Some (Rejected transport)); Slept (Some 1500);
      Connected 3 (Fin 0) (Some (Rejected transport))],
     Threw transport).
Proof. vm_compute. reflexivity. Qed.

(** A stream stopped while the socket closes: the [stream_stopped] error is
    not retryable and is thrown at once, the second script is never used. *)
Example fatal_error_is_not_retried :
  let fatal := Sample.script [EvOpen; EvClose true] in
  Sample.collect [fatal; Sample.script [EvOpen; EvMessage Sample.bareDoneFrame; EvClose false]]
  = ([Connected 0 (Fin 0) (Some (Rejected stoppedError))],
     Threw stoppedError).
Proof. vm_compute. reflexivity. Qed.

End Scenarios.

(** ** Strings and trimming *)

Module JsSpec.

Lemma append_cons (c : Ascii.ascii) (a b : string) :
  (String c a ++ b)%string = String c (a ++ b)%string.
Proof. reflexivity. Qed.

Lemma append_empty_l (b : string) : ("" ++ b)%string = b.
Proof. reflexivity. Qed.

Lemma append_empty_r (s : string) : (s ++ "")%string = s.
Proof.
  induction s as [| c s IH]; [reflexivity |]. rewrite append_cons, IH. reflexivity.
Qed.

Lemma append_assoc (a b c : string) : ((a ++ b) ++ c)%string = (a ++ (b ++ c))%string.
Proof.
  induction a as [| x a IH]; [reflexivity |]. rewrite !append_cons, IH. reflexivity.
Qed.

Lemma length_append (a b : string) :
  String.length (a ++ b) = (String.length a + String.length b)%nat.
Proof.
  induction a as [| c a IH]; [reflexivity |]. rewrite append_cons. simpl.
  rewrite IH. reflexivity.
Qed.

(** Induction on the length of a string: white space is read up to three
    bytes at a time. *)
Lemma string_length_ind (P : string -> Prop) :
  (forall s, (forall t, (String.length t < String.length s)%nat -> P t) -> P s) ->
  forall s, P s.
Proof.
  intros H s.
  assert (Hn : forall n t, (String.length t < n)%nat -> P t).
  { induction n as [| n IH]; intros t Ht; [lia |].
    apply H. intros u Hu. apply IH. lia. }
  apply (Hn (S (String.length s))). lia.
Qed.

(** One step of [trimStart] and of [all_space], by the width of the white
    space in front. *)
Lemma trim_start_none (s : string) : space_width s = 0%nat -> trim_start s = s.
Proof.
  destruct s as [| c1 [| c2 [| c3 r3]]]; cbn [space_width trim_start];
    try reflexivity;
    destruct (is_space c1); try discriminate; try reflexivity;
    destruct (is_space2 c1 c2); try discriminate; try reflexivity;
    destruct (is_space3 c1 c2 c3); try discriminate; reflexivity.
Qed.

Lemma all_space_none (s : string) :
  space_width s = 0%nat -> all_space s = String.eqb s "".
Proof.
  destruct s as [| c1 [| c2 [| c3 r3]]]; cbn [space_width all_space];
    try reflexivity;
    destruct (is_space c1); try discriminate; try reflexivity;
    destruct (is_space2 c1 c2); try discriminate; try reflexivity;
    destruct (is_space3 c1 c2 c3); try discriminate; reflexivity.
Qed.

(** A string that starts with white space: that white space [w], then the
    rest, on which [trimStart] and [all_space] go on whatever follows. *)
Lemma space_in_front (s : string) :
  space_width s <> 0%nat ->
  exists w r,
    s = (w ++ r)%string /\
    (String.length r < String.length s)%nat /\
    (forall t, space_width (w ++ t) <> 0%nat /\
               trim_start (w ++ t) = trim_start t /\
               all_space (w ++ t) = all_space t).
Proof.
  destruct s as [| c1 r1]; [intros H; contradiction |].
  cbn [space_width].
  destruct (is_space c1) eqn:E1.
  { intros _. exists (String c1 ""), r1.
    split; [reflexivity |]. split; [simpl; lia |]. intros t.
    rewrite !append_cons, append_empty_l.
    cbn [space_width trim_start all_space]. rewrite E1.
    repeat split; try reflexivity. discriminate. }
  destruct r1 as [| c2 r2]; [intros H; contradiction |].
  destruct (is_space2 c1 c2) eqn:E2.
  { intros _. exists (String c1 (String c2 "")), r2.
    split; [reflexivity |]. split; [simpl; lia |]. intros t.
    rewrite !append_cons, append_empty_l.
    cbn [space_width trim_start all_space]. rewrite E1, E2.
    repeat split; try reflexivity. discriminate. }
  destruct r2 as [| c3 r3]; [intros H; contradiction |].
  destruct (is_space3 c1 c2 c3) eqn:E3; [| intros H; contradiction].
  intros _. exists (String c1 (String c2 (String c3 ""))), r3.
  split; [reflexivity |]. split; [simpl; lia |]. intros t.
  rewrite !append_cons, append_empty_l.
  cbn [space_width trim_start all_space]. rewrite E1, E2, E3.
  repeat split; try reflexivity. discriminate.
Qed.

(** What [trimStart] returns does not start with white space. *)
Lemma trim_start_width (s : string) : space_width (trim_start s) = 0%nat.
Proof.
  induction s as [s IH] using string_length_ind.
  destruct (Nat.eq_dec (space_width s) 0%nat) as [E | E].
  - rewrite (trim_start_none s E). exact E.
  - destruct (space_in_front s E) as (w & r & -> & Hlt & Hw).
    destruct (Hw r) as (_ & -> & _). apply IH, Hlt.
Qed.

(** [trimStart] removes white space in front and nothing else. *)
Lemma trim_start_split (s : string) :
  exists w, s = (w ++ trim_start s)%string /\
            forall t, all_space (w ++ t) = all_space t.
Proof.
  induction s as [s IH] using string_length_ind.
  destruct (Nat.eq_dec (space_width s) 0%nat) as [E | E].
  - exists ""%string. rewrite (trim_start_none s E). split; reflexivity.
  - destruct (space_in_front s E) as (w & r & -> & Hlt & Hw).
    destruct (IH r Hlt) as (w1 & Hr & Hw1).
    exists (w ++ w1)%string. split.
    + destruct (Hw r) as (_ & -> & _). rewrite append_assoc, <- Hr. reflexivity.
    + intros t. rewrite append_assoc. destruct (Hw (w1 ++ t)%string) as (_ & _ & ->).
      apply Hw1.
Qed.

Lemma all_space_app (a b : string) :
  all_space a = true -> all_space (a ++ b) = all_space b.
Proof.
  induction a as [a IH] using string_length_ind. intros Ha.
  destruct (Nat.eq_dec (space_width a) 0%nat) as [E | E].
  - rewrite (all_space_none a E) in Ha. apply String.eqb_eq in Ha. subst a.
    reflexivity.
  - destruct (space_in_front a E) as (w & r & -> & Hlt & Hw).
    destruct (Hw r) as (_ & _ & Hr). rewrite Hr in Ha.
    rewrite append_assoc. destruct (Hw (r ++ b)%string) as (_ & _ & ->).
    apply IH; assumption.
Qed.

Lemma space_width_app (p t : string) :
  space_width p <> 0%nat -> space_width (p ++ t) <> 0%nat.
Proof.
  intros E. destruct (space_in_front p E) as (w & r & -> & _ & Hw).
  rewrite append_assoc. apply (Hw (r ++ t)%string).
Qed.

(** [trimEnd] removes white space at the end and nothing else. *)
Lemma trim_end_split (s : string) :
  exists w, s = (trim_end s ++ w)%string /\ all_space w = true.
Proof.
  induction s as [| c r IH]; [exists ""%string; split; reflexivity |].
  cbn [trim_end]. destruct (all_space (String c r)) eqn:E.
  - exists (String c r). split; [reflexivity | exact E].
  - destruct IH as (w & Hr & Hw). exists w.
    rewrite append_cons, <- Hr. split; [reflexivity | exact Hw].
Qed.

Lemma trim_end_blank (s : string) :
  trim_end s = ""%string <-> all_space s = true.
Proof.
  destruct s as [| c r]; [split; reflexivity |]. cbn [trim_end].
  destruct (all_space (String c r)); split; try reflexivity; discriminate.
Qed.

Lemma trim_end_idem (s : string) : trim_end (trim_end s) = trim_end s.
Proof.
  induction s as [| c r IH]; [reflexivity |]. cbn [trim_end].
  destruct (all_space (String c r)) eqn:E; [reflexivity |].
  cbn [trim_end].
  destruct (all_space (String c (trim_end r))) eqn:E2; [| rewrite IH; reflexivity].
  exfalso. destruct (trim_end_split r) as (w & Hr & Hw).
  assert (H : all_space (String c (trim_end r) ++ w) = true)
    by (rewrite (all_space_app _ w E2); exact Hw).
  rewrite append_cons, <- Hr in H. congruence.
Qed.

(** [trim] is idempotent. *)
Lemma trim_idem (s : string) : trim (trim s) = trim s.
Proof.
  unfold trim.
  assert (H : trim_start (trim_end (trim_start s)) = trim_end (trim_start s)).
  { apply trim_start_none.
    destruct (Nat.eq_dec (space_width (trim_end (trim_start s))) 0%nat)
      as [E | E]; [exact E |].
    exfalso. destruct (trim_end_split (trim_start s)) as (w & Hs & _).
    apply (space_width_app _ w) in E. rewrite <- Hs in E.
    apply E, trim_start_width. }
  rewrite H. apply trim_end_idem.
Qed.

(** A text trims to nothing exactly when it is white space throughout. *)
Lemma trim_blank (s : string) : trim s = ""%string <-> all_space s = true.
Proof.
  unfold trim. rewrite trim_end_blank.
  destruct (trim_start_split s) as (w & Hs & Hw).
  rewrite Hs at 2. rewrite Hw. reflexivity.
Qed.

(** Non-breaking spaces and byte-order marks are trimmed like blanks. *)
Example trim_unicode_space :
  let nbsp := String (Ascii.ascii_of_nat 194) (String (Ascii.ascii_of_nat 160) "") in
  let bom := String (Ascii.ascii_of_nat 239)
               (String (Ascii.ascii_of_nat 187) (String (Ascii.ascii_of_nat 191) "")) in
  trim (nbsp ++ " hi" ++ bom ++ nbsp) = "hi"%string /\
  trim (nbsp ++ bom) = ""%string.
Proof. vm_compute. split; reflexivity. Qed.

End JsSpec.

(** ** Binary codecs and audio containers *)

Module CodecSpec.
Import Codec JsSpec.

Lemma string_of_bytes_app (a b : Bytes) :
  String.string_of_list_byte (a ++ b)
  = (String.string_of_list_byte a ++ String.string_of_list_byte b)%string.
Proof.
  unfold String.string_of_list_byte.
  induction a as [| x a IH]; [reflexivity |].
  cbn [app map String.string_of_list_ascii]. rewrite append_cons, IH. reflexivity.
Qed.

Lemma chunkSize_pos : (0 < chunkSize)%nat.
Proof. unfold chunkSize. lia. Qed.

(** The loop appends the bytes from index [i] on, whatever the chunk
    boundaries. *)
Lemma chunkLoop_appends (bytes : Bytes) : forall fuel i binary,
  (length bytes - i <= fuel)%nat ->
  chunkLoop fuel i bytes binary
  = (binary ++ String.string_of_list_byte (skipn i bytes))%string.
Proof.
  induction fuel as [| fuel IH]; intros i binary Hfuel.
  - simpl. rewrite skipn_all2 by lia. simpl. symmetry. apply append_empty_r.
  - cbn [chunkLoop]. destruct (Nat.ltb_spec i (length bytes)) as [Hlt | Hge].
    + rewrite IH by (pose proof chunkSize_pos; lia).
      rewrite append_assoc, <- string_of_bytes_app. f_equal. f_equal.
      rewrite Nat.add_comm, <- skipn_skipn. apply firstn_skipn.
    + rewrite skipn_all2 by lia. simpl. symmetry. apply append_empty_r.
Qed.

Lemma after_prefix_app (p s : string) : after_prefix p (p ++ s) = Some s.
Proof.
  induction p as [| c p IH]; [reflexivity |].
  rewrite append_cons. cbn [after_prefix]. rewrite Ascii.eqb_refl. exact IH.
Qed.

(** Base64 text holds no colon, so the prefix pattern cannot match it. *)
Lemma strip_base64_text (s : string) :
  all_chars is_base64_char s = true -> stripDataUri s = s.
Proof.
  intros H. unfold stripDataUri.
  assert (Hn : after_prefix "data:audio/" s = None); [| rewrite Hn; reflexivity].
  destruct s as [| c1 [| c2 [| c3 [| c4 [| c5 r]]]]]; cbn [after_prefix];
    repeat match goal with
           | |- (if ?b then _ else _) = None => destruct b eqn:?; [| reflexivity]
           end; try reflexivity.
  exfalso. cbn [all_chars] in H.
  match goal with E : Ascii.eqb _ c5 = true |- _ => apply Ascii.eqb_eq in E; subst c5 end.
  repeat (apply andb_prop in H as [? H]). discriminate.
Qed.

(** X1.  Encoding bytes with [blobToBase64] and decoding the text with
    [base64ToUint8Array] gives the bytes back, for any length (below, at
    and above the 0x8000 chunk boundary), as soon as the browser's [atob]
    inverts [btoa] on the binary string and [btoa] yields base64 text. *)
Theorem base64_round_trip
    (atob : string -> Exn string) (btoa : string -> string) (bytes : Bytes) :
  atob (btoa (String.string_of_list_byte bytes))
    = Ret (String.string_of_list_byte bytes) ->
  all_chars is_base64_char (btoa (String.string_of_list_byte bytes)) = true ->
  base64ToUint8Array atob (blobToBase64 btoa bytes) = Ret bytes.
Proof.
  intros Hinv Htext. unfold base64ToUint8Array, blobToBase64.
  rewrite chunkLoop_appends by lia. change (skipn 0 bytes) with bytes.
  rewrite append_empty_l.
  rewrite (strip_base64_text _ Htext), Hinv. cbn [bind].
  rewrite String.list_byte_of_string_of_list_byte. reflexivity.
Qed.

(** X1 at the bytes of "abc". *)
Lemma base64_round_trip_abc :
  base64ToUint8Array Sample.atob
    (blobToBase64 sampleBtoa (String.list_byte_of_string "abc"))
  = Ret (String.list_byte_of_string "abc").
Proof.
  apply (base64_round_trip Sample.atob sampleBtoa (String.list_byte_of_string "abc"));
    vm_compute; reflexivity.
Defined.

Lemma skip_word_app (w rest : string) :
  all_chars is_word w = true ->
  skip_word rest = rest ->
  skip_word (w ++ rest) = rest.
Proof.
  intros H Hrest. induction w as [| c w IH]; [exact Hrest |].
  cbn [all_chars] in H. apply andb_prop in H as [Hc Hw].
  rewrite append_cons. cbn [skip_word]. rewrite Hc. apply IH, Hw.
Qed.

(** X2.  A data-URI prefix [data:audio/<subtype>;base64,] with a subtype
    of one or more word characters is cut off and the rest is what [atob]
    decodes; an exception of [atob] is not caught. *)
Theorem data_uri_prefix_is_stripped
    (atob : string -> Exn string) (subtype payload : string) :
  subtype <> EmptyString ->
  all_chars is_word subtype = true ->
  stripDataUri ("data:audio/" ++ subtype ++ ";base64," ++ payload) = payload /\
  base64ToUint8Array atob ("data:audio/" ++ subtype ++ ";base64," ++ payload)
    = match atob payload with
      | Ret binary => Ret (String.list_byte_of_string binary)
      | Throw e => Throw e
      end.
Proof.
  intros Hne Hw.
  assert (Hs : stripDataUri ("data:audio/" ++ subtype ++ ";base64," ++ payload)
               = payload).
  { unfold stripDataUri. rewrite after_prefix_app.
    rewrite (skip_word_app _ _ Hw) by reflexivity.
    assert (Hlen : (String.length (";base64," ++ payload)
                    <? String.length (subtype ++ ";base64," ++ payload))%nat = true).
    { rewrite (length_append subtype). apply Nat.ltb_lt.
      destruct subtype; [contradiction | simpl; lia]. }
    rewrite Hlen, after_prefix_app. reflexivity. }
  split; [exact Hs |].
  unfold base64ToUint8Array. rewrite Hs.
  destruct (atob payload); reflexivity.
Qed.

(** X2 at the subtype [webm]. *)
Lemma data_uri_prefix_webm :
  stripDataUri ("data:audio/" ++ "webm" ++ ";base64," ++ "YWJj") = "YWJj" /\
  base64ToUint8Array Sample.atob ("data:audio/" ++ "webm" ++ ";base64," ++ "YWJj")
    = match Sample.atob "YWJj" with
      | Ret binary => Ret (String.list_byte_of_string binary)
      | Throw e => Throw e
      end.
Proof.
  apply (data_uri_prefix_is_stripped Sample.atob "webm" "YWJj");
    [discriminate | reflexivity].
Defined.

Example data_uri_other_media_kept :
  stripDataUri "data:image/png;base64,AAAA" = "data:image/png;base64,AAAA" /\
  stripDataUri "data:audio/;base64,AAAA" = "data:audio/;base64,AAAA".
Proof. split; reflexivity. Qed.

(** *** WAV header *)

Lemma Z_of_byte_of_Z (z : Z) : Z_of_byte (byte_of_Z z) = z mod 256.
Proof.
  unfold Z_of_byte, byte_of_Z.
  assert (Hr : 0 <= z mod 256 < 256) by (apply Z.mod_pos_bound; lia).
  destruct (Byte.of_N (Z.to_N (z mod 256))) as [b |] eqn:E.
  - apply Byte.to_of_N in E. rewrite E. apply Z2N.id. lia.
  - apply Byte.of_N_None_iff in E. lia.
Qed.

Lemma read_le32 (v : Z) : read_le (le32 v) = v mod 4294967296.
Proof.
  unfold read_le, le32. simpl. rewrite !Z_of_byte_of_Z.
  Z.to_euclidean_division_equations. lia.
Qed.

Lemma read_le16 (v : Z) : read_le (le16 v) = v mod 65536.
Proof.
  unfold read_le, le16. simpl. rewrite !Z_of_byte_of_Z.
  Z.to_euclidean_division_equations. lia.
Qed.

(** The fields of the header that the player's blob relies on. *)
Lemma wav_header_fields (length sampleRate : Z) :
  let h := createWavHeader length sampleRate in
  List.length h = 44%nat /\
  slice 0 4 h = String.list_byte_of_string "RIFF" /\
  read_le (slice 24 28 h) = sampleRate mod 4294967296 /\
  read_le (slice 40 44 h) = length mod 4294967296.
Proof.
  cbv zeta. unfold createWavHeader, slice, be32, le32, le16.
  cbn [app rev List.length firstn skipn Nat.sub].
  repeat split; try reflexivity.
  - change (read_le (le32 sampleRate) = sampleRate mod 4294967296).
    apply read_le32.
  - change (read_le (le32 length) = length mod 4294967296).
    apply read_le32.
Qed.

(** X3.  [createWavHeader] always yields 44 bytes: the tags RIFF, WAVE,
    "fmt " and data at offsets 0, 8, 12 and 36, PCM format 1, one channel,
    16 bits, block size 2, and the four sizes little-endian modulo 2^32: the
    file size field holds 36 + length, the data size field holds length,
    the rate fields hold sampleRate and twice sampleRate. *)
Theorem wav_header_layout (length sampleRate : Z) :
  let h := createWavHeader length sampleRate in
  List.length h = 44%nat /\
  slice 0 4 h = String.list_byte_of_string "RIFF" /\
  slice 8 16 h = String.list_byte_of_string "WAVEfmt " /\
  slice 36 40 h = String.list_byte_of_string "data" /\
  read_le (slice 4 8 h) = (36 + length) mod 4294967296 /\
  read_le (slice 16 20 h) = 16 /\
  read_le (slice 20 22 h) = 1 /\
  read_le (slice 22 24 h) = 1 /\
  read_le (slice 24 28 h) = sampleRate mod 4294967296 /\
  read_le (slice 28 32 h) = (sampleRate * 2) mod 4294967296 /\
  read_le (slice 32 34 h) = 2 /\
  read_le (slice 34 36 h) = 16 /\
  read_le (slice 40 44 h) = length mod 4294967296.
Proof.
  cbv zeta. unfold createWavHeader, slice, be32, le32, le16.
  cbn [app rev List.length firstn skipn Nat.sub].
  repeat split; try reflexivity.
  - change (read_le (le32 (36 + length)) = (36 + length) mod 4294967296).
    apply read_le32.
  - change (read_le (le32 sampleRate) = sampleRate mod 4294967296).
    apply read_le32.
  - change (read_le (le32 (sampleRate * 1 * 2)) = (sampleRate * 2) mod 4294967296).
    rewrite read_le32. f_equal. lia.
  - change (read_le (le32 length) = length mod 4294967296).
    apply read_le32.
Qed.

Example wav_header_of_one_second :
  read_le (slice 40 44 (createWavHeader 32000 16000)) = 32000 /\
  read_le (slice 4 8 (createWavHeader 32000 16000)) = 32036.
Proof. split; reflexivity. Qed.

(** *** The blob handed to the audio element *)

(** Lower case does not touch the slash, and is idempotent. *)
Lemma lower_slash (c : Ascii.ascii) :
  Ascii.eqb (lower c) (Ascii.ascii_of_nat 47) = Ascii.eqb c (Ascii.ascii_of_nat 47).
Proof. destruct c as [[] [] [] [] [] [] [] []]; reflexivity. Qed.

Lemma lower_lower (c : Ascii.ascii) : lower (lower c) = lower c.
Proof. destruct c as [[] [] [] [] [] [] [] []]; reflexivity. Qed.

Lemma lower_printable (c : Ascii.ascii) : printable (lower c) = printable c.
Proof. destruct c as [[] [] [] [] [] [] [] []]; reflexivity. Qed.

Lemma includes_slash_lower (t : string) :
  includes_slash (lower_case t) = includes_slash t.
Proof.
  induction t as [| c r IH]; [reflexivity |].
  cbn [lower_case includes_slash]. rewrite lower_slash, IH. reflexivity.
Qed.

Lemma lower_case_idem (t : string) : lower_case (lower_case t) = lower_case t.
Proof.
  induction t as [| c r IH]; [reflexivity |].
  cbn [lower_case]. rewrite lower_lower, IH. reflexivity.
Qed.

Lemma all_printable_lower (t : string) :
  all_printable (lower_case t) = all_printable t.
Proof.
  induction t as [| c r IH]; [reflexivity |].
  cbn [lower_case all_printable]. rewrite lower_printable, IH. reflexivity.
Qed.

(** The type of a blob is empty, or printable ASCII in lower case; the
    constructor keeps a slash unless it empties the type. *)
Lemma blob_type_shape (t : string) :
  (blobType t = EmptyString \/
   (all_printable t = true /\ blobType t = lower_case t)) /\
  all_printable (blobType t) = true /\
  lower_case (blobType t) = blobType t /\
  (includes_slash t = true ->
   blobType t = EmptyString \/ includes_slash (blobType t) = true).
Proof.
  unfold blobType. destruct (all_printable t) eqn:E.
  - split; [right; split; reflexivity |].
    split; [rewrite all_printable_lower; exact E |].
    split; [apply lower_case_idem |].
    intros H. right. rewrite includes_slash_lower. exact H.
  - repeat split; auto.
Qed.

Section Blob.
Variable ToString : JsValue -> string.
Variable ToNumber : JsValue -> JsNum.

Local Abbreviation audioBlob := (Codec.audioBlob ToString ToNumber).
Local Abbreviation rateOf := (Codec.rateOf ToNumber).
Local Abbreviation typeText := (Codec.typeText ToString).

(** The type option, by the detected type. *)
Lemma safe_mime_cases (d : JsValue) :
  (lacksIncludes d = true /\ safeMimeType d = Throw TypeError) \/
  (lacksIncludes d = false /\
   exists safe, safeMimeType d = Ret safe /\
     (forall s, d = JString s ->
        safe = JString (if includes_slash s then s else "audio/mpeg")) /\
     (truthy d = false -> safe = JString "audio/mpeg") /\
     (forall items, d = JArray items ->
        safe = if existsb (fun x => is_str x "/") items
               then d else JString "audio/mpeg")).
Proof.
  unfold safeMimeType, lacksIncludes.
  destruct d as [| | [] | [z |] | s | items | props]; cbn [truthy andb includes bind];
    try (left; split; reflexivity);
    try (right; split; [reflexivity |]; eexists; split; [reflexivity |];
         repeat split; intros; try discriminate; reflexivity).
  - destruct (z =? 0); cbn [negb andb];
      [right; split; [reflexivity |]; eexists; split; [reflexivity |];
       repeat split; intros; try discriminate; reflexivity
      | left; split; reflexivity].
  - destruct (String.eqb_spec s "") as [-> | Hs]; cbn [negb andb bind];
      right; (split; [reflexivity |]); eexists; (split; [reflexivity |]);
      repeat split; intros; try discriminate.
    + injection H as <-. reflexivity.
    + injection H as <-. destruct (includes_slash s); reflexivity.
  - right. split; [reflexivity |]. eexists. split; [reflexivity |].
    repeat split; intros; try discriminate.
    injection H as <-. reflexivity.
Qed.

(** X4.  The blob [playBufferedAudio] builds from its chunks and from the
    type and the rate the collector handed on.  Making it throws, a
    TypeError and nothing else, exactly when the detected type is a truthy
    value without an [includes] method (neither string nor array).
    Otherwise: a declared [audio/pcm] is wrapped, whatever the leading bytes
    are, as type [audio/wav], a 44-byte header whose data-size field is the
    total payload length and whose rate field is the sample rate, both
    modulo 2^32, then the chunks in order; any other declared type leaves
    the bytes as the concatenation of the chunks, typed by the detected type
    if that is a string with a slash and [audio/mpeg] if it is a string
    without one or falsy.  The type of the blob is what the [Blob]
    constructor makes of that: printable ASCII in lower case, or the empty
    string if a character lay outside; so, for a detected type that is no
    array, it holds a slash or is empty. *)
Theorem audio_blob_type_and_content
    (chunks : list Bytes) (mimeType sampleRate : JsValue) :
  let made := audioBlob chunks mimeType sampleRate in
  let detected := detectMime chunks mimeType in
  (made = Throw TypeError <-> lacksIncludes detected = true) /\
  (forall e, made = Throw e -> e = TypeError) /\
  (forall content type, made = Ret (content, type) ->
     all_printable type = true /\ lower_case type = type /\
     ((forall items, detected <> JArray items) ->
      type = EmptyString \/ includes_slash type = true) /\
     (is_str mimeType "audio/pcm" = true ->
        type = "audio/wav"%string /\
        List.length content = (44 + List.length (concat chunks))%nat /\
        skipn 44 content = concat chunks /\
        slice 0 4 content = String.list_byte_of_string "RIFF" /\
        read_le (slice 40 44 content)
          = Z.of_nat (List.length (concat chunks)) mod 4294967296 /\
        read_le (slice 24 28 content) = rateOf sampleRate mod 4294967296) /\
     (is_str mimeType "audio/pcm" = false ->
        content = concat chunks /\
        (forall s, detected = JString s ->
           type = blobType (if includes_slash s then s else "audio/mpeg")) /\
        (truthy detected = false -> type = "audio/mpeg"%string))).
Proof.
  cbv zeta. unfold Codec.audioBlob.
  destruct (safe_mime_cases (detectMime chunks mimeType))
    as [[Hl ->] | (Hl & safe & -> & Hstr & Hfalsy & Harr)]; cbn [bind].
  { split; [split; auto |]. split; [intros e H; injection H as <-; reflexivity |].
    intros content type H. discriminate H. }
  split.
  { split; intros H; [| congruence].
    destruct (is_str mimeType "audio/pcm"); discriminate H. }
  split; [intros e H; destruct (is_str mimeType "audio/pcm"); discriminate H |].
  intros content type H.
  destruct (is_str mimeType "audio/pcm") eqn:E.
  - pose proof (wav_header_fields (Z.of_nat (List.length (concat chunks)))
                  (rateOf sampleRate)) as L.
    cbv zeta in L. destruct L as (Hlen & Hriff & Hrate & Hdata).
    set (h := createWavHeader _ _) in *. clearbody h.
    assert (Hc : content = h ++ concat chunks) by congruence.
    assert (Ht : type = blobType "audio/wav") by congruence.
    subst content type. clear H.
    assert (Hslice : forall a b, (b <= 44)%nat ->
                     slice a b (h ++ concat chunks) = slice a b h).
    { intros a b Hb. unfold slice. rewrite skipn_app, firstn_app.
      rewrite List.length_skipn, Hlen.
      replace (b - a - (44 - a))%nat with O by lia.
      cbn [firstn]. rewrite app_nil_r. reflexivity. }
    split; [reflexivity |]. split; [reflexivity |].
    split; [intros _; right; reflexivity |].
    split; [| discriminate]. intros _.
    split; [reflexivity |].
    split; [rewrite List.length_app, Hlen; reflexivity |].
    split; [rewrite skipn_app, Hlen, Nat.sub_diag, skipn_all2 by lia; reflexivity |].
    rewrite !Hslice by lia. auto.
  - assert (Hc : content = concat chunks) by congruence.
    assert (Ht : type = blobType (typeText safe)) by congruence.
    subst content type. clear H.
    destruct (blob_type_shape (typeText safe)) as (_ & Hp & Hlow & Hsl).
    split; [exact Hp |]. split; [exact Hlow |].
    split.
    { intros Hna. apply Hsl.
      destruct (detectMime chunks mimeType) as [| | b | n | s | items | props] eqn:Ed;
        try (rewrite (Hfalsy eq_refl); reflexivity);
        try (exfalso; apply (Hna items); reflexivity).
      - destruct b; [discriminate Hl | rewrite (Hfalsy eq_refl); reflexivity].
      - destruct n as [z |]; [| rewrite (Hfalsy eq_refl); reflexivity].
        unfold lacksIncludes in Hl. cbn [truthy] in Hl.
        destruct (z =? 0) eqn:Ez; [| discriminate Hl].
        rewrite Hfalsy by (cbn [truthy]; rewrite Ez; reflexivity). reflexivity.
      - rewrite (Hstr s eq_refl). cbn [Codec.typeText].
        destruct (includes_slash s) eqn:Es; [exact Es | reflexivity].
      - discriminate Hl. }
    split; [discriminate |]. intros _.
    split; [reflexivity |]. split.
    + intros s Hs. rewrite (Hstr s Hs). reflexivity.
    + intros Hf. rewrite (Hfalsy Hf). reflexivity.
Qed.

(** X5.  For a declared type other than [audio/pcm], the first four bytes
    decide the type of the blob, whatever value was declared: ID3 and the
    MP3 sync words FF F3 / FF F2 give [audio/mpeg], RIFF gives [audio/wav],
    EBML gives [audio/webm].  A first chunk shorter than four bytes is not
    inspected; then a declared string with a slash gives the type the
    [Blob] constructor makes of it (lower case, or empty for a character
    outside printable ASCII), and one without a slash gives [audio/mpeg]. *)
Theorem magic_bytes_decide_blob_type
    (b2 b3 : Byte.byte) (rest : Bytes) (more : list Bytes)
    (short : Bytes) (mimeType sampleRate : JsValue) (declared : string) :
  is_str mimeType "audio/pcm" = false ->
  String.eqb declared "audio/pcm" = false ->
  (List.length short < 4)%nat ->
  let blob_of first := audioBlob (first :: more) mimeType sampleRate in
  let typed first type := Ret (concat (first :: more), type) in
  blob_of (Byte.x49 :: Byte.x44 :: Byte.x33 :: b3 :: rest)
    = typed (Byte.x49 :: Byte.x44 :: Byte.x33 :: b3 :: rest) "audio/mpeg"%string /\
  blob_of (Byte.xff :: Byte.xf3 :: b2 :: b3 :: rest)
    = typed (Byte.xff :: Byte.xf3 :: b2 :: b3 :: rest) "audio/mpeg"%string /\
  blob_of (Byte.xff :: Byte.xf2 :: b2 :: b3 :: rest)
    = typed (Byte.xff :: Byte.xf2 :: b2 :: b3 :: rest) "audio/mpeg"%string /\
  blob_of (Byte.x52 :: Byte.x49 :: Byte.x46 :: Byte.x46 :: rest)
    = typed (Byte.x52 :: Byte.x49 :: Byte.x46 :: Byte.x46 :: rest) "audio/wav"%string /\
  blob_of (Byte.x1a :: Byte.x45 :: Byte.xdf :: Byte.xa3 :: rest)
    = typed (Byte.x1a :: Byte.x45 :: Byte.xdf :: Byte.xa3 :: rest) "audio/webm"%string /\
  audioBlob (short :: more) (JString declared) sampleRate
    = Ret (concat (short :: more),
           if includes_slash declared then blobType declared
           else "audio/mpeg"%string).
Proof.
  intros Hpcm Hdecl Hshort. cbv zeta. unfold Codec.audioBlob. rewrite Hpcm.
  repeat (split; [vm_compute; reflexivity |]).
  cbn [is_str]. rewrite Hdecl. unfold detectMime.
  destruct (Nat.leb_spec 4 (List.length short)) as [H | _]; [lia |].
  unfold safeMimeType. cbn [truthy includes].
  destruct declared as [| c m]; [reflexivity |].
  cbn [String.eqb negb bind]. 
  destruct (includes_slash (String c m)); reflexivity.
Qed.

End Blob.

(** X5 at a declared [Audio/OGG] and a two-byte chunk: the constructor
    lowers the case. *)
Lemma magic_bytes_sample :
  let blob_of first :=
    Codec.audioBlob (fun _ => ""%string) (fun _ => NaN) (first :: [])
      (JNumber (Fin 5)) (JNumber (Fin 16000)) in
  let typed first type := Ret (concat (first :: []), type) in
  blob_of (Byte.x49 :: Byte.x44 :: Byte.x33 :: Byte.x04 :: [])
    = typed (Byte.x49 :: Byte.x44 :: Byte.x33 :: Byte.x04 :: []) "audio/mpeg"%string /\
  blob_of (Byte.xff :: Byte.xf3 :: Byte.x00 :: Byte.x04 :: [])
    = typed (Byte.xff :: Byte.xf3 :: Byte.x00 :: Byte.x04 :: []) "audio/mpeg"%string /\
  blob_of (Byte.xff :: Byte.xf2 :: Byte.x00 :: Byte.x04 :: [])
    = typed (Byte.xff :: Byte.xf2 :: Byte.x00 :: Byte.x04 :: []) "audio/mpeg"%string /\
  blob_of (Byte.x52 :: Byte.x49 :: Byte.x46 :: Byte.x46 :: [])
    = typed (Byte.x52 :: Byte.x49 :: Byte.x46 :: Byte.x46 :: []) "audio/wav"%string /\
  blob_of (Byte.x1a :: Byte.x45 :: Byte.xdf :: Byte.xa3 :: [])
    = typed (Byte.x1a :: Byte.x45 :: Byte.xdf :: Byte.xa3 :: []) "audio/webm"%string /\
  Codec.audioBlob (fun _ => ""%string) (fun _ => NaN) ([Byte.x00; Byte.x01] :: [])
    (JString "Audio/OGG") (JNumber (Fin 16000))
    = Ret (concat ([Byte.x00; Byte.x01] :: []),
           if includes_slash "Audio/OGG" then blobType "Audio/OGG"
           else "audio/mpeg"%string).
Proof.
  apply (magic_bytes_decide_blob_type (fun _ => ""%string) (fun _ => NaN)
           Byte.x00 Byte.x04 [] [] [Byte.x00; Byte.x01]
           (JNumber (Fin 5)) (JNumber (Fin 16000)) "Audio/OGG");
    [reflexivity | reflexivity | simpl; lia].
Defined.

(** The type the [Blob] constructor gives: lower case, and empty for a type
    with a character outside printable ASCII. *)
Example blob_type_samples :
  blobType "Audio/OGG" = "audio/ogg"%string /\
  blobType ("audio/" ++ nbsp) = ""%string /\
  Codec.audioBlob (fun _ => ""%string) (fun _ => NaN) [[Byte.x00]]
    (JNumber (Fin 5)) JUndefined = Throw TypeError /\
  Codec.audioBlob (fun _ => ""%string) (fun _ => NaN) [[Byte.x00]]
    (JString ("audio/" ++ nbsp)) JUndefined = Ret ([Byte.x00], ""%string).
Proof. vm_compute. repeat split; reflexivity. Qed.

End CodecSpec.

(** ** Base URL normalisation *)

Module UrlSpec.
Import Url JsSpec.

Lemma strip_empty_all_slash (s : string) :
  strip_trailing_slashes s = EmptyString -> all_slash s = true.
Proof.
  destruct s as [| c r]; [reflexivity |]. cbn [strip_trailing_slashes].
  destruct (all_slash (String c r)); [reflexivity | discriminate].
Qed.

Lemma strip_has_no_trailing_slash (s : string) :
  ends_with_slash (strip_trailing_slashes s) = false.
Proof.
  induction s as [| c r IH]; [reflexivity |]. cbn [strip_trailing_slashes].
  destruct (all_slash (String c r)) eqn:E; [reflexivity |].
  cbn [ends_with_slash].
  destruct (strip_trailing_slashes r) eqn:Er; [| exact IH].
  apply strip_empty_all_slash in Er. cbn [all_slash] in E. rewrite Er in E.
  rewrite andb_true_r in E. exact E.
Qed.

Lemma ends_with_slash_app (p s : string) :
  s <> EmptyString -> ends_with_slash (p ++ s) = ends_with_slash s.
Proof.
  intros Hs. induction p as [| c p IH]; [reflexivity |].
  rewrite append_cons. cbn [ends_with_slash]. rewrite IH.
  destruct (p ++ s)%string eqn:E; [| reflexivity].
  destruct p; [cbn in E; contradiction | discriminate].
Qed.

(** X6.  [normalizeBaseUrl] always returns a text that starts with
    [http://] or [https://] in any letter case, and that has no trailing
    slash, with one exception: a blank or all-slash input gives the bare
    [https://]. *)
Theorem normalized_base_url_shape (baseUrl : string) :
  has_scheme (normalizeBaseUrl baseUrl) = true /\
  (ends_with_slash (normalizeBaseUrl baseUrl) = true ->
     normalizeBaseUrl baseUrl = "https://" /\
     all_slash (trim baseUrl) = true) /\
  (all_slash (trim baseUrl) = true -> normalizeBaseUrl baseUrl = "https://").
Proof.
  unfold normalizeBaseUrl.
  set (t := strip_trailing_slashes (trim baseUrl)).
  assert (Ht : ends_with_slash t = false) by apply strip_has_no_trailing_slash.
  assert (Hblank : all_slash (trim baseUrl) = true -> t = EmptyString).
  { intros H. unfold t. destruct (trim baseUrl); [reflexivity |].
    cbn [strip_trailing_slashes]. rewrite H. reflexivity. }
  destruct (has_scheme t) eqn:Hs; (split; [| split]).
  - exact Hs.
  - intros H. congruence.
  - intros H. rewrite (Hblank H) in Hs. discriminate.
  - reflexivity.
  - intros H. destruct t as [| c r] eqn:Et.
    + split; [reflexivity |]. apply strip_empty_all_slash. exact Et.
    + rewrite ends_with_slash_app in H by discriminate. congruence.
  - intros H. rewrite (Hblank H). reflexivity.
Qed.

Example normalize_samples :
  normalizeBaseUrl "  api.bulut.lu/  " = "https://api.bulut.lu" /\
  normalizeBaseUrl "HTTP://localhost:8000//" = "HTTP://localhost:8000" /\
  normalizeBaseUrl "http://" = "https://http:" /\
  normalizeBaseUrl (nbsp ++ "api.bulut.lu" ++ nbsp) = "https://api.bulut.lu" /\
  normalizeBaseUrl ("/" ++ nbsp) = "https://".
Proof. repeat split; reflexivity. Qed.

End UrlSpec.

(** ** Server-sent events *)

Module SseSpec.
Import Codec Sse JsSpec CodecSpec.


Lemma sepLen_app (a b : string) (k : nat) :
  sepLen a = S k -> sepLen (a ++ b) = S k.
Proof.
  destruct a as [| c1 [| c2 [| c3 [| c4 r]]]]; rewrite ?append_cons; cbn [sepLen];
    line_cases; intros H; try discriminate H; exact H.
Qed.

Lemma sepLen_length (c : Ascii.ascii) (r : string) (k : nat) :
  sepLen (String c r) = S k -> (k <= String.length r)%nat.
Proof.
  destruct r as [| c2 [| c3 [| c4 r]]]; cbn [sepLen String.length];
    line_cases; intros H; try discriminate H; injection H as <-; lia.
Qed.

Lemma splitBlocks_no_block (s t : string) :
  splitBlocks 0 s = ([], t) -> t = s.
Proof.
  revert t. induction s as [| c r IH]; intros t H; cbn [splitBlocks] in H.
  - congruence.
  - destruct (sepLen (String c r)).
    + destruct (splitBlocks 0 r) as [bs t0] eqn:E. destruct bs; [| discriminate].
      injection H as <-. f_equal. apply IH. reflexivity.
    + destruct (splitBlocks n r). discriminate.
Qed.

(** A separator that needs text after [c :: r] to be complete leaves no
    room for a whole separator inside [r]. *)
Lemma sepLen_late (c : Ascii.ascii) (r b : string) :
  sepLen (String c r) = O ->
  fst (splitBlocks 0 r) <> [] ->
  sepLen (String c r ++ b) = O.
Proof.
  destruct r as [| c2 [| c3 [| c4 r]]]; rewrite ?append_cons, ?append_empty_l.
  - intros _ Hb. exfalso. apply Hb. reflexivity.
  - intros _ Hb. exfalso. apply Hb. reflexivity.
  - destruct b as [| b1 b]; cbn [sepLen splitBlocks]; line_cases;
      cbn [fst]; intros H0 Hb;
      try reflexivity; try discriminate H0; exfalso; apply Hb; reflexivity.
  - cbn [sepLen]. intros H0 _. exact H0.
Qed.

(** Splitting a text that grows: the blocks found so far stay, and the
    rest is split again together with the new text. *)
Lemma splitBlocks_app (a b : string) : forall skip,
  (skip <= String.length a)%nat ->
  splitBlocks skip (a ++ b)
  = (let (bs, t) := splitBlocks skip a in
     let (bs', t') := splitBlocks 0 (t ++ b) in (bs ++ bs', t')).
Proof.
  induction a as [| c r IH]; intros skip Hskip.
  - cbn [String.length] in Hskip. replace skip with O by lia.
    rewrite append_empty_l. cbn [splitBlocks]. rewrite append_empty_l.
    destruct (splitBlocks 0 b). reflexivity.
  - rewrite append_cons. cbn [splitBlocks]. destruct skip as [| k].
    + destruct (sepLen (String c r)) as [| k] eqn:Es.
      * destruct (splitBlocks 0 r) as [bs t] eqn:Er.
        destruct bs as [| b1 bs].
        -- apply splitBlocks_no_block in Er. subst t.
           rewrite append_cons. cbn [splitBlocks].
           destruct (sepLen (String c (r ++ b)));
             destruct (splitBlocks _ (r ++ b)) as [l s]; [destruct l |];
             reflexivity.
        -- pose proof (sepLen_late c r b Es) as Hl. rewrite Er in Hl.
           rewrite append_cons in Hl. rewrite Hl by discriminate.
           rewrite (IH O) by lia. rewrite Er.
           destruct (splitBlocks 0 (t ++ b)). reflexivity.
      * pose proof (sepLen_app (String c r) b k Es) as Hs.
        rewrite append_cons in Hs. rewrite Hs.
        rewrite (IH k) by (eapply sepLen_length; eassumption).
        destruct (splitBlocks k r) as [bs t].
        destruct (splitBlocks 0 (t ++ b)). reflexivity.
    + cbn [String.length] in Hskip. apply IH. lia.
Qed.

(** The text left after the last separator holds no separator. *)
Lemma splitBlocks_rest (s : string) : forall skip bs t,
  splitBlocks skip s = (bs, t) -> splitBlocks 0 t = ([], t).
Proof.
  induction s as [| c r IH]; intros skip bs t H.
  - injection H as <- <-. reflexivity.
  - destruct skip as [| k]; [| eapply IH; exact H].
    pose proof H as Hwhole. cbn [splitBlocks] in H.
    destruct (sepLen (String c r)) as [| k].
    + destruct (splitBlocks 0 r) as [bs0 t0] eqn:Er. destruct bs0 as [| b1 bs0].
      * injection H as <- <-. apply splitBlocks_no_block in Er. subst t0.
        exact Hwhole.
      * injection H as <- <-. eapply IH. exact Er.
    + destruct (splitBlocks k r) as [bs0 t0] eqn:Er. injection H as <- <-.
      eapply IH. exact Er.
Qed.

Section Loop.
Variable JSON_parse : string -> Exn JsValue.
Variable atob : string -> Exn string.

Local Abbreviation onBlock := (Sse.onBlock JSON_parse atob).
Local Abbreviation onBlocks := (Sse.onBlocks JSON_parse atob).
Local Abbreviation onRead := (Sse.onRead JSON_parse atob).
Local Abbreviation readLoop := (Sse.readLoop JSON_parse atob).
Local Abbreviation collectTtsViaSse := (Sse.collectTtsViaSse JSON_parse atob).
Local Abbreviation isAudioBlock := (Sse.isAudioBlock JSON_parse).
Local Abbreviation audioText := (Sse.audioText JSON_parse).
Local Abbreviation mimeOf := (Sse.mimeOf JSON_parse).
Local Abbreviation decodeAll := (Sse.decodeAll atob).

Lemma with_buffer_same (st : State) : with_buffer st (buffer st) = st.
Proof. destruct st. reflexivity. Qed.

Lemma with_buffer_twice (st : State) (x y : string) :
  with_buffer (with_buffer st x) y = with_buffer st y.
Proof. reflexivity. Qed.

Lemma bind_ret {A} (m : Exn A) : bind m Ret = m.
Proof. destruct m; reflexivity. Qed.

(** The loop body reads and writes every field but the buffer. *)
Lemma onBlock_with_buffer (st : State) (x block : string) :
  onBlock (with_buffer st x) block
  = bind (onBlock st block) (fun s => Ret (with_buffer s x)).
Proof.
  unfold Sse.onBlock.
  destruct (negb (truthy (parseSseEventPayload JSON_parse block))); [reflexivity |].
  destruct (isAudioSsePayload (parseSseEventPayload JSON_parse block));
    [| reflexivity].
  destruct (base64ToUint8Array atob _); reflexivity.
Qed.

Lemma onBlocks_with_buffer (blocks : list string) : forall (st : State) (x : string),
  onBlocks (with_buffer st x) blocks
  = bind (onBlocks st blocks) (fun s => Ret (with_buffer s x)).
Proof.
  induction blocks as [| b bs IH]; intros st x; [reflexivity |].
  cbn [Sse.onBlocks]. rewrite onBlock_with_buffer.
  destruct (onBlock st b) as [s1 | e]; [| reflexivity].
  cbn [bind]. apply IH.
Qed.

Lemma onBlocks_app (a b : list string) : forall st,
  onBlocks st (a ++ b) = bind (onBlocks st a) (fun s => onBlocks s b).
Proof.
  induction a as [| x a IH]; intros st; [reflexivity |].
  cbn [app Sse.onBlocks]. destruct (onBlock st x); [| reflexivity].
  cbn [bind]. apply IH.
Qed.

Lemma onBlocks_buffer (blocks : list string) : forall st st',
  onBlocks st blocks = Ret st' -> buffer st' = buffer st.
Proof.
  induction blocks as [| b bs IH]; intros st st' H; cbn [Sse.onBlocks] in H.
  - congruence.
  - destruct (onBlock st b) as [s1 | e] eqn:E; [| discriminate].
    cbn [bind] in H. rewrite (IH _ _ H).
    unfold Sse.onBlock in E.
    destruct (negb (truthy _)); [congruence |].
    destruct (isAudioSsePayload _); [| congruence].
    destruct (base64ToUint8Array atob _); [| discriminate].
    cbn [bind] in E. injection E as <-. reflexivity.
Qed.

(** However the text is cut into reads, the loop ends as one read of the
    whole text does. *)
Lemma readLoop_joined (reads : list string) : forall st,
  splitBlocks 0 (buffer st) = ([], buffer st) ->
  readLoop st reads = onRead st (joined reads).
Proof.
  induction reads as [| r rs IH]; intros st Hst.
  - cbn [Sse.readLoop joined fold_right]. unfold Sse.onRead.
    rewrite append_empty_r, Hst. cbn [Sse.onBlocks].
    rewrite with_buffer_same. reflexivity.
  - cbn [Sse.readLoop joined fold_right]. fold (joined rs).
    unfold Sse.onRead at 2. rewrite <- append_assoc.
    rewrite (splitBlocks_app (buffer st ++ r) (joined rs) O) by lia.
    unfold Sse.onRead at 1.
    destruct (splitBlocks 0 (buffer st ++ r)) as [bs t] eqn:Er.
    pose proof (splitBlocks_rest _ _ _ _ Er) as Ht.
    destruct (splitBlocks 0 (t ++ joined rs)) as [bs' t'] eqn:Ers.
    rewrite onBlocks_app, (onBlocks_with_buffer bs st t),
      (onBlocks_with_buffer bs st t').
    destruct (Sse.onBlocks JSON_parse atob st bs) as [s1 | e] eqn:Eb;
      [| reflexivity].
    cbn [bind]. rewrite (IH (with_buffer s1 t)) by exact Ht.
    unfold Sse.onRead. cbn [with_buffer buffer]. rewrite Ers. reflexivity.
Qed.

(** The collection is the loop body run on the closed blocks of the whole
    text. *)
Lemma collect_blocks (reads : list string) :
  collectTtsViaSse reads
  = bind (onBlocks initialState (fst (splitBlocks 0 (joined reads))))
         (fun st => Ret (chunks st, mimeType st, sampleRate st)).
Proof.
  unfold Sse.collectTtsViaSse.
  rewrite (readLoop_joined reads initialState) by reflexivity.
  unfold Sse.onRead. cbn [buffer initialState]. rewrite append_empty_l.
  destruct (splitBlocks 0 (joined reads)) as [bs t]. cbn [fst].
  rewrite onBlocks_with_buffer.
  destruct (Sse.onBlocks JSON_parse atob initialState bs); reflexivity.
Qed.

(** X7.  The result of the SSE collection does not depend on where the
    network cuts the stream into reads: it is the result of one read of the
    whole text, which is the loop body run on the blocks that a blank line
    closes; text after the last blank line is never parsed, so a stream
    without a blank line yields no chunk and the default type and rate. *)
Theorem sse_collection_ignores_read_boundaries (reads : list string) :
  collectTtsViaSse reads = collectTtsViaSse [joined reads] /\
  collectTtsViaSse reads
    = bind (onBlocks initialState (fst (splitBlocks 0 (joined reads))))
           (fun st => Ret (chunks st, mimeType st, sampleRate st)) /\
  (fst (splitBlocks 0 (joined reads)) = [] ->
   collectTtsViaSse reads
     = Ret ([], JString "audio/mpeg", JNumber (Fin 16000))).
Proof.
  split; [| split].
  - rewrite (collect_blocks [joined reads]), collect_blocks.
    cbn [joined fold_right]. rewrite append_empty_r. reflexivity.
  - apply collect_blocks.
  - intros Hn. rewrite collect_blocks, Hn. reflexivity.
Qed.

Lemma onBlock_other (st : State) (block : string) :
  isAudioBlock block = false -> onBlock st block = Ret st.
Proof.
  unfold Sse.isAudioBlock, Sse.onBlock. intros H.
  destruct (truthy (parseSseEventPayload JSON_parse block)); [| reflexivity].
  cbn [andb] in H. rewrite H. reflexivity.
Qed.

Lemma onBlock_audio (st : State) (block : string) :
  isAudioBlock block = true ->
  onBlock st block
  = bind (base64ToUint8Array atob (audioText block))
         (fun bytes =>
            Ret {| chunks := chunks st ++ [bytes];
                   mimeType := mimeOf block;
                   sampleRate :=
                     (let rate := prop (parseSseEventPayload JSON_parse block)
                                       "sample_rate" in
                      if truthy rate then rate else sampleRate st);
                   buffer := buffer st |}).
Proof.
  unfold Sse.isAudioBlock, Sse.onBlock. intros H.
  apply andb_prop in H as [Ht Ha]. rewrite Ht, Ha. reflexivity.
Qed.

Lemma last_default_cons (l : list JsValue) (a d : JsValue) :
  List.last (a :: l) d = List.last l a.
Proof.
  revert a d. induction l as [| x l IH]; intros a d; [reflexivity |].
  change (List.last (a :: x :: l) d) with (List.last (x :: l) d).
  rewrite (IH x d), (IH x a). reflexivity.
Qed.

(** The chunks and the type after a run of the loop body from any state. *)
Lemma onBlocks_chunks (blocks : list string) : forall st,
  bind (onBlocks st blocks) (fun s => Ret (chunks s, mimeType s))
  = bind (decodeAll (map audioText (List.filter isAudioBlock blocks)))
         (fun ds => Ret (chunks st ++ ds,
                         List.last (map mimeOf (List.filter isAudioBlock blocks))
                                   (mimeType st))).
Proof.
  induction blocks as [| b bs IH]; intros st.
  - cbn [Sse.onBlocks List.filter map Sse.decodeAll bind List.last].
    rewrite app_nil_r. reflexivity.
  - cbn [Sse.onBlocks List.filter].
    destruct (Sse.isAudioBlock JSON_parse b) eqn:Eb.
    + rewrite (onBlock_audio st b Eb). cbn [map Sse.decodeAll].
      rewrite last_default_cons.
      destruct (base64ToUint8Array atob (audioText b)) as [bytes | e];
        [| reflexivity].
      cbn [bind]. rewrite IH. cbn [chunks mimeType].
      destruct (Sse.decodeAll atob _) as [ds | e]; [| reflexivity].
      cbn [bind]. rewrite <- app_assoc. reflexivity.
    + rewrite (onBlock_other st b Eb). cbn [bind]. apply IH.
Qed.


End Loop.

(** A stream of an audio event, the [DONE] event and a second audio event
    behind it, cut inside a separator and inside a line, and an unfinished
    third event. *)
Example sse_stream_cut_in_reads :
  Sse.collectTtsViaSse Sample.JSON_parse Sample.atob
    [ "data: " ++ Sample.audioFrame "1" "YWJj" ++ crlf;
      crlf ++ "event: x" ++ lf ++ "data: [DO";
      "NE]" ++ lf ++ lf ++ ": note" ++ lf ++ "data:" ++ Sample.audioFrame "2" "ZGVm" ++ lf;
      lf ++ "data: " ++ Sample.audioFrame "3" "YWJj" ++ lf ]%string
  = Ret ([String.list_byte_of_string "abc"; String.list_byte_of_string "def"],
         JString "audio/mpeg", JNumber (Fin 16000)).
Proof. vm_compute. reflexivity. Qed.

(** A data line behind a no-break space is a data line. *)
Example sse_line_after_no_break_space :
  Sse.collectTtsViaSse Sample.JSON_parse Sample.atob
    [ nbsp ++ "data: " ++ Sample.audioFrame "1" "YWJj" ++ nbsp ++ lf ++ lf ]%string
  = Ret ([String.list_byte_of_string "abc"], JString "audio/mpeg",
         JNumber (Fin 16000)).
Proof. vm_compute. reflexivity. Qed.

End SseSpec.

(** ** Parsing the agent's reply *)

Module ToolsSpec.
Import Tools JsSpec CodecSpec.

Lemma asString_clean (v : JsValue) (s : string) :
  asString v = Some s -> isClean (JString s) = true /\ asString (JString s) = Some s.
Proof.
  destruct v; try discriminate. cbn [asString].
  destruct (String.eqb (trim s0) "") eqn:E; [discriminate |].
  cbn [negb]. intros H. injection H as <-.
  cbn [isClean asString]. rewrite trim_idem, E, String.eqb_refl. split; reflexivity.
Qed.

Lemma optString_fixed (v : JsValue) :
  let s := optString (asString v) in
  optString (asString s) = s /\ (is_undefined s || isClean s) = true.
Proof.
  cbv zeta. destruct (asString v) as [t |] eqn:E; [| split; reflexivity].
  apply asString_clean in E as [Hc Hs]. cbn [optString].
  rewrite Hs. cbn [is_undefined orb]. split; [reflexivity | exact Hc].
Qed.

Lemma optNumber_fixed (v : JsValue) :
  let n := optNumber (asNumber v) in
  optNumber (asNumber n) = n /\
  (is_undefined n || bool_decide (is_Some (asNumber n))) = true.
Proof.
  cbv zeta. destruct (asNumber v) as [z |]; split; reflexivity.
Qed.

Lemma text_fixed (v : JsValue) :
  let t := if String.eqb (typeof v) "string" then v else JUndefined in
  (if String.eqb (typeof t) "string" then t else JUndefined) = t /\
  (is_undefined t || String.eqb (typeof t) "string") = true.
Proof.
  cbv zeta. destruct (String.eqb (typeof v) "string") eqn:E.
  - rewrite E. split; [reflexivity |]. apply orb_true_r.
  - split; reflexivity.
Qed.

Lemma isAction_string_of (a : string) : string_of (JString a) = a.
Proof. reflexivity. Qed.

(** A call that [sanitizeItem] lets through has the shape of an
    [AgentToolCall] and passes unchanged a second time. *)
Lemma sanitizeItem_fixed (item call : JsValue) :
  sanitizeItem item = Some call ->
  wellFormed call = true /\ sanitizeItem call = Some call.
Proof.
  unfold sanitizeItem. destruct (isObject item); cbn [negb]; [| discriminate].
  destruct (is_str (prop item "tool") "interact").
  { destruct (asString (prop item "action")) as [action |] eqn:Ea; [| discriminate].
    destruct (isAction action) eqn:Eact; [| discriminate].
    apply asString_clean in Ea as [Hclean Hagain].
    destruct (optString_fixed (prop item "selector")) as [Hs1 Hs2].
    destruct (optNumber_fixed (prop item "x")) as [Hx1 Hx2].
    destruct (optNumber_fixed (prop item "y")) as [Hy1 Hy2].
    destruct (text_fixed (prop item "text")) as [Ht1 Ht2].
    cbv zeta in *.
    generalize dependent (optString (asString (prop item "selector"))).
    generalize dependent (optNumber (asNumber (prop item "x"))).
    generalize dependent (optNumber (asNumber (prop item "y"))).
    generalize dependent
      (if String.eqb (typeof (prop item "text")) "string"
       then prop item "text" else JUndefined).
    intros text Ht1 Ht2 y Hy1 Hy2 x Hx1 Hx2 sel Hs1 Hs2 H.
    injection H as <-.
    set (call := JObject _).
    assert (Htool : prop call "tool" = JString "interact") by reflexivity.
    assert (Haction : prop call "action" = JString action) by reflexivity.
    assert (Hsel : prop call "selector" = sel) by reflexivity.
    assert (Htext : prop call "text" = text) by reflexivity.
    assert (Hx : prop call "x" = x) by reflexivity.
    assert (Hy : prop call "y" = y) by reflexivity.
    assert (Hobj : isObject call = true) by reflexivity.
    unfold wellFormed.
    rewrite Hobj, Htool, Haction, Hsel, Htext, Hx, Hy.
    cbn [negb is_str string_of]. rewrite Hagain, Eact, Hclean, Hs2, Ht2, Hx2, Hy2.
    cbn [String.eqb Ascii.eqb Bool.eqb andb orb].
    split; [reflexivity |].
    rewrite Hs1, Ht1, Hx1, Hy1. reflexivity. }
  destruct (is_str (prop item "tool") "navigate").
  { destruct (asString (prop item "url")) as [url |] eqn:Eu; [| discriminate].
    apply asString_clean in Eu as [Hclean Hagain].
    intros H. injection H as <-.
    set (call := JObject _).
    assert (Htool : prop call "tool" = JString "navigate") by reflexivity.
    assert (Hurl : prop call "url" = JString url) by reflexivity.
    assert (Hobj : isObject call = true) by reflexivity.
    unfold wellFormed. rewrite Hobj, Htool, Hurl, Hclean, Hagain.
    split; reflexivity. }
  destruct (is_str (prop item "tool") "getPageContext").
  { intros H. injection H as <-. split; reflexivity. }
  destruct (is_str (prop item "tool") "scroll"); [| discriminate].
  destruct (asString (prop item "selector")) as [selector |] eqn:Es; [| discriminate].
  apply asString_clean in Es as [Hclean Hagain].
  intros H. injection H as <-.
  set (call := JObject _).
  assert (Htool : prop call "tool" = JString "scroll") by reflexivity.
  assert (Hsel : prop call "selector" = JString selector) by reflexivity.
  assert (Hobj : isObject call = true) by reflexivity.
  unfold wellFormed. rewrite Hobj, Htool, Hsel, Hclean, Hagain.
  cbn [is_str String.eqb Ascii.eqb Bool.eqb andb orb negb].
  split; reflexivity.
Qed.

(** Everything [sanitizeToolCalls] returns is well formed and fixed. *)
Lemma sanitize_items (items : list JsValue) :
  Forall (fun call => wellFormed call = true) (omap sanitizeItem items) /\
  omap sanitizeItem (omap sanitizeItem items) = omap sanitizeItem items /\
  (List.length (omap sanitizeItem items) <= List.length items)%nat.
Proof.
  induction items as [| item items (IHw & IHi & IHl)]; cbn [omap list_omap].
  - split; [constructor | split; [reflexivity | cbn; lia]].
  - destruct (sanitizeItem item) as [call |] eqn:E.
    + apply sanitizeItem_fixed in E as [Hw Hf]. split; [| split].
      * constructor; assumption.
      * cbn [omap list_omap]. rewrite Hf. f_equal. exact IHi.
      * cbn [List.length] in *. lia.
    + split; [exact IHw | split; [exact IHi | cbn [List.length]; lia]].
Qed.

Lemma sanitize_tool_calls_helper (value : JsValue) :
  Forall (fun call => wellFormed call = true) (sanitizeToolCalls value).
Proof.
  destruct value; try constructor. apply sanitize_items.
Qed.

(** X9.  [sanitizeToolCalls] returns only calls of the four known shapes
    (an [interact] call with one of the four actions, a [navigate] call with
    a url and a [scroll] call with a selector that are not blank and carry
    no white space around them, or a [getPageContext] call), never more
    calls than the array holds and none for a value that is no array; what
    it returns passes unchanged through a second run. *)
Theorem sanitize_tool_calls_sound (value : JsValue) :
  Forall (fun call => wellFormed call = true) (sanitizeToolCalls value) /\
  sanitizeToolCalls (JArray (sanitizeToolCalls value)) = sanitizeToolCalls value /\
  (List.length (sanitizeToolCalls value)
   <= match value with JArray items => List.length items | _ => 0 end)%nat.
Proof.
  destruct value as [| | b | n | s | items | props];
    try (split; [constructor | split; [reflexivity | cbn; lia]]).
  cbn [sanitizeToolCalls]. apply sanitize_items.
Qed.

(** *** The first JSON object of a text *)

Lemma indexOfBrace_split (input : string) (start : nat) :
  indexOfBrace input = Some start ->
  exists pre rest,
    input = (pre ++ rest)%string /\ String.length pre = start /\
    hasBrace pre = false /\ startsWithBrace rest = true /\
    dropStr start input = rest.
Proof.
  revert start. induction input as [| c r IH]; intros start H; [discriminate |].
  cbn [indexOfBrace] in H. destruct (isChar openBrace c) eqn:Ec.
  - injection H as <-. exists EmptyString, (String c r).
    repeat split; [exact Ec].
  - destruct (indexOfBrace r) as [n |]; [| discriminate].
    injection H as <-.
    destruct (IH n eq_refl) as (pre & rest & -> & Hlen & Hpre & Hrest & Hdrop).
    exists (String c pre), rest. rewrite append_cons. cbn [String.length hasBrace dropStr].
    rewrite Ec, Hpre, Hlen. repeat split; assumption.
Qed.

Lemma substring_after (pre t : string) (m : nat) :
  String.substring (String.length pre) m (pre ++ t) = String.substring 0 m t.
Proof.
  induction pre as [| c pre IH]; [reflexivity |].
  rewrite append_cons. cbn [String.length String.substring]. exact IH.
Qed.

Lemma substring_drop (t : string) (m : nat) :
  t = (String.substring 0 m t ++ dropStr m t)%string.
Proof.
  revert t. induction m as [| m IH]; intros t.
  - destruct t; reflexivity.
  - destruct t as [| c t]; [reflexivity |].
    cbn [String.substring dropStr]. rewrite append_cons, <- IH. reflexivity.
Qed.

Lemma substring_length (t : string) (m : nat) :
  (m <= String.length t)%nat -> String.length (String.substring 0 m t) = m.
Proof.
  revert t. induction m as [| m IH]; intros t H.
  - destruct t; reflexivity.
  - destruct t as [| c t]; cbn [String.length] in *; [lia |].
    cbn [String.substring String.length]. rewrite IH by lia. reflexivity.
Qed.

Lemma substring_whole (t : string) : String.substring 0 (String.length t) t = t.
Proof.
  induction t as [| c t IH]; [reflexivity |].
  cbn [String.length String.substring]. rewrite IH. reflexivity.
Qed.

(** The loop returns the same place whatever the index it starts to count
    from. *)
Lemma scan_shift (t : string) : forall n i depth inString isEscaped,
  scan (n + i) depth inString isEscaped t
  = option_map (Nat.add n) (scan i depth inString isEscaped t).
Proof.
  induction t as [| c r IH]; intros n i depth inString isEscaped; [reflexivity |].
  cbn [scan]. rewrite !plus_n_Sm.
  repeat match goal with
         | |- context [if ?b then _ else _] => destruct b
         end; solve [apply IH | reflexivity].
Qed.

Lemma substring_0_0 (s : string) : String.substring 0 0 s = EmptyString.
Proof. destruct s; reflexivity. Qed.


(** The loop reads nothing behind the brace it returns. *)
Lemma scan_prefix (t : string) : forall i depth inString isEscaped j,
  scan i depth inString isEscaped t = Some j ->
  exists k, j = (i + k)%nat /\ (k < String.length t)%nat /\
    scan i depth inString isEscaped (String.substring 0 (S k) t) = Some j /\
    endsWithBrace (String.substring 0 (S k) t) = true.
Proof.
  induction t as [| c r IH]; intros i depth inString isEscaped j H; [discriminate |].
  assert (Hstep : forall d' s' e',
            scan (S i) d' s' e' r = Some j ->
            exists k, j = (i + S k)%nat /\ (k < String.length r)%nat /\
              scan (S i) d' s' e' (String.substring 0 (S k) r) = Some j /\
              endsWithBrace (String c (String.substring 0 (S k) r)) = true).
  { intros d' s' e' Hr. destruct (IH _ _ _ _ _ Hr) as (k & -> & Hk & Hs & He).
    exists k. split; [lia |]. split; [exact Hk |]. split; [exact Hs |].
    destruct r as [| a r]; [cbn [String.length] in Hk; lia |]. exact He. }
  cbn [scan] in H.
  destruct inString, isEscaped;
    repeat match type of H with
           | context [if ?b then _ else _] => destruct b eqn:?
           end;
    first
      [ injection H as <-; exists O;
        split; [lia |]; split; [cbn [String.length]; lia |];
        cbn [String.substring]; rewrite substring_0_0;
        cbn [scan endsWithBrace]; use_tests;
        split; reflexivity
      | destruct (Hstep _ _ _ H) as (k & -> & Hk & Hs & He); exists (S k);
        split; [reflexivity |]; split; [cbn [String.length]; lia |];
        split; [| exact He];
        change (String.substring 0 (S (S k)) (String c r))
          with (String c (String.substring 0 (S k) r));
        cbn [scan]; use_tests; exact Hs ].
Qed.

(** X10.  What [extractFirstJsonObject] returns is a piece of the input
    that starts at its first opening brace and ends with a closing brace,
    and extracting from that piece gives the piece itself. *)
Theorem extracted_object_is_a_balanced_slice (input object : string) :
  extractFirstJsonObject input = Some object ->
  (exists before after,
     input = (before ++ object ++ after)%string /\ hasBrace before = false) /\
  startsWithBrace object = true /\
  endsWithBrace object = true /\
  extractFirstJsonObject object = Some object.
Proof.
  unfold extractFirstJsonObject at 1.
  destruct (indexOfBrace input) as [start |] eqn:Ei; [| discriminate].
  destruct (indexOfBrace_split _ _ Ei) as (pre & t & -> & Hlen & Hpre & Ht & Hdrop).
  rewrite Hdrop.
  destruct (scan start 0 false false t) as [i |] eqn:Es; [| discriminate].
  intros H. injection H as <-.
  destruct (scan_prefix _ _ _ _ _ _ Es) as (k & -> & Hk & Hs & He).
  subst start.
  replace (String.length pre + k + 1 - String.length pre)%nat with (S k) by lia.
  rewrite substring_after.
  set (object := String.substring 0 (S k) t) in *.
  assert (Hstart : startsWithBrace object = true).
  { unfold object. destruct t as [| c t]; [discriminate |]. exact Ht. }
  split; [| split; [exact Hstart | split; [exact He |]]].
  - exists pre, (dropStr (S k) t). split; [| exact Hpre].
    f_equal. apply substring_drop.
  - unfold extractFirstJsonObject.
    assert (Hidx : indexOfBrace object = Some O).
    { destruct object as [| c o]; [discriminate |].
      cbn [indexOfBrace]. cbn [startsWithBrace] in Hstart. rewrite Hstart.
      reflexivity. }
    rewrite Hidx. cbn [dropStr].
    rewrite <- (Nat.add_0_r (String.length pre)) in Hs.
    rewrite scan_shift in Hs.
    destruct (scan 0 0 false false object) as [n |]; [| discriminate].
    cbn [option_map] in Hs. injection Hs as Hn.
    assert (n = k) by lia. subst n.
    replace (k + 1 - 0)%nat with (String.length object)
      by (unfold object; rewrite substring_length; lia).
    rewrite substring_whole. reflexivity.
Qed.

(** X10 at a text with a brace inside a string. *)
Lemma extracted_object_sample :
  (exists before after,
     ("ok: {" ++ Sample.str "a}" ++ ":{}} and {}")%string
     = (before ++ ("{" ++ Sample.str "a}" ++ ":{}}") ++ after)%string /\
     hasBrace before = false) /\
  startsWithBrace ("{" ++ Sample.str "a}" ++ ":{}}") = true /\
  endsWithBrace ("{" ++ Sample.str "a}" ++ ":{}}") = true /\
  extractFirstJsonObject ("{" ++ Sample.str "a}" ++ ":{}}")
  = Some ("{" ++ Sample.str "a}" ++ ":{}}")%string.
Proof.
  apply (extracted_object_is_a_balanced_slice
           ("ok: {" ++ Sample.str "a}" ++ ":{}} and {}")
           ("{" ++ Sample.str "a}" ++ ":{}}")).
  vm_compute. reflexivity.
Defined.

Example unbalanced_text_has_no_object :
  extractFirstJsonObject "{ {} " = None /\
  extractFirstJsonObject "no object" = None /\
  extractFirstJsonObject ("{" ++ Sample.quote ++ "}") = None.
Proof. vm_compute. repeat split. Qed.

(** *** The parsed reply *)

Section Parse.
Variable JSON_parse : string -> Exn JsValue.
Variable fencedMatch : string -> option string.

Local Abbreviation parseJsonFromRaw := (Tools.parseJsonFromRaw JSON_parse fencedMatch).
Local Abbreviation parseAgentResponse :=
  (Tools.parseAgentResponse JSON_parse fencedMatch).
Local Abbreviation extractJsonCandidate := (Tools.extractJsonCandidate fencedMatch).


End Parse.

(** White space other than ASCII counts: a url of a no-break space is
    blank, a selector and a reply lose the no-break spaces around them. *)
Example no_break_space_is_white_space :
  sanitizeToolCalls
    (JArray [ Sample.object [("tool", JString "navigate"); ("url", JString nbsp)];
              Sample.object [("tool", JString "scroll");
                             ("selector", JString (nbsp ++ "#a" ++ nbsp))] ])
  = [ JObject {[ "tool" := JString "scroll"; "selector" := JString "#a" ]} ] /\
  reply (parseAgentResponse Sample.JSON_parse (fun _ => None) (nbsp ++ "hi"))
  = "hi"%string.
Proof. vm_compute. split; reflexivity. Qed.

End ToolsSpec.

(** ** Running tool calls *)

Module ToolRunSpec.
Import Resume ToolRun.

Section Execute.
Variables executeInteract executeScroll executeNavigate : JsValue -> Run unit.
Variable getPageContext : Run string.
Variable href : string.
Variable leftWhileSettling : bool.
Variable ToString : JsValue -> string.

Local Abbreviation executeSingleToolCall :=
  (ToolRun.executeSingleToolCall executeInteract executeScroll executeNavigate
     getPageContext href leftWhileSettling ToString).
Local Abbreviation handleToolExecution :=
  (ToolRun.handleToolExecution executeInteract executeScroll executeNavigate
     getPageContext href leftWhileSettling ToString).
Local Abbreviation bodyThrows :=
  (ToolRun.bodyThrows executeInteract executeScroll executeNavigate
     getPageContext leftWhileSettling).
Local Abbreviation bodyLeaves :=
  (ToolRun.bodyLeaves executeInteract executeScroll executeNavigate
     getPageContext leftWhileSettling).
Local Abbreviation toText := (ToolRun.toText ToString).

(** A value is one tool name at most. *)
Lemma one_tool (v : JsValue) (a b : string) :
  is_str v a = true -> a <> b -> is_str v b = false.
Proof.
  destruct v; try discriminate. cbn [is_str]. intros Ha Hab.
  apply String.eqb_eq in Ha. subst. apply String.eqb_neq. exact Hab.
Qed.

(** A call that is neither null nor undefined has its id read. *)
Lemma call_id_read (call : JsValue) :
  is_null call || is_undefined call = false ->
  member call "call_id" = Ret (prop call "call_id").
Proof. destruct call; try discriminate; reflexivity. Qed.

(** Every way out of [executeSingleToolCall] for such a call: a result that
    carries the id, the error text if the body throws, or the page is
    left. *)
Lemma single_call_cases (call : JsValue) :
  is_null call || is_undefined call = false ->
  (exists t, executeSingleToolCall call
             = Value {| id := prop call "call_id"; text := t |} /\
             (forall e, bodyThrows call e ->
                        t = ("Hata: " ++ toText (errorText e))%string) /\
             ~ bodyLeaves call)
  \/ (executeSingleToolCall call = Unload /\ bodyLeaves call).
Proof.
  intros Hcall. unfold ToolRun.executeSingleToolCall.
  rewrite (call_id_read call Hcall).
  unfold ToolRun.bodyThrows, ToolRun.bodyLeaves, ToolRun.settle.
  destruct (is_str (prop call "tool") "interact") eqn:E1.
  { rewrite (one_tool _ _ "scroll" E1), (one_tool _ _ "getPageContext" E1),
      (one_tool _ _ "navigate" E1) by discriminate.
    destruct (executeInteract call) as [[] | e |]; cbn;
      [left | left | right]; try (eexists; split; [reflexivity |]);
      intuition (try discriminate; try congruence). }
  destruct (is_str (prop call "tool") "scroll") eqn:E2.
  { rewrite (one_tool _ _ "getPageContext" E2), (one_tool _ _ "navigate" E2)
      by discriminate.
    destruct (executeScroll call) as [[] | e |]; cbn;
      [left | left | right]; try (eexists; split; [reflexivity |]);
      intuition (try discriminate; try congruence). }
  destruct (is_str (prop call "tool") "getPageContext") eqn:E3.
  { rewrite (one_tool _ _ "navigate" E3) by discriminate.
    destruct getPageContext as [summary | e |]; cbn;
      [left | left | right]; try (eexists; split; [reflexivity |]);
      intuition (try discriminate; try congruence). }
  destruct (is_str (prop call "tool") "navigate") eqn:E4.
  { destruct (executeNavigate call) as [[] | e |]; cbn;
      [| left; eexists; split; [reflexivity |];
         intuition (try discriminate; try congruence)
       | right; intuition (try discriminate; try congruence)].
    destruct leftWhileSettling; cbn;
      [right; intuition (try discriminate; try congruence) |].
    destruct getPageContext as [summary | e |]; cbn;
      [left | left | right]; try (eexists; split; [reflexivity |]);
      intuition (try discriminate; try congruence). }
  cbn. left. eexists. split; [reflexivity |].
  intuition (try discriminate; try congruence).
Qed.

(** X11.  [executeSingleToolCall] reads [call.call_id] before its [try]:
    for a call that is null or undefined it rejects with the TypeError of
    that read.  For any other call it never rejects: it ends with a result
    that carries [call.call_id], or the page is left, and it is left exactly
    when it is left during the tool body, the wait after a navigation or the
    reading of the page.  An exception of the body of any of the four tools
    becomes the text of the result: [Hata: ] followed by the message of an
    [Error] or by the text of any other value.  An unknown tool has a result
    of its own, and a [navigate] that returns reports the same text that
    [agentResumeStream] makes up for a [navigate] after a reload. *)
Theorem single_tool_call_never_rejects (call : JsValue) :
  (is_null call || is_undefined call = true ->
     executeSingleToolCall call = Raise (runtimeError TypeError)) /\
  (is_null call || is_undefined call = false ->
     (forall e, executeSingleToolCall call <> Raise e) /\
     (forall r, executeSingleToolCall call = Value r ->
                id r = prop call "call_id") /\
     (executeSingleToolCall call = Unload <-> bodyLeaves call) /\
     (forall e, bodyThrows call e ->
        executeSingleToolCall call
        = Value {| id := prop call "call_id";
                   text := "Hata: " ++ toText (errorText e) |}) /\
     (forall summary tc,
        is_str (prop call "tool") "navigate" = true ->
        executeNavigate call = Value tt ->
        leftWhileSettling = false ->
        getPageContext = Value summary ->
        executeSingleToolCall call
        = Value {| id := prop call "call_id";
                   text := result (navigationResult href summary tc) |}) /\
     (is_str (prop call "tool") "interact" = false ->
      is_str (prop call "tool") "scroll" = false ->
      is_str (prop call "tool") "getPageContext" = false ->
      is_str (prop call "tool") "navigate" = false ->
      executeSingleToolCall call
      = Value {| id := prop call "call_id"; text := "Bilinmeyen araç." |})).
Proof.
  split.
  { intros Hn. unfold ToolRun.executeSingleToolCall.
    destruct call; try discriminate; reflexivity. }
  intros Hcall.
  split; [| split; [| split; [| split; [| split]]]].
  - intros e H. destruct (single_call_cases call Hcall)
      as [(t & Ht & _) | (Hu & _)]; congruence.
  - intros r H. destruct (single_call_cases call Hcall)
      as [(t & Ht & _) | (Hu & _)]; [| congruence].
    rewrite Ht in H. injection H as <-. reflexivity.
  - destruct (single_call_cases call Hcall)
      as [(t & Ht & _ & Hnl) | (Hu & Hl)]; split; intros H;
      try congruence; try contradiction; try assumption.
  - intros e He. destruct (single_call_cases call Hcall)
      as [(t & Ht & Hthrow & _) | (Hu & Hl)].
    + rewrite Ht, (Hthrow e He). reflexivity.
    + exfalso. unfold ToolRun.bodyThrows, ToolRun.bodyLeaves in *.
      destruct He as [[A B] | [[A B] | [[A B] | [A [B | (B & C & D)]]]]];
        destruct Hl as [[A' B'] | [[A' B'] | [[A' B'] | [A' [B' | (B' & [C' | C'])]]]]];
        try congruence;
        try (rewrite (one_tool _ _ _ A) in A' by discriminate; discriminate).
  - intros summary tc Ht Hn Hs Hc. unfold ToolRun.executeSingleToolCall.
    rewrite (call_id_read call Hcall).
    rewrite (one_tool _ _ "interact" Ht), (one_tool _ _ "scroll" Ht),
      (one_tool _ _ "getPageContext" Ht) by discriminate.
    unfold ToolRun.settle. rewrite Ht, Hn, Hs, Hc. reflexivity.
  - intros H1 H2 H3 H4. unfold ToolRun.executeSingleToolCall.
    rewrite (call_id_read call Hcall), H1, H2, H3, H4. reflexivity.
Qed.

(** X12.  The result that the chat window hands back for a call carries
    the call's id unless the call's arguments hold a [call_id] key of their
    own, which then is the id that comes back. *)
Theorem tool_result_carries_call_id (call : ToolCall) :
  match handleToolExecution call with
  | Value r =>
      id r = default (JString (call_id call)) (spread (args call) !! "call_id")
  | Raise _ => False
  | Unload => True
  end.
Proof.
  unfold ToolRun.handleToolExecution.
  destruct (single_call_cases (toolCallWithId call) eq_refl)
    as [(t & Ht & _) | (Hu & _)].
  - rewrite Ht. cbn [id]. unfold toolCallWithId, prop.
    rewrite lookup_union.
    destruct (spread (args call) !! "call_id") as [v |].
    + destruct (_ !! "call_id"); reflexivity.
    + reflexivity.
  - rewrite Hu. exact I.
Qed.

End Execute.

Section Loop.
Variable executeTool : ToolCall -> Run ToolResult.
Variables (effectiveSessionId theProjectId theModel theVoice : string).
Variable theAccessibilityMode : bool.
Variable clock : nat -> Z.
Variable writable : bool.

Local Abbreviation checkpoint :=
  (ToolRun.checkpoint effectiveSessionId theProjectId theModel theVoice
     theAccessibilityMode clock).
Local Abbreviation save := (ToolRun.save writable).
Local Abbreviation toolLoop :=
  (ToolRun.toolLoop executeTool effectiveSessionId theProjectId theModel theVoice
     theAccessibilityMode clock writable).
Local Abbreviation onToolCalls :=
  (ToolRun.onToolCalls executeTool effectiveSessionId theProjectId theModel theVoice
     theAccessibilityMode clock writable).
Local Abbreviation valueOf := (ToolRun.valueOf executeTool).
Local Abbreviation allReturn := (ToolRun.allReturn executeTool).
Local Abbreviation echoesIds := (ToolRun.echoesIds executeTool).

Lemma storeAfter_app (a b : list ToolCall) (store : option PendingAgentResume) :
  storeAfter (a ++ b) store = storeAfter b (storeAfter a store).
Proof.
  unfold storeAfter. rewrite existsb_app.
  destruct (existsb isNavigate a), (existsb isNavigate b); reflexivity.
Qed.

(** The loop over calls that all return. *)
Lemma loop_returns (calls : list ToolCall) : forall todo results store,
  allReturn todo = true ->
  toolLoop calls todo results store
  = Completed (results ++ omap valueOf todo) (storeAfter todo store).
Proof.
  induction todo as [| call rest IH]; intros results store H.
  - cbn. rewrite app_nil_r. reflexivity.
  - cbn [ToolRun.allReturn forallb] in H. apply andb_prop in H as [Hc Hr].
    cbn [ToolRun.toolLoop omap list_omap]. unfold ToolRun.valueOf in *.
    destruct (executeTool call) as [r | e |];
      [| exfalso; apply bool_decide_eq_true in Hc; destruct Hc; discriminate
       | exfalso; apply bool_decide_eq_true in Hc; destruct Hc; discriminate].
    rewrite IH by exact Hr. rewrite <- app_assoc. cbn [app].
    f_equal. unfold storeAfter, save. cbn [existsb].
    destruct (isNavigate call); [| reflexivity].
    cbn [orb]. destruct (existsb isNavigate rest); reflexivity.
Qed.

(** The loop up to the first call that does not return. *)
Lemma loop_stops (calls : list ToolCall) : forall before call after results store,
  allReturn before = true ->
  toolLoop calls (before ++ call :: after) results store
  = toolLoop calls (call :: after) (results ++ omap valueOf before)
      (storeAfter before store).
Proof.
  induction before as [| c rest IH]; intros call after results store H.
  - cbn [app omap list_omap]. rewrite app_nil_r. reflexivity.
  - cbn [ToolRun.allReturn forallb] in H. apply andb_prop in H as [Hc Hr].
    cbn [app ToolRun.toolLoop omap list_omap]. unfold ToolRun.valueOf in *.
    destruct (executeTool c) as [r | e |];
      [| exfalso; apply bool_decide_eq_true in Hc; destruct Hc; discriminate
       | exfalso; apply bool_decide_eq_true in Hc; destruct Hc; discriminate].
    rewrite IH by exact Hr. rewrite <- app_assoc. cbn [app].
    f_equal. unfold storeAfter, save. cbn [existsb].
    destruct (isNavigate c); [| reflexivity].
    cbn [orb]. destruct (existsb isNavigate rest); reflexivity.
Qed.

Lemma omap_valueOf_length (calls : list ToolCall) :
  allReturn calls = true -> length (omap valueOf calls) = length calls.
Proof.
  induction calls as [| c rest IH]; intros H; [reflexivity |].
  cbn [ToolRun.allReturn forallb] in H. apply andb_prop in H as [Hc Hr].
  cbn [omap list_omap]. apply bool_decide_eq_true in Hc. destruct Hc as [r Hc].
  rewrite Hc. cbn [length]. rewrite IH by exact Hr. reflexivity.
Qed.

(** X13.  When every call of a [tool_calls] message returns, the loop
    ends with one result per call, in the order of the calls; and then no
    resume record is left if the batch held a [navigate], while a batch
    without one leaves the storage as it found it. *)
Theorem tool_loop_answers_every_call
    (calls : list ToolCall) (store : option PendingAgentResume) :
  allReturn calls = true ->
  onToolCalls calls store
  = Completed (omap valueOf calls)
      (if existsb isNavigate calls then None else store) /\
  length (omap valueOf calls) = length calls.
Proof.
  intros H. split; [| apply omap_valueOf_length; exact H].
  unfold ToolRun.onToolCalls. rewrite loop_returns by exact H. reflexivity.
Qed.

(** X14.  When the page is left during a call, the calls before it having
    returned: if the call is a [navigate] and the storage takes the record,
    the record left behind lists the whole batch as pending and the results
    of the calls before as completed; during any other tool nothing is
    written, so what is left is no record at all if a [navigate] came
    before, and the record found at the start otherwise.  A rejected call
    leaves the same behind. *)
Theorem reload_leaves_checkpoint_only_for_navigate
    (before after : list ToolCall) (call : ToolCall)
    (store : option PendingAgentResume) :
  allReturn before = true ->
  let calls := before ++ call :: after in
  let left :=
    if isNavigate call
    then (if writable then Some (checkpoint calls (omap valueOf before))
          else storeAfter before store)
    else storeAfter before store in
  (executeTool call = Unload -> onToolCalls calls store = Unloaded left) /\
  (forall e, executeTool call = Raise e -> onToolCalls calls store = Rejected e left) /\
  pendingToolCalls (checkpoint calls (omap valueOf before)) = calls /\
  completedResults (checkpoint calls (omap valueOf before)) = omap valueOf before.
Proof.
  intros H. cbv zeta. unfold ToolRun.onToolCalls.
  rewrite loop_stops by exact H. cbn [app ToolRun.toolLoop].
  unfold ToolRun.save.
  split; [| split; [| split; reflexivity]].
  - intros ->. destruct (isNavigate call), writable; reflexivity.
  - intros e ->. destruct (isNavigate call), writable; reflexivity.
Qed.

Lemma answered_in (acc : list ToolResult) (tc : ToolCall) :
  answered acc tc = true <-> In (call_id tc) (map result_call_id acc).
Proof.
  unfold answered. rewrite existsb_exists, in_map_iff. split.
  - intros (r & Hin & Heq). apply String.eqb_eq in Heq. eauto.
  - intros (r & Heq & Hin). exists r. split; [exact Hin |].
    apply String.eqb_eq. exact Heq.
Qed.

Lemma synthesize_carries_id (href ctx : string) (tc : ToolCall) :
  result_call_id (synthesize href ctx tc) = call_id tc.
Proof. unfold synthesize. destruct (String.eqb _ _); reflexivity. Qed.

(** Calls that have a result already add nothing. *)
Lemma merge_skips (href ctx : string) (l : list ToolCall) (acc : list ToolResult) :
  (forall tc, In tc l -> answered acc tc = true) ->
  fold_left (mergeStep href ctx) l acc = acc.
Proof.
  induction l as [| tc l IH]; intros H; [reflexivity |].
  cbn [fold_left]. unfold mergeStep at 2.
  rewrite (H tc) by (left; reflexivity).
  apply IH. intros tc' Hin. apply H. right. exact Hin.
Qed.

(** Calls with fresh, distinct ids get one made-up result each, in order. *)
Lemma merge_appends (href ctx : string) (l : list ToolCall) :
  forall acc : list ToolResult,
  List.NoDup (map call_id l) ->
  (forall tc, In tc l -> ~ In (call_id tc) (map result_call_id acc)) ->
  fold_left (mergeStep href ctx) l acc = acc ++ map (synthesize href ctx) l.
Proof.
  induction l as [| tc l IH]; intros acc Hnd Hfresh.
  - cbn. rewrite app_nil_r. reflexivity.
  - cbn [map] in Hnd. apply List.NoDup_cons_iff in Hnd as [Hout Hnd].
    cbn [fold_left map]. unfold mergeStep at 2.
    destruct (answered acc tc) eqn:Ea.
    { exfalso. apply (Hfresh tc); [left; reflexivity |].
      apply answered_in. exact Ea. }
    rewrite IH; [rewrite <- app_assoc; reflexivity | exact Hnd |].
    intros tc' Hin Hid. rewrite map_app, in_app_iff in Hid.
    destruct Hid as [Hid | Hid].
    + apply (Hfresh tc'); [right; exact Hin | exact Hid].
    + cbn in Hid. rewrite synthesize_carries_id in Hid.
      destruct Hid as [Hid | []]. apply Hout. rewrite Hid.
      apply in_map. exact Hin.
Qed.

Lemma nodup_app_disjoint (a b : list string) :
  List.NoDup (a ++ b) -> forall x, In x a -> In x b -> False.
Proof.
  induction a as [| y a IH]; intros Hnd x Ha Hb; [destruct Ha |].
  cbn [app] in Hnd. apply List.NoDup_cons_iff in Hnd as [Hout Hnd].
  destruct Ha as [-> | Ha].
  - apply Hout. apply in_app_iff. right. exact Hb.
  - exact (IH Hnd x Ha Hb).
Qed.

Lemma ids_of_values (l : list ToolCall) :
  allReturn l = true -> echoesIds l = true ->
  map result_call_id (omap valueOf l) = map call_id l.
Proof.
  induction l as [| c l IH]; intros Hr He; [reflexivity |].
  cbn [ToolRun.allReturn ToolRun.echoesIds forallb] in Hr, He.
  apply andb_prop in Hr as [Hc Hr]. apply andb_prop in He as [Hi He].
  apply bool_decide_eq_true in Hc. destruct Hc as [r Hc].
  cbn [omap list_omap]. rewrite Hc in *. cbn [map].
  apply String.eqb_eq in Hi. rewrite Hi, IH by assumption. reflexivity.
Qed.

(** X15.  The agent loop and the resume after a reload, put together.
    Let the page be left during a [navigate] of a batch whose call ids are
    distinct, the calls before it having returned results that carry their
    ids, and let the storage take the record.  Then the results that
    [agentResumeStream] sends for the stored record are, in batch order: the
    results of the calls before the [navigate], the made-up success of the
    [navigate], and a made-up result for every call after it; so each call
    of the batch has one result. *)
Theorem resume_after_reload_answers_batch_in_order
    (href ctx : string) (before after : list ToolCall) (call : ToolCall)
    (store : option PendingAgentResume) :
  allReturn before = true ->
  echoesIds before = true ->
  List.NoDup (map call_id (before ++ call :: after)) ->
  isNavigate call = true ->
  executeTool call = Unload ->
  writable = true ->
  let calls := before ++ call :: after in
  let record := checkpoint calls (omap valueOf before) in
  onToolCalls calls store = Unloaded (Some record) /\
  allResults href ctx record
  = omap valueOf before
    ++ navigationResult href ctx call :: map (synthesize href ctx) after /\
  map result_call_id (allResults href ctx record) = map call_id calls.
Proof.
  intros Hr He Hnd Hnav Hun Hw. cbv zeta.
  assert (Hids := ids_of_values before Hr He).
  assert (Hall : allResults href ctx
                   (checkpoint (before ++ call :: after) (omap valueOf before))
                 = omap valueOf before
                   ++ navigationResult href ctx call
                      :: map (synthesize href ctx) after).
  { unfold allResults. cbn [pendingToolCalls completedResults ToolRun.checkpoint].
    rewrite fold_left_app, (merge_skips href ctx before).
    - rewrite merge_appends.
      + cbn [map]. unfold isNavigate in Hnav.
        change (synthesize href ctx call)
          with (if String.eqb (tool call) "navigate"
                then navigationResult href ctx call else skippedResult call).
        rewrite Hnav. reflexivity.
      + rewrite map_app in Hnd. apply List.NoDup_app_remove_l in Hnd. exact Hnd.
      + intros tc Hin Hid. rewrite Hids in Hid.
        rewrite map_app in Hnd.
        apply (nodup_app_disjoint _ _ Hnd (call_id tc) Hid).
        apply in_map. exact Hin.
    - intros tc Hin. apply answered_in. rewrite Hids. apply in_map. exact Hin. }
  split; [| split; [exact Hall |]].
  - unfold ToolRun.onToolCalls. rewrite loop_stops by exact Hr.
    cbn [app ToolRun.toolLoop]. rewrite Hun, Hnav. unfold ToolRun.save.
    rewrite Hw. reflexivity.
  - rewrite Hall, map_app, Hids. cbn [map]. rewrite map_map.
    rewrite map_app. cbn [map]. f_equal. f_equal.
    apply map_ext. intros tc. apply synthesize_carries_id.
Qed.

End Loop.

(** X13 at a batch without [navigate]. *)
Lemma tool_loop_sample :
  ToolRun.onToolCalls sampleReturn "s1" "p1" "m" "v" false (fun _ => 1000) true
    [mkCall "c1" "interact" JNull; mkCall "c3" "scroll" JNull]
    (Some Sample.sampleResume)
  = Completed
      (omap (ToolRun.valueOf sampleReturn)
            [mkCall "c1" "interact" JNull; mkCall "c3" "scroll" JNull])
      (if existsb isNavigate [mkCall "c1" "interact" JNull; mkCall "c3" "scroll" JNull]
       then None else Some Sample.sampleResume) /\
  length (omap (ToolRun.valueOf sampleReturn)
               [mkCall "c1" "interact" JNull; mkCall "c3" "scroll" JNull])
  = length [mkCall "c1" "interact" JNull; mkCall "c3" "scroll" JNull].
Proof.
  apply (tool_loop_answers_every_call sampleReturn "s1" "p1" "m" "v" false
           (fun _ => 1000) true
           [mkCall "c1" "interact" JNull; mkCall "c3" "scroll" JNull]
           (Some Sample.sampleResume)).
  reflexivity.
Defined.

(** X14 at the sample batch: the page is left during its [navigate]. *)
Lemma reload_sample :
  ToolRun.onToolCalls sampleLeave "s1" "p1" "m" "v" false (fun _ => 1000) true
    sampleBatch None
  = Unloaded
      (Some (ToolRun.checkpoint "s1" "p1" "m" "v" false (fun _ => 1000)
               sampleBatch [mkToolResult "c1" "ok"])) /\
  ToolRun.onToolCalls sampleLeave "s1" "p1" "m" "v" false (fun _ => 1000) true
    [mkCall "c2" "navigate" JNull; mkCall "c1" "interact" JNull] None
  = Unloaded
      (Some (ToolRun.checkpoint "s1" "p1" "m" "v" false (fun _ => 1000)
               [mkCall "c2" "navigate" JNull; mkCall "c1" "interact" JNull] [])).
Proof.
  split.
  - destruct (reload_leaves_checkpoint_only_for_navigate sampleLeave
                "s1" "p1" "m" "v" false (fun _ => 1000) true
                [mkCall "c1" "interact" JNull] [mkCall "c3" "scroll" JNull]
                (mkCall "c2" "navigate" JNull) None eq_refl) as (H & _).
    exact (H eq_refl).
  - destruct (reload_leaves_checkpoint_only_for_navigate sampleLeave
                "s1" "p1" "m" "v" false (fun _ => 1000) true
                [] [mkCall "c1" "interact" JNull]
                (mkCall "c2" "navigate" JNull) None eq_refl) as (H & _).
    exact (H eq_refl).
Defined.

(** X15 at the sample batch. *)
Lemma resume_after_reload_sample :
  map result_call_id
    (allResults "https://example.com/b" "ctx"
       (ToolRun.checkpoint "s1" "p1" "m" "v" false (fun _ => 1000)
          sampleBatch [mkToolResult "c1" "ok"]))
  = ["c1"; "c2"; "c3"] /\
  map result
    (allResults "https://example.com/b" "ctx"
       (ToolRun.checkpoint "s1" "p1" "m" "v" false (fun _ => 1000)
          sampleBatch [mkToolResult "c1" "ok"]))
  = map result
      [ mkToolResult "c1" "ok";
        navigationResult "https://example.com/b" "ctx" (mkCall "c2" "navigate" JNull);
        skippedResult (mkCall "c3" "scroll" JNull) ].
Proof.
  assert (Hnd : List.NoDup (map call_id sampleBatch)).
  { apply NoDup_ListNoDup. refine (@bool_decide_unpack _ _ _). vm_compute. exact I. }
  destruct (resume_after_reload_answers_batch_in_order sampleLeave
              "s1" "p1" "m" "v" false (fun _ => 1000) true
              "https://example.com/b" "ctx"
              [mkCall "c1" "interact" JNull] [mkCall "c3" "scroll" JNull]
              (mkCall "c2" "navigate" JNull) None
              eq_refl eq_refl Hnd eq_refl eq_refl eq_refl) as (_ & Hall & Hids).
  split; [exact Hids |].
  change (ToolRun.checkpoint "s1" "p1" "m" "v" false (fun _ => 1000)
            sampleBatch [mkToolResult "c1" "ok"])
    with (ToolRun.checkpoint "s1" "p1" "m" "v" false (fun _ => 1000)
            ([mkCall "c1" "interact" JNull] ++ mkCall "c2" "navigate" JNull
               :: [mkCall "c3" "scroll" JNull])
            (omap (ToolRun.valueOf sampleLeave) [mkCall "c1" "interact" JNull])).
  rewrite Hall. reflexivity.
Defined.

End ToolRunSpec.

(** ** Writing and consuming the resume record *)

Module ResumeStoreSpec.
Import Resume ResumeStore.

Section Store.
Variable JSON_parse : string -> Exn JsValue.
Variable StringToNumber : string -> JsNum.
Variable ObjectToNumber : JsValue -> Exn JsNum.
Variable JSON_stringify : JsValue -> Exn string.
Variable quota : string -> bool.

Local Abbreviation getPendingAgentResume :=
  (Resume.getPendingAgentResume JSON_parse StringToNumber ObjectToNumber).
Local Abbreviation savePendingAgentResume :=
  (ResumeStore.savePendingAgentResume JSON_stringify quota).
Local Abbreviation resumeOnMount :=
  (ResumeStore.resumeOnMount JSON_parse StringToNumber ObjectToNumber).

(** X16.  A record written by [savePendingAgentResume] at time [t0] comes
    back from [getPendingAgentResume] with [savedAt = t0] and the storage
    untouched as long as no more than 60,000 ms have passed, and is removed
    by the first read after that; this for a record that [JSON.parse] gives
    back from the text [JSON.stringify] made of it.  A save that throws, in
    [JSON.stringify] or for lack of room, leaves the storage as it was. *)
Theorem saved_record_is_read_back_within_ttl
    (m : gmap string string) (state : gmap string JsValue) (t0 now : Z)
    (text : string) :
  JSON_stringify (stamped state t0) = Ret text ->
  JSON_parse text = Ret (stamped state t0) ->
  text <> EmptyString ->
  (quota text = true ->
     savePendingAgentResume (Some m) state t0
       = Some (<[ RESUME_STORAGE_KEY := text ]> m) /\
     getPendingAgentResume (savePendingAgentResume (Some m) state t0) now
       = if now - t0 >? RESUME_TTL_MS
         then (Some (delete RESUME_STORAGE_KEY m), JNull)
         else (Some (<[ RESUME_STORAGE_KEY := text ]> m), stamped state t0)) /\
  (quota text = false -> savePendingAgentResume (Some m) state t0 = Some m).
Proof.
  intros Hs Hp Hne. unfold ResumeStore.savePendingAgentResume.
  rewrite Hs. cbn [bind]. unfold setItem. split.
  - intros ->. split; [reflexivity |].
    unfold Resume.getPendingAgentResume. rewrite lookup_insert_eq.
    destruct (String.eqb_spec text "") as [E | _]; [contradiction |].
    rewrite Hp. cbn [bind member stamped prop]. rewrite lookup_insert_eq.
    cbn [default from_option id Resume.ToNumber bind js_sub js_gt].
    destruct (now - t0 >? RESUME_TTL_MS); [| reflexivity].
    cbn [clearPendingAgentResume]. rewrite delete_insert_eq. reflexivity.
  - intros ->. reflexivity.
Qed.

(** A read changes the storage by removing the record, if at all. *)
Lemma read_keeps_or_clears (ls : Env) (now : Z) :
  fst (getPendingAgentResume ls now) = ls \/
  (fst (getPendingAgentResume ls now) = clearPendingAgentResume ls /\
   snd (getPendingAgentResume ls now) = JNull).
Proof.
  unfold Resume.getPendingAgentResume.
  destruct ls as [m |]; [| left; reflexivity].
  destruct (m !! RESUME_STORAGE_KEY) as [raw |]; [| left; reflexivity].
  destruct (String.eqb raw ""); [left; reflexivity |].
  destruct (bind (JSON_parse raw) _) as [[parsed []] | e]; cbn [fst snd]; auto.
Qed.

Lemma read_after_clear (ls : Env) (now : Z) :
  getPendingAgentResume (clearPendingAgentResume ls) now
  = (clearPendingAgentResume ls, JNull).
Proof.
  destruct ls as [m |]; [| reflexivity].
  unfold Resume.getPendingAgentResume. cbn [clearPendingAgentResume].
  rewrite lookup_delete_eq. reflexivity.
Qed.

(** A read that gives a falsy value has removed the record, or every
    read gives a falsy value. *)
Lemma falsy_read (ls : Env) (now : Z) :
  truthy (snd (getPendingAgentResume ls now)) = false ->
  fst (getPendingAgentResume ls now) = clearPendingAgentResume ls \/
  (forall now', truthy (snd (getPendingAgentResume ls now')) = false).
Proof.
  unfold Resume.getPendingAgentResume.
  destruct ls as [m |]; [| right; reflexivity].
  destruct (m !! RESUME_STORAGE_KEY) as [raw |]; [| right; reflexivity].
  destruct (String.eqb raw ""); [right; reflexivity |].
  destruct (JSON_parse raw) as [parsed | e]; cbn [bind]; [| left; reflexivity].
  destruct (member parsed "savedAt") as [sv | e]; cbn [bind]; [| left; reflexivity].
  destruct (ToNumber StringToNumber ObjectToNumber sv) as [t | e]; cbn [bind];
    [| left; reflexivity].
  destruct (js_gt (js_sub (Fin now) t) (Fin RESUME_TTL_MS)); [left; reflexivity |].
  cbn [snd]. intros H. right. intros now'.
  destruct (js_gt (js_sub (Fin now') t) (Fin RESUME_TTL_MS)); [reflexivity | exact H].
Qed.

(** The storage stays a storage. *)
Lemma mount_keeps_storage (m : gmap string string) (now : Z) :
  exists m1, fst (resumeOnMount (Some m) now) = Some m1.
Proof.
  unfold ResumeStore.resumeOnMount.
  destruct (read_keeps_or_clears (Some m) now) as [Hk | [Hk _]];
    destruct (getPendingAgentResume (Some m) now) as [ls1 v];
    cbn [fst] in Hk; subst ls1; destruct (negb (truthy v)); cbn [fst];
    eexists; reflexivity.
Qed.

(** Reading a record that was just written. *)
Lemma read_of_written (m : gmap string string) (state : gmap string JsValue)
    (t now : Z) (text : string) :
  JSON_parse text = Ret (stamped state t) ->
  text <> EmptyString ->
  getPendingAgentResume (Some (<[ RESUME_STORAGE_KEY := text ]> m)) now
  = if now - t >? RESUME_TTL_MS
    then (Some (delete RESUME_STORAGE_KEY m), JNull)
    else (Some (<[ RESUME_STORAGE_KEY := text ]> m), stamped state t).
Proof.
  intros Hp Hne.
  unfold Resume.getPendingAgentResume. rewrite lookup_insert_eq.
  destruct (String.eqb_spec text "") as [E | _]; [contradiction |].
  rewrite Hp. cbn [bind member stamped prop]. rewrite lookup_insert_eq.
  cbn [default from_option id Resume.ToNumber bind js_sub js_gt].
  destruct (now - t >? RESUME_TTL_MS); [| reflexivity].
  cbn [clearPendingAgentResume]. rewrite delete_insert_eq. reflexivity.
Qed.

(** X17.  The effect that resumes the agent when the chat window mounts
    consumes the record.  Whatever the storage holds and whenever the
    mounts happen, a mount that follows a mount with nothing saved in
    between finds nothing to resume from; and when a record is saved in
    between (the tool loop of the resumed stream does so before its next
    [navigate]), the mount that follows within 60,000 ms resumes from that
    record, as it was saved, and leaves none behind. *)
Theorem resume_record_is_consumed_once (ls : Env) (now now' : Z) :
  snd (resumeOnMount (fst (resumeOnMount ls now)) now') = None /\
  (forall (m : gmap string string) (state : gmap string JsValue) (t : Z)
          (text : string),
     ls = Some m ->
     JSON_stringify (stamped state t) = Ret text ->
     JSON_parse text = Ret (stamped state t) ->
     text <> EmptyString ->
     quota text = true ->
     now' - t <= RESUME_TTL_MS ->
     let saved := savePendingAgentResume (fst (resumeOnMount ls now)) state t in
     snd (resumeOnMount saved now') = Some (stamped state t) /\
     exists m2, fst (resumeOnMount saved now') = Some m2 /\
                m2 !! RESUME_STORAGE_KEY = None).
Proof.
  split.
  - unfold ResumeStore.resumeOnMount at 2.
    destruct (getPendingAgentResume ls now) as [ls1 v] eqn:E.
    assert (Hnull : forall l, getPendingAgentResume l now' = (l, JNull) ->
                              snd (resumeOnMount l now') = None).
    { intros l Hl. unfold ResumeStore.resumeOnMount. rewrite Hl. reflexivity. }
    destruct (truthy v) eqn:Hv; cbn [negb fst].
    + apply Hnull, read_after_clear.
    + pose proof (falsy_read ls now) as Hf. rewrite E in Hf. cbn [fst snd] in Hf.
      destruct (Hf Hv) as [-> | Hall].
      * apply Hnull, read_after_clear.
      * destruct (read_keeps_or_clears ls now) as [Hk | [Hk _]];
          rewrite E in Hk; cbn [fst] in Hk; subst ls1.
        -- unfold ResumeStore.resumeOnMount.
           specialize (Hall now').
           destruct (getPendingAgentResume ls now') as [ls2 v2].
           cbn [snd] in Hall. rewrite Hall. reflexivity.
        -- apply Hnull, read_after_clear.
  - intros m state t text -> Hs Hp Hne Hq Hfresh. cbv zeta.
    destruct (mount_keeps_storage m now) as (m1 & ->).
    unfold ResumeStore.savePendingAgentResume. rewrite Hs. cbn [bind].
    unfold setItem. rewrite Hq.
    unfold ResumeStore.resumeOnMount.
    rewrite (read_of_written m1 state t now' text Hp Hne).
    destruct (Z.gtb_spec (now' - t) RESUME_TTL_MS) as [Hgt | _]; [lia |].
    cbn [stamped truthy negb fst snd clearPendingAgentResume].
    split; [reflexivity |]. eexists. split; [reflexivity |].
    apply lookup_delete_eq.
Qed.

End Store.

(** X16 at a record stamped 1000 and read 60 s and 60.001 s later. *)
Lemma saved_record_sample :
  Resume.getPendingAgentResume Sample.JSON_parse Sample.StringToNumber
    Sample.ObjectToNumber
    (ResumeStore.savePendingAgentResume sampleStringify (fun _ => true)
       (Some ∅) {[ "sessionId" := JString "s1" ]} 1000) 61000
  = (Some {[ RESUME_STORAGE_KEY := Sample.stampedRecord "1000" ]},
     stamped {[ "sessionId" := JString "s1" ]} 1000) /\
  Resume.getPendingAgentResume Sample.JSON_parse Sample.StringToNumber
    Sample.ObjectToNumber
    (ResumeStore.savePendingAgentResume sampleStringify (fun _ => true)
       (Some ∅) {[ "sessionId" := JString "s1" ]} 1000) 61001
  = (Some ∅, JNull).
Proof.
  assert (Hp : Sample.JSON_parse (Sample.stampedRecord "1000")
               = Ret (stamped {[ "sessionId" := JString "s1" ]} 1000))
    by (vm_compute; reflexivity).
  split.
  - destruct (saved_record_is_read_back_within_ttl Sample.JSON_parse
                Sample.StringToNumber Sample.ObjectToNumber sampleStringify
                (fun _ => true) ∅ {[ "sessionId" := JString "s1" ]} 1000 61000
                (Sample.stampedRecord "1000") eq_refl Hp)
      as [H _]; [discriminate |].
    exact (proj2 (H eq_refl)).
  - destruct (saved_record_is_read_back_within_ttl Sample.JSON_parse
                Sample.StringToNumber Sample.ObjectToNumber sampleStringify
                (fun _ => true) ∅ {[ "sessionId" := JString "s1" ]} 1000 61001
                (Sample.stampedRecord "1000") eq_refl Hp)
      as [H _]; [discriminate |].
    exact (proj2 (H eq_refl)).
Defined.

(** X17 at a record saved between two mounts. *)
Example record_saved_between_mounts :
  snd (ResumeStore.resumeOnMount Sample.JSON_parse Sample.StringToNumber
         Sample.ObjectToNumber
         (ResumeStore.savePendingAgentResume sampleStringify (fun _ => true)
            (fst (ResumeStore.resumeOnMount Sample.JSON_parse
                    Sample.StringToNumber Sample.ObjectToNumber
                    (Some {[ RESUME_STORAGE_KEY := Sample.stampedRecord "1000" ]})
                    2000))
            {[ "sessionId" := JString "s1" ]} 1000)
         3000)
  = Some (stamped {[ "sessionId" := JString "s1" ]} 1000).
Proof. vm_compute. reflexivity. Qed.

End ResumeStoreSpec.

(** ** Playing collected audio *)

Module PlayerSpec.
Import Codec Playback Player.

Lemma stop_keeps_elements (st : State) (el : nat) :
  is_Some (heap st !! el) -> is_Some (heap (stopActiveAudioPlayback st) !! el).
Proof.
  unfold stopActiveAudioPlayback. cbn [heap].
  generalize (elements (activeAudioElements st)). intros l.
  generalize (heap st). induction l as [| x l IH]; intros h H; [exact H |].
  cbn [foldl]. apply IH. apply lookup_alter_is_Some. exact H.
Qed.

Lemma stops_keep_registry (n : nat) : forall st,
  activeAudioElements (stops n st) = activeAudioElements st.
Proof.
  induction n as [| n IH]; intros st; [reflexivity |].
  cbn [stops]. rewrite IH. reflexivity.
Qed.

Lemma stops_keep_elements (n : nat) (el : nat) : forall st,
  is_Some (heap st !! el) -> is_Some (heap (stops n st) !! el).
Proof.
  induction n as [| n IH]; intros st H; [exact H |].
  cbn [stops]. apply IH, stop_keeps_elements, H.
Qed.

Lemma stops_generation (n : nat) : forall st,
  audioPlaybackGeneration (stops n st) = audioPlaybackGeneration st + Z.of_nat n.
Proof.
  induction n as [| n IH]; intros st; [cbn [stops]; lia |].
  cbn [stops]. rewrite IH. cbn [stopActiveAudioPlayback audioPlaybackGeneration]. lia.
Qed.

(** The element is out of the registry, silent and without source once the
    [finally] block has run. *)
Lemma release_frees (st : State) (el : nat) :
  is_Some (heap st !! el) ->
  (el ∉ activeAudioElements (release st el)) /\
  (exists a, heap (release st el) !! el = Some a /\ src a = None /\ paused a = true).
Proof.
  intros [a Ha]. unfold release, unregisterActiveAudioElement.
  cbn [activeAudioElements heap].
  split; [apply not_elem_of_difference; right; apply elem_of_singleton; reflexivity |].
  eexists. rewrite lookup_alter_eq, Ha. cbn. split; [reflexivity |]. split; reflexivity.
Qed.

Lemma never_stopped_at_once (st : State) :
  wasPlaybackStoppedAfter st (getAudioPlaybackGeneration st) = false.
Proof.
  unfold wasPlaybackStoppedAfter, getAudioPlaybackGeneration.
  rewrite Z.eqb_refl. reflexivity.
Qed.

Lemma stopped_after_stops (n : nat) (st st' : State) :
  audioPlaybackGeneration st' = audioPlaybackGeneration (stops n st) ->
  wasPlaybackStoppedAfter st' (getAudioPlaybackGeneration st) = (0 <? n)%nat.
Proof.
  intros H. unfold wasPlaybackStoppedAfter, getAudioPlaybackGeneration.
  rewrite H, stops_generation. destruct n as [| n]; cbn [Nat.ltb Nat.leb].
  - rewrite Z.add_0_r, Z.eqb_refl. reflexivity.
  - apply negb_true_iff, Z.eqb_neq. lia.
Qed.

(** The element made by a call is in the heap from its registration on. *)
Lemma registered_element (st : State) (el : nat) (url : string) (n : nat) :
  is_Some (heap (stops n (registerActiveAudioElement
                            (mkState (audioPlaybackGeneration st)
                                     (activeAudioElements st)
                                     (<[ el := freshElement url ]> (heap st))) el))
           !! el).
Proof.
  apply stops_keep_elements. unfold registerActiveAudioElement. cbn [heap].
  rewrite lookup_insert_eq. eauto.
Qed.

Section Play.
Variable ToString : JsValue -> string.
Variable ToNumber : JsValue -> JsNum.

Local Abbreviation audioBlob := (Codec.audioBlob ToString ToNumber).
Local Abbreviation playBufferedAudio := (Player.playBufferedAudio ToString ToNumber).
Local Abbreviation speakText := (Player.speakText ToString ToNumber).

(** A call with chunks, written out. *)
Lemma play_with_chunks (st : State) (el : nat) (url : string)
    (chunks : list Bytes) (mimeType sampleRate : JsValue) (sc : PlayScript) :
  chunks <> [] ->
  let st0 := stops (stopsInCallback sc) st in
  let st1 := registerActiveAudioElement
               (mkState (audioPlaybackGeneration st0) (activeAudioElements st0)
                        (<[ el := freshElement url ]> (heap st0))) el in
  let st2 := stops (stopsBeforePlaying sc) st1 in
  playBufferedAudio st el url chunks mimeType sampleRate sc
  = match audioBlob chunks mimeType sampleRate with
    | Throw e => mkPlayed st0 ["fallback"] None false (Some (Throw e))
    | Ret b =>
        if (0 <? stopsInCallback sc)%nat
        then mkPlayed (release st1 el) ["fallback"; "done"] (Some b) true
                      (Some (Ret tt))
        else match playStart sc with
             | Stalled => mkPlayed st2 ["fallback"] (Some b) false None
             | Refused err =>
                 mkPlayed (release st2 el) ["fallback"; "done"] (Some b) true
                          (Some (Throw err))
             | Started =>
                 match waitForPlaybackEnd st2 sc with
                 | (st3, Some ended) =>
                     mkPlayed (release st3 el) ["fallback"; "playing"; "done"]
                              (Some b) true (Some ended)
                 | (st3, None) =>
                     mkPlayed st3 ["fallback"; "playing"] (Some b) false None
                 end
             end
    end.
Proof.
  intros Hne. cbv zeta. unfold Player.playBufferedAudio.
  destruct chunks as [| c cs]; [contradiction |]. cbn [length Nat.eqb].
  rewrite never_stopped_at_once.
  destruct (Codec.audioBlob ToString ToNumber (c :: cs) mimeType sampleRate)
    as [b | e]; [| reflexivity].
  match goal with
  | |- context [wasPlaybackStoppedAfter ?x (getAudioPlaybackGeneration st)] =>
      rewrite (stopped_after_stops (stopsInCallback sc) st x eq_refl)
  end.
  reflexivity.
Qed.

(** X18.  [playBufferedAudio], its callback returning.  Without chunks it
    passes ['done'] and returns.  With chunks it passes ['fallback'] first
    and makes the blob; if that throws (the TypeError of a type without an
    [includes] method), the call rejects with it at once, ['done'] not
    passed, no element made.  With the blob made, ['done'] is passed as the
    last state, and once, exactly when the promise settles, and it settles
    unless [play()] stays pending or the playback never reports its end:
    the states are ['fallback', 'done'] when the ['fallback'] callback stops
    the playback or [play()] rejects, and ['fallback', 'playing', 'done']
    when [play()] resolves, whether the playback then ends, is stopped or
    fails.  A call that settles with a blob has taken its element out of
    the set of active elements, paused and without source, and has revoked
    the object URL; it throws only what [play()] or the element's [error]
    event throws. *)
Theorem playback_always_signals_done
    (st : State) (el : nat) (url : string)
    (chunks : list Bytes) (mimeType sampleRate : JsValue) (sc : PlayScript) :
  let p := playBufferedAudio st el url chunks mimeType sampleRate sc in
  let made := audioBlob chunks mimeType sampleRate in
  (chunks = [] ->
     states p = ["done"] /\ after p = st /\ blob p = None /\
     outcome p = Some (Ret tt)) /\
  (chunks <> [] ->
     hd "" (states p) = "fallback" /\
     (forall e, made = Throw e ->
        states p = ["fallback"] /\ outcome p = Some (Throw e) /\
        blob p = None /\ revoked p = false /\
        after p = stops (stopsInCallback sc) st) /\
     (forall b, made = Ret b ->
        blob p = Some b /\
        (is_Some (outcome p) ->
           List.last (states p) "" = "done" /\
           count_occ string_dec (states p) "done" = 1%nat /\
           revoked p = true /\
           (el ∉ activeAudioElements (after p)) /\
           (exists a, heap (after p) !! el = Some a /\
                      src a = None /\ paused a = true)) /\
        (outcome p = None <->
           stopsInCallback sc = O /\
           (playStart sc = Stalled \/
            (playStart sc = Started /\ ending sc = NoEvent))) /\
        (outcome p = None ->
           count_occ string_dec (states p) "done" = 0%nat) /\
        ((0 < stopsInCallback sc)%nat ->
           states p = ["fallback"; "done"] /\ outcome p = Some (Ret tt)) /\
        (forall err, outcome p = Some (Throw err) ->
           playStart sc = Refused err \/
           (ending sc = ElementError /\ err = playbackError)) /\
        (In "playing" (states p) <->
           stopsInCallback sc = O /\ playStart sc = Started))).
Proof.
  cbv zeta. split.
  { intros ->. repeat split. }
  intros Hne.
  rewrite (play_with_chunks st el url chunks mimeType sampleRate sc Hne).
  destruct (Codec.audioBlob ToString ToNumber chunks mimeType sampleRate)
    as [b | e].
  2:{ split; [reflexivity |]. split; [| intros b H; discriminate H].
      intros e' H. injection H as <-. repeat split. }
  split.
  { destruct (stopsInCallback sc) as [| k]; cbn [Nat.ltb Nat.leb];
      [destruct (playStart sc) as [| err |];
       [unfold waitForPlaybackEnd; destruct (ending sc) | |] |];
      reflexivity. }
  split; [intros e H; discriminate H |].
  intros b' Hb. injection Hb as <-.
  destruct (stopsInCallback sc) as [| k]; cbn [Nat.ltb Nat.leb];
    [destruct (playStart sc) as [| err |];
     [unfold waitForPlaybackEnd; destruct (ending sc) | |] |];
    cbn [after states blob revoked outcome];
    try match goal with
        | |- context [release ?s ?el] =>
            let Hr := fresh "Hr" in
            let Ha := fresh "Ha" in
            destruct (release_frees s el) as [Hr Ha];
            [first [ apply registered_element
                   | apply (registered_element _ el _ O)
                   | apply stops_keep_elements; apply registered_element ] |]
        end;
    cbn [hd In];
    intuition (try discriminate; try congruence; try reflexivity; try lia;
               eauto);
    repeat match goal with
           | H : is_Some None |- _ => destruct H as [? H]; discriminate H
           | H : Some _ = Some _ |- _ => injection H as H
           end;
    try discriminate; try congruence; auto.
Qed.

(** A call that settles with its blob made has announced ['done'] last. *)
Lemma play_done_last (st : State) (el : nat) (url : string)
    (chunks : list Bytes) (mimeType sampleRate : JsValue) (sc : PlayScript) :
  let p := playBufferedAudio st el url chunks mimeType sampleRate sc in
  is_Some (outcome p) ->
  List.last ("rendering" :: states p) "" = "done" \/
  (chunks <> [] /\ states p = ["fallback"] /\
   exists e, audioBlob chunks mimeType sampleRate = Throw e /\
             outcome p = Some (Throw e)).
Proof.
  cbv zeta. destruct chunks as [| c cs]; [left; reflexivity |].
  rewrite (play_with_chunks st el url (c :: cs) mimeType sampleRate sc)
    by discriminate.
  destruct (Codec.audioBlob ToString ToNumber (c :: cs) mimeType sampleRate)
    as [b | e].
  - destruct (stopsInCallback sc) as [| k]; cbn [Nat.ltb Nat.leb];
      [destruct (playStart sc) as [| err |];
       [unfold waitForPlaybackEnd; destruct (ending sc) | |] |];
      cbn [states outcome]; intros [x H]; try discriminate H; left; reflexivity.
  - intros _. right. split; [discriminate |]. split; [reflexivity |]. eauto.
Qed.

(** X19.  [speakText], its callback returning, does nothing at all for a
    text that is blank.  Otherwise it announces ['rendering'] first and
    plays from the WebSocket collection, or from the SSE collection
    whenever the first throws, whatever the error.  While the collection
    is pending so is the call; if it throws, the call rejects with that
    error after ['rendering'] alone.  With the audio collected: if audio
    playback was stopped meanwhile, or no chunk came, it plays nothing and
    announces ['done']; else it goes on exactly as [playBufferedAudio] does
    on the chunks, the type and the rate collected.  So a call that settles
    has announced ['done'] last, but for two cases in which it rejects: the
    collection threw, or the blob could not be made. *)
Theorem speak_text_states
    (st : State) (el : nat) (url text : string)
    (viaWebSocket viaSse : option (Exn TtsCollectResult)) (stopsMeanwhile : nat)
    (sc : PlayScript) :
  let p := speakText st el url text viaWebSocket viaSse stopsMeanwhile sc in
  let from := collected viaWebSocket viaSse in
  (trim text = "" ->
     states p = [] /\ after p = st /\ blob p = None /\
     outcome p = Some (Ret tt)) /\
  (trim text <> "" ->
     hd "" (states p) = "rendering" /\
     (forall r, viaWebSocket = Some (Ret r) -> from = Some (Ret r)) /\
     (forall e, viaWebSocket = Some (Throw e) -> from = viaSse) /\
     (viaWebSocket = None -> from = None) /\
     (from = None -> states p = ["rendering"] /\ outcome p = None) /\
     (forall err, from = Some (Throw err) ->
        states p = ["rendering"] /\ outcome p = Some (Throw err) /\
        blob p = None) /\
     (forall r, from = Some (Ret r) ->
        ((0 < stopsMeanwhile)%nat \/ Player.chunks r = [] ->
           states p = ["rendering"; "done"] /\ blob p = None /\
           outcome p = Some (Ret tt) /\ after p = stops stopsMeanwhile st) /\
        (stopsMeanwhile = O -> Player.chunks r <> [] ->
           let q := playBufferedAudio st el url (Player.chunks r)
                      (Player.mimeType r) (Player.sampleRate r) sc in
           states p = "rendering" :: states q /\ outcome p = outcome q /\
           blob p = blob q /\ revoked p = revoked q /\ after p = after q)) /\
     (is_Some (outcome p) ->
        List.last (states p) "" = "done" \/
        (states p = ["rendering"] /\
         exists err, from = Some (Throw err) /\ outcome p = Some (Throw err)) \/
        (states p = ["rendering"; "fallback"] /\
         exists r e, from = Some (Ret r) /\
                     audioBlob (Player.chunks r) (Player.mimeType r)
                               (Player.sampleRate r) = Throw e /\
                     outcome p = Some (Throw e)))).
Proof.
  cbv zeta. unfold Player.speakText. split.
  { intros ->. repeat split. }
  intros Hne. destruct (String.eqb_spec (trim text) "") as [E | _];
    [contradiction |].
  rewrite (stopped_after_stops stopsMeanwhile st _ eq_refl).
  split.
  { destruct (collected viaWebSocket viaSse) as [[r | e] |]; try reflexivity.
    destruct (0 <? stopsMeanwhile)%nat; [reflexivity |].
    destruct (0 <? length (Player.chunks r))%nat; reflexivity. }
  split; [intros r ->; reflexivity |].
  split; [intros e ->; reflexivity |].
  split; [intros ->; reflexivity |].
  destruct (collected viaWebSocket viaSse) as [[r | e] |].
  - split; [discriminate |]. split; [discriminate |]. split.
    + intros r' Hr. injection Hr as <-. split.
      * intros [Hs | Hc].
        -- apply Nat.ltb_lt in Hs. rewrite Hs. repeat split.
        -- rewrite Hc. cbn [length].
           destruct stopsMeanwhile; repeat split.
      * intros -> Hc. cbn [Nat.ltb Nat.leb stops].
        destruct (Player.chunks r) as [| c cs] eqn:Ec; [contradiction |].
        cbn [length Nat.ltb Nat.leb]. cbv zeta. repeat split.
    + destruct (0 <? stopsMeanwhile)%nat; [intros _; left; reflexivity |].
      destruct (0 <? length (Player.chunks r))%nat eqn:El;
        [| intros _; left; reflexivity].
      cbv zeta. cbn [states outcome]. intros H.
      destruct (play_done_last (stops stopsMeanwhile st) el url (Player.chunks r)
                  (Player.mimeType r) (Player.sampleRate r) sc H)
        as [Hd | (_ & Hs & e & He & Ho)].
      * left. exact Hd.
      * right. right. rewrite Hs. split; [reflexivity |].
        exists r, e. repeat split; assumption.
  - split; [discriminate |]. split.
    + intros err H. injection H as <-. repeat split.
    + split; [discriminate |]. intros _. right. left.
      split; [reflexivity |]. eauto.
  - split; [intros _; split; reflexivity |].
    split; [discriminate |]. split; [discriminate |].
    intros [x H]. discriminate H.
Qed.

End Play.

(** A call that falls back to the SSE collection and plays PCM audio. *)
Example speak_text_after_ws_failure :
  let r := {| Player.chunks := [String.list_byte_of_string "abc"];
              Player.mimeType := JString "audio/pcm";
              Player.sampleRate := JNumber (Fin 16000) |} in
  let p := Player.speakText (fun _ => ""%string) (fun _ => NaN)
             initialState 1%nat "blob:1" " selam "
             (Some (Throw (buildError (JString "stream_stopped") false)))
             (Some (Ret r)) 0 samplePlay in
  states p = ["rendering"; "fallback"; "playing"; "done"] /\
  option_map snd (blob p) = Some "audio/wav"%string /\
  outcome p = Some (Ret tt) /\
  elements (activeAudioElements (after p)) = [].
Proof. vm_compute. repeat split. Qed.

(** A blank text of no-break spaces, and a type that is a number. *)
Example speak_text_odd_inputs :
  let r := {| Player.chunks := [String.list_byte_of_string "abc"];
              Player.mimeType := JNumber (Fin 5);
              Player.sampleRate := JNumber (Fin 16000) |} in
  states (Player.speakText (fun _ => ""%string) (fun _ => NaN)
            initialState 1%nat "blob:1" (nbsp ++ nbsp)
            (Some (Ret r)) None 0 samplePlay) = [] /\
  states (Player.speakText (fun _ => ""%string) (fun _ => NaN)
            initialState 1%nat "blob:1" "selam"
            (Some (Ret r)) None 0 samplePlay) = ["rendering"; "fallback"] /\
  outcome (Player.speakText (fun _ => ""%string) (fun _ => NaN)
             initialState 1%nat "blob:1" "selam"
             (Some (Ret r)) None 0 samplePlay) = Some (Throw TypeError).
Proof. vm_compute. repeat split. Qed.

(** From the wire to the loudspeaker: four WebSocket attempts fail in
    transport, the SSE stream delivers one audio event, and the call plays
    it. *)
Example speak_text_end_to_end :
  let broken := Sample.script [Tts.EvOpen; Tts.EvError; Tts.EvClose false] in
  let ws := snd (Sample.collect [broken; broken; broken; broken]) in
  let sse := Sse.collectTtsViaSse Sample.JSON_parse Sample.atob
               [ ("data: " ++ Sample.audioFrame "1" "YWJj" ++ Sse.lf ++ Sse.lf)%string ] in
  let p := Player.speakText (fun _ => ""%string) (fun _ => NaN)
             initialState 1%nat "blob:1" "selam"
             (ofWebSocket ws) (ofSse sse) 0 samplePlay in
  ws = Tts.Threw (buildError (JString "tts_ws_transport_error") true) /\
  states p = ["rendering"; "fallback"; "playing"; "done"] /\
  blob p = Some (String.list_byte_of_string "abc", "audio/mpeg"%string) /\
  outcome p = Some (Ret tt).
Proof. vm_compute. repeat split. Qed.

End PlayerSpec.

(** ** Audio frames on the TTS socket *)

Module TtsWireSpec.
Import Tts.

Section Frames.
Variable JSON_parse : string -> Exn JsValue.
Variable atob : string -> Exn string.
Variable strip_data_uri : string -> string.
Variable requestId : string.
Variables (assistantText voice : string) (accessibilityMode : bool).

Local Abbreviation dispatch :=
  (Tts.dispatch JSON_parse atob strip_data_uri requestId
     assistantText voice accessibilityMode).
Local Abbreviation run :=
  (Tts.run JSON_parse atob strip_data_uri requestId
     assistantText voice accessibilityMode).
Local Abbreviation ackMessage := (Tts.ackMessage requestId).

(** The course of [onmessage] on an audio frame. *)
Lemma audio_frame_handled (c : Conn) (data : string) (payload : JsValue) :
  live c = true ->
  JSON_parse data = Ret payload ->
  is_str (prop payload "type") "audio" = true ->
  String.eqb (typeof (prop payload "audio")) "string" = true ->
  dispatch c (EvMessage data)
  = match on_audio atob strip_data_uri requestId c payload with
    | Ret c1 => c1
    | Throw _ => c
    end.
Proof.
  unfold live. intros Hl Hp Ht Ha.
  apply andb_prop in Hl as [Hl _]. apply andb_prop in Hl as [Ho Hh].
  cbn [Tts.dispatch]. rewrite Ho, Hh. cbn [andb].
  unfold Tts.onmessage, parseTtsWsEventPayload.
  cbn [typeof String.eqb Ascii.eqb Bool.eqb negb string_of try_catch].
  rewrite Hp. cbn [try_catch bind].
  assert (Htr : truthy payload = true).
  { destruct payload; cbn in Ht; try discriminate. reflexivity. }
  rewrite Htr, Ht, Ha. reflexivity.
Qed.

Lemma done_frame_handled (c : Conn) (data : string) (payload : JsValue) :
  live c = true ->
  JSON_parse data = Ret payload ->
  is_str (prop payload "type") "done" = true ->
  dispatch c (EvMessage data) = on_done c payload.
Proof.
  unfold live. intros Hl Hp Ht.
  apply andb_prop in Hl as [Hl _]. apply andb_prop in Hl as [Ho Hh].
  cbn [Tts.dispatch]. rewrite Ho, Hh. cbn [andb].
  unfold Tts.onmessage, parseTtsWsEventPayload.
  cbn [typeof String.eqb Ascii.eqb Bool.eqb negb string_of try_catch].
  rewrite Hp. cbn [try_catch bind].
  assert (Htr : truthy payload = true).
  { destruct payload; cbn in Ht; try discriminate. reflexivity. }
  assert (Hna : is_str (prop payload "type") "audio" = false).
  { destruct (prop payload "type"); cbn in *; try reflexivity.
    apply String.eqb_eq in Ht. subst. reflexivity. }
  rewrite Htr, Hna, Ht. reflexivity.
Qed.

Lemma on_done_keeps (c : Conn) (payload : JsValue) :
  sess (on_done c payload) = sess c /\ sent (on_done c payload) = sent c.
Proof.
  unfold on_done, close. destruct (js_gt _ _); cbn [readyState];
    destruct (readyState c); split; reflexivity.
Qed.

Lemma close_event_keeps (c : Conn) (stopped : bool) :
  sess (dispatch c (EvClose stopped)) = sess c /\
  sent (dispatch c (EvClose stopped)) = sent c.
Proof.
  cbn [Tts.dispatch]. unfold onclose, finalize.
  destruct (readyState c), (handlers c), stopped; cbn [done];
    try (split; reflexivity); destruct (done c); split; reflexivity.
Qed.


(** X21.  Every audio frame that reaches a live attempt and does not make
    the handler throw is answered by exactly one ack, which carries the
    highest number buffered after the frame: the frame's own number when the
    chunk is new (it is then the one chunk added), and the old
    [highestSeqSeen] when the frame is a repeat (nothing is added). *)
Theorem audio_frame_is_acked_with_highest_seq
    (c : Conn) (data : string) (payload : JsValue) :
  live c = true ->
  JSON_parse data = Ret payload ->
  is_str (prop payload "type") "audio" = true ->
  String.eqb (typeof (prop payload "audio")) "string" = true ->
  returns (atob (strip_data_uri (string_of (prop payload "audio")))) = true ->
  let seq := number_or (prop payload "seq") (Fin 0) in
  let c1 := dispatch c (EvMessage data) in
  sent c1 = sent c ++ [ackMessage c1] /\
  prop (ackMessage c1) "last_seq" = JNumber (highestSeqSeen (sess c1)) /\
  highestSeqSeen (sess c1)
    = (if shouldAcceptAudioSeq seq (highestSeqSeen (sess c))
       then seq else highestSeqSeen (sess c)) /\
  length (chunks (sess c1))
    = (if shouldAcceptAudioSeq seq (highestSeqSeen (sess c))
       then S (length (chunks (sess c))) else length (chunks (sess c))).
Proof.
  intros Hl Hp Ht Ha Hdec. cbv zeta.
  rewrite (audio_frame_handled c data payload Hl Hp Ht Ha).
  assert (Ho : is_open (readyState c) = true).
  { unfold live in Hl. apply andb_prop in Hl as [Hl _].
    apply andb_prop in Hl as [Ho _]. exact Ho. }
  unfold Tts.on_audio, Tts.base64ToUint8Array.
  destruct (atob _) as [binary | e]; [| discriminate].
  destruct (shouldAcceptAudioSeq _ _); cbn [bind set_sess readyState];
    rewrite Ho.
  - split; [reflexivity |]. split; [reflexivity |]. split; [reflexivity |].
    unfold send, set_sess. cbn [sess chunks].
    rewrite List.length_app. cbn [length]. lia.
  - repeat split; reflexivity.
Qed.

End Frames.


(** X21 on an opened socket: the first chunk is acked with its number. *)
Lemma audio_frame_ack_sample :
  sent (Tts.dispatch TtsWire.JSON_parse Sample.atob Codec.stripDataUri
          "r1" "selam" "v" false TtsWire.openedConn
          (EvMessage (Sample.audioFrame "1" "YWJj")))
  = sent TtsWire.openedConn
    ++ [Tts.ackMessage "r1"
          (Tts.dispatch TtsWire.JSON_parse Sample.atob Codec.stripDataUri
             "r1" "selam" "v" false TtsWire.openedConn
             (EvMessage (Sample.audioFrame "1" "YWJj")))] /\
  highestSeqSeen
    (sess (Tts.dispatch TtsWire.JSON_parse Sample.atob Codec.stripDataUri
             "r1" "selam" "v" false TtsWire.openedConn
             (EvMessage (Sample.audioFrame "1" "YWJj"))))
  = Fin 1.
Proof.
  destruct (audio_frame_is_acked_with_highest_seq
              TtsWire.JSON_parse Sample.atob Codec.stripDataUri "r1" "selam" "v" false
              TtsWire.openedConn (Sample.audioFrame "1" "YWJj")
              (Sample.audioPayload 1 "YWJj"))
    as (H1 & _ & H3 & _); try (vm_compute; reflexivity).
  split; [exact H1 | exact H3].
Defined.

End TtsWireSpec.

(** ** Cancelling an STT session *)

Module SttCancelSpec.
Import Stt SttWire.

Section Cancel.
Variable JSON_parse : string -> Exn JsValue.
Variable projectId : string.
Variable sessionId : option string.
Variables (language mimeType : string).

Local Abbreviation dispatch :=
  (Stt.dispatch JSON_parse projectId sessionId language mimeType).
Local Abbreviation run :=
  (Stt.run JSON_parse projectId sessionId language mimeType).

Lemma rejectAll_wire (s : State) (e : JsValue) :
  sameWire s (rejectAll s e) /\ readyState (rejectAll s e) = readyState s.
Proof. unfold rejectAll, sameWire. destruct (settled s); repeat split; auto. Qed.

Lemma resolve_wire (s : State) :
  sameWire s (resolveDoneIfPossible s) /\
  readyState (resolveDoneIfPossible s) = readyState s.
Proof.
  unfold resolveDoneIfPossible, sameWire.
  destruct (settled s); [repeat split; auto |].
  destruct (_ || _); repeat split; auto.
Qed.

Lemma sameWire_refl (s : State) : sameWire s s.
Proof. unfold sameWire. repeat split; auto. Qed.

Lemma sameWire_trans (a b c : State) : sameWire a b -> sameWire b c -> sameWire a c.
Proof.
  unfold sameWire. intros (H1 & H2 & H3 & H4 & H5) (K1 & K2 & K3 & K4 & K5).
  repeat split; try congruence. auto.
Qed.

(** No event reaches the handlers' sends and callbacks once the socket is
    closing. *)
Lemma muted_step (s : State) (ev : Event) :
  Muted s -> Muted (dispatch s ev) /\ sameWire s (dispatch s ev).
Proof.
  intros Hm. destruct ev; cbn [Stt.dispatch].
  - destruct Hm as [H | H]; rewrite H; split;
      [left; exact H | apply sameWire_refl | right; exact H | apply sameWire_refl].
  - destruct Hm as [H | H]; rewrite H; cbn [Tts.is_open]; split;
      [left; exact H | apply sameWire_refl | right; exact H | apply sameWire_refl].
  - destruct Hm as [H | H]; rewrite H.
    + unfold onerror.
      destruct (rejectAll_wire s (buildError (JString "stt_ws_transport_error") true))
        as [Hw Hr].
      split; [left; rewrite Hr; exact H | exact Hw].
    + split; [right; exact H | apply sameWire_refl].
  - destruct Hm as [H | H]; rewrite H;
      [| split; [right; exact H | apply sameWire_refl]].
    set (s0 := mkState _ _ _ _ _ _ Tts.CLOSED _ _).
    assert (H0 : sameWire s s0) by (unfold sameWire, s0; repeat split; auto).
    unfold onclose. destruct (settled s0); [split; [right; reflexivity | exact H0] |].
    destruct (_ && _).
    + destruct (resolve_wire s0) as [Hw Hr].
      split; [right; rewrite Hr; reflexivity | exact (sameWire_trans _ _ _ H0 Hw)].
    + destruct (rejectAll_wire s0
                  (buildError (JString "stt_ws_closed_before_done") true))
        as [Hw Hr].
      split; [right; rewrite Hr; reflexivity | exact (sameWire_trans _ _ _ H0 Hw)].
  - unfold cancel, socket_close. cbn [readyState].
    destruct Hm as [H | H]; rewrite H; split;
      [left; reflexivity | unfold sameWire; repeat split; auto
      | right; reflexivity | unfold sameWire; repeat split; auto].
Qed.

Lemma muted_run (evs : list Event) : forall s,
  Muted s -> sameWire s (run s evs).
Proof.
  induction evs as [| ev evs IH]; intros s Hm; [apply sameWire_refl |].
  cbn [Stt.run fold_left]. destruct (muted_step s ev Hm) as [Hm1 Hw1].
  eapply sameWire_trans; [exact Hw1 |]. apply IH. exact Hm1.
Qed.

Lemma cancel_mutes (s : State) :
  Muted (cancel s) /\ stopped (cancel s) = true /\
  sent (cancel s) = sent s /\ notices (cancel s) = notices s /\
  finalText (cancel s) = finalText s /\ finalSessionId (cancel s) = finalSessionId s.
Proof.
  unfold cancel, socket_close, Muted. cbn [readyState].
  destruct (readyState s); repeat split; auto.
Qed.

(** X22.  After [cancel()] the session is silent: whatever the socket
    reports afterwards, no message is sent, no callback is called, and the
    final text and session id stay as they were; [cancel()] does not settle
    the promises itself.  If the session was unsettled on a socket that
    was not closed, the close event settles it: with the retryable
    [stt_ws_closed_before_done] error when no final text or no session id
    had arrived. *)
Theorem cancel_silences_the_session (s : State) (evs : list Event) :
  let s1 := run (cancel s) evs in
  sent s1 = sent s /\ notices s1 = notices s /\
  finalText s1 = finalText s /\ finalSessionId s1 = finalSessionId s /\
  stopped s1 = true /\
  donePromise (cancel s) = donePromise s /\
  startPromise (cancel s) = startPromise s /\
  (settled s = false -> readyState s <> Tts.CLOSED ->
   (String.eqb (finalText s) "" || String.eqb (finalSessionId s) "") = true ->
   donePromise s = Pending ->
   donePromise (run (cancel s) [EvClose])
   = Failed (buildError (JString "stt_ws_closed_before_done") true)).
Proof.
  cbv zeta. destruct (cancel_mutes s) as (Hm & Hst & Hs & Hn & Hf & Hi).
  destruct (muted_run evs (cancel s) Hm) as (K1 & K2 & K3 & K4 & K5).
  split; [congruence |]. split; [congruence |]. split; [congruence |].
  split; [congruence |]. split; [auto |].
  split; [unfold cancel, socket_close; cbn [readyState];
          destruct (readyState s); reflexivity |].
  split; [unfold cancel, socket_close; cbn [readyState];
          destruct (readyState s); reflexivity |].
  intros Hset Hopen Hblank Hpend.
  assert (Hclose : forall s0 : State,
            settled s0 = false -> donePromise s0 = Pending ->
            (String.eqb (finalText s0) "" || String.eqb (finalSessionId s0) "") = true ->
            donePromise (onclose s0)
            = Failed (buildError (JString "stt_ws_closed_before_done") true)).
  { intros s0 H1 H2 H3. unfold onclose. rewrite H1.
    assert (Hc : negb (String.eqb (finalText s0) "")
                 && negb (String.eqb (finalSessionId s0) "") = false).
    { apply orb_true_iff in H3 as [H3 | H3]; rewrite H3;
        [reflexivity | apply andb_false_r]. }
    rewrite Hc. unfold rejectAll. rewrite H1. cbn [donePromise]. rewrite H2.
    reflexivity. }
  cbn [Stt.run fold_left Stt.dispatch]. unfold cancel, socket_close.
  cbn [readyState].
  destruct (readyState s) eqn:Hr; try contradiction; cbn [readyState];
    apply Hclose; assumption.
Qed.

End Cancel.

End SttCancelSpec.

(** ** The persisted cursor state *)

Module CursorSpec.
Import Cursor.

Section Store.
Variable JSON_parse : string -> Exn JsValue.
Variable JSON_stringify : JsValue -> Exn string.
Variable quota : string -> bool.

Local Abbreviation getPersistedCursorState := (Cursor.getPersistedCursorState JSON_parse).
Local Abbreviation persistCursorState :=
  (Cursor.persistCursorState JSON_stringify quota).

(** X23.  [getPersistedCursorState] never throws and lets no malformed
    record through: whatever the storage holds, it returns [null] or a record
    whose [url] is a string, whose [x] and [y] are finite numbers and whose
    [visible] is a boolean.  A state written by [persistCursorState] with
    finite coordinates is read back as it was written (given that
    [JSON.parse] gives back the record from the text [JSON.stringify] made
    of it), and it is applied on the page it was written on and on no
    other. *)
Theorem persisted_cursor_is_validated_and_read_back
    (ls : Resume.Env) (m : gmap string string) (href other : string)
    (x y : Z) (visible : bool) (textOut : string) :
  (getPersistedCursorState ls = JNull \/
   wellFormed (getPersistedCursorState ls) = true) /\
  (JSON_stringify (payload href (Fin x) (Fin y) visible) = Ret textOut ->
   JSON_parse textOut = Ret (payload href (Fin x) (Fin y) visible) ->
   textOut <> EmptyString -> quota textOut = true ->
   let stored :=
     getPersistedCursorState (persistCursorState (Some m) href (Fin x) (Fin y) visible) in
   stored = payload href (Fin x) (Fin y) visible /\
   appliesTo stored href = true /\
   (other <> href -> appliesTo stored other = false)).
Proof.
  split.
  - unfold Cursor.getPersistedCursorState.
    destruct ls as [m0 |]; [| left; reflexivity].
    destruct (m0 !! CURSOR_STORAGE_KEY) as [raw |]; [| left; reflexivity].
    destruct (String.eqb raw ""); [left; reflexivity |].
    destruct (JSON_parse raw) as [parsed | e]; cbn [bind]; [| left; reflexivity].
    destruct (member parsed "url") as [url | e]; cbn [bind]; [| left; reflexivity].
    destruct (String.eqb (typeof url) "string") eqn:Hu; cbn [negb orb];
      [| left; reflexivity].
    destruct (isFiniteNumber (prop parsed "x")) eqn:Hx; cbn [negb orb];
      [| left; reflexivity].
    destruct (isFiniteNumber (prop parsed "y")) eqn:Hy; cbn [negb orb];
      [| left; reflexivity].
    right. set (r := JObject _).
    assert (H1 : prop r "url" = url) by reflexivity.
    assert (H2 : prop r "x" = prop parsed "x") by reflexivity.
    assert (H3 : prop r "y" = prop parsed "y") by reflexivity.
    assert (H4 : prop r "visible" = JBool (negb (is_false (prop parsed "visible"))))
      by reflexivity.
    unfold wellFormed. rewrite H1, H2, H3, H4, Hu, Hx, Hy. reflexivity.
  - intros Hs Hp Hne Hq. cbv zeta.
    assert (Hget : getPersistedCursorState
                     (persistCursorState (Some m) href (Fin x) (Fin y) visible)
                   = payload href (Fin x) (Fin y) visible).
    { unfold Cursor.persistCursorState. rewrite Hs, Hq.
      unfold Cursor.getPersistedCursorState. rewrite lookup_insert_eq.
      destruct (String.eqb_spec textOut "") as [E | _]; [contradiction |].
      rewrite Hp. cbn [bind].
      set (r := payload href (Fin x) (Fin y) visible).
      assert (H0 : member r "url" = Ret (JString href)) by reflexivity.
      assert (H2 : prop r "x" = JNumber (Fin x)) by reflexivity.
      assert (H3 : prop r "y" = JNumber (Fin y)) by reflexivity.
      assert (H4 : prop r "visible" = JBool visible) by reflexivity.
      rewrite H0. cbn [bind]. rewrite H2, H3, H4.
      cbn [typeof String.eqb Ascii.eqb Bool.eqb negb orb isFiniteNumber is_false].
      destruct visible; reflexivity. }
    rewrite Hget. split; [reflexivity |].
    unfold appliesTo.
    assert (H1 : prop (payload href (Fin x) (Fin y) visible) "url" = JString href)
      by reflexivity.
    rewrite H1. cbn [truthy payload andb is_str]. split.
    + apply String.eqb_refl.
    + intros Hd. apply String.eqb_neq. congruence.
Qed.

End Store.

(** X23 at a record written on one page and looked up on another. *)
Lemma persisted_cursor_sample :
  Cursor.getPersistedCursorState sampleParse
    (Cursor.persistCursorState sampleStringify (fun _ => true)
       (Some ∅) "https://example.com/a" (Fin 10) (Fin 20) true)
  = payload "https://example.com/a" (Fin 10) (Fin 20) true /\
  appliesTo (Cursor.getPersistedCursorState sampleParse
               (Cursor.persistCursorState sampleStringify (fun _ => true)
                  (Some ∅) "https://example.com/a" (Fin 10) (Fin 20) true))
            "https://example.com/b" = false.
Proof.
  destruct (persisted_cursor_is_validated_and_read_back sampleParse sampleStringify
              (fun _ => true) None ∅ "https://example.com/a" "https://example.com/b"
              10 20 true sampleText) as [_ H].
  destruct H as (H1 & _ & H3); try reflexivity; try discriminate.
  split; [exact H1 | apply H3; discriminate].
Defined.

Example garbled_cursor_records_are_ignored :
  Cursor.getPersistedCursorState (fun _ => Ret JNull)
    (Some {[ CURSOR_STORAGE_KEY := "null" ]}) = JNull /\
  Cursor.getPersistedCursorState
    (fun _ => Ret (JObject {[ "url" := JString "u"; "x" := JNumber NaN;
                              "y" := JNumber (Fin 1) ]}))
    (Some {[ CURSOR_STORAGE_KEY := "{...}" ]}) = JNull.
Proof. vm_compute. split; reflexivity. Qed.

End CursorSpec.
